(** * The in-memory storage layer (server/storage.ts) and the two
      authentication routes that call it (server/routes.ts)

    The development embeds [MemStorage] as pure functions over an explicit
    store value.  The three sources of nondeterminism of the TypeScript code
    are arguments of the operations that use them:
      - [randomUUID()]          an [id : string],
      - [new Date()]            a [now : Z], milliseconds since the epoch,
      - the salt drawn by [bcrypt.hash(_, 10)]   a [salt : string].
    JavaScript numbers are IEEE-754 doubles; they are modelled by the
    rational they denote, every arithmetic result being rounded to the
    nearest double (module [JsNumber]). *)

From Stdlib Require Import ZArith QArith Qround Qabs Qpower List String Ascii Bool.
From Stdlib Require Import Lia Lqa Permutation Sorted DecimalString.
From Stdlib Require Qcanon.
Import ListNotations.
Open Scope Z_scope.

(* ================================================================== *)
(** ** JavaScript numbers *)

Module JsNumber.

(** [2^e] as a rational, for any integer exponent. *)
Definition pow2 (e : Z) : Q := (2 ^ e)%Q.

(** Nearest integer to [a / b], ties to the even one ([0 <= a], [0 < b]). *)
Definition rne_div (a b : Z) : Z :=
  let q := a / b in
  let r := a mod b in
  if 2 * r <? b then q
  else if b <? 2 * r then q + 1
  else if Z.even q then q else q + 1.

(** [floor (log2 (p / q))] for positive [p] and [q]. *)
Definition ilog2 (p q : Z) : Z :=
  let d := Z.log2 p - Z.log2 q in
  if q * 2 ^ Z.max 0 d <=? p * 2 ^ Z.max 0 (- d) then d else d - 1.

(** Rounding of a rational to binary64: 53 significant bits, round to
    nearest, ties to even, gradual underflow below [2^-1022].  Overflow to
    [Infinity] is not represented: no quantity computed by the storage
    layer comes near [2^1024]. *)
Definition fl (x : Q) : Q :=
  let p := Z.abs (Qnum x) in
  let q := Zpos (Qden x) in
  if p =? 0 then 0%Q else
  let e := Z.max (ilog2 p q - 52) (-1074) in
  let m := rne_div (p * 2 ^ Z.max 0 (- e)) (q * 2 ^ Z.max 0 e) in
  Qred (inject_Z (Z.sgn (Qnum x) * m) * pow2 e).

(** The operators [+], [*] and [/] on finite doubles ([/] with a nonzero
    divisor, which is what the guards of [getAnalytics] ensure). *)
Definition add (x y : Q) : Q := fl (x + y).
Definition mul (x y : Q) : Q := fl (x * y).
Definition div (x y : Q) : Q := fl (x / y).

(** [Math.round]: the nearest integer, a tie going towards [+Infinity]. *)
Definition Math_round (x : Q) : Z := Qfloor (x + (1 # 2)).

Definition digits (n : Z) : string :=
  NilZero.string_of_uint (N.to_uint (Z.to_N n)).

(** [x.toFixed(1)]: with [n] the integer for which [n / 10 - x] is closest
    to zero (the larger one on a tie), the digits of [n] with a point
    before the last one. *)
Definition toFixed1 (x : Q) : string :=
  let a := Qabs x in
  let n := Qfloor (a * 10 + (1 # 2)) in
  ((if Qlt_le_dec x 0 then "-" else "") ++
   digits (n / 10) ++ "." ++ digits (n mod 10))%string.

End JsNumber.

(* ================================================================== *)
(** ** [Map<string, V>]: keyed, iterated in insertion order *)

Module JsMap.
Section Ops.
Context {V : Type}.

Definition t := list (string * V).

Definition empty : t := [].

Fixpoint get (k : string) (m : t) : option V :=
  match m with
  | [] => None
  | (k', v) :: m' => if String.eqb k k' then Some v else get k m'
  end.

Definition has (k : string) (m : t) : bool :=
  match get k m with Some _ => true | None => false end.

(** [set] keeps the position of a key that is already present and
    appends a new key at the end. *)
Fixpoint set (k : string) (v : V) (m : t) : t :=
  match m with
  | [] => [(k, v)]
  | (k', v') :: m' =>
      if String.eqb k k' then (k, v) :: m' else (k', v') :: set k v m'
  end.

Fixpoint remove (k : string) (m : t) : t :=
  match m with
  | [] => []
  | (k', v') :: m' =>
      if String.eqb k k' then m' else (k', v') :: remove k m'
  end.

(** [delete] answers whether the key was present. *)
Definition delete (k : string) (m : t) : bool * t :=
  (has k m, remove k m).

Definition keys (m : t) : list string := map fst m.

(** [Array.from(m.values())] *)
Definition values (m : t) : list V := map snd m.
End Ops.
Arguments t : clear implicits.
End JsMap.

(* ================================================================== *)
(** ** Arrays *)

Module JsArray.
Section Ops.
Context {A : Type}.

(** [Array.prototype.sort(cmp)] is stable (ECMAScript 2019), so for a
    consistent comparator its result is the one of any stable sort;
    insertion from the right is the stable sort used here.  [cmp a b]
    negative or zero leaves [a] before [b]. *)
Fixpoint insert (cmp : A -> A -> Z) (x : A) (l : list A) : list A :=
  match l with
  | [] => [x]
  | y :: l' => if cmp x y <=? 0 then x :: l else y :: insert cmp x l'
  end.

Definition sort (cmp : A -> A -> Z) (l : list A) : list A :=
  fold_right (insert cmp) [] l.

(** The comparators of the storage layer are both of the form
    [(a, b) => key(b) - key(a)]. *)
Definition desc (key : A -> Z) (a b : A) : Z := key b - key a.

(** Larger key first; for equal keys, the order [before] the list came in. *)
Definition stable_order (key : A -> Z) (before : A -> A -> Prop) (a b : A) : Prop :=
  key b < key a \/ (key a = key b /\ before a b).
End Ops.
End JsArray.

(* ================================================================== *)
(** ** shared/schema.ts: the row types *)

(** A value is truthy unless it is [""], [0], [null] or [undefined]. *)
Definition truthy_string (s : string) : bool := negb (String.eqb s "").
Definition truthy_number (z : Z) : bool := negb (z =? 0).

Module User.
Record t := mk {
  id : string;
  username : string;
  email : string;
  password : string;
  role : string;
  createdAt : Z;
  updatedAt : Z
}.

(** [InsertUser]: [id], [createdAt], [updatedAt] omitted, [role] optional
    because the column has a default. *)
Record insert := mkInsert {
  i_username : string;
  i_email : string;
  i_password : string;
  i_role : option string
}.

(** [Partial<User>]: [None] is an absent key. *)
Record partial := mkPartial {
  p_id : option string;
  p_username : option string;
  p_email : option string;
  p_password : option string;
  p_role : option string;
  p_createdAt : option Z;
  p_updatedAt : option Z
}.

(** The user as the routes send it: [const { password: _, ...userResponse }]. *)
Record response := mkResponse {
  r_id : string;
  r_username : string;
  r_email : string;
  r_role : string;
  r_createdAt : Z;
  r_updatedAt : Z
}.

Definition without_password (u : t) : response :=
  mkResponse (id u) (username u) (email u) (role u) (createdAt u) (updatedAt u).
End User.

Module ToolUsage.
Record t := mk {
  id : string;
  toolName : string;
  category : string;
  userId : option string;
  sessionId : option string;
  timestamp : Z;
  processingTime : option Z;   (* integer column, in milliseconds *)
  fileSize : option Z;
  success : bool
}.

Record insert := mkInsert {
  i_toolName : string;
  i_category : string;
  i_userId : option string;
  i_sessionId : option string;
  i_processingTime : option Z;
  i_fileSize : option Z;
  i_success : bool
}.

Record filters := mkFilters {
  f_toolName : option string;
  f_category : option string;
  f_dateFrom : option Z;
  f_dateTo : option Z
}.
End ToolUsage.

Module AdSlot.
(** [createAdSlot] spreads its input into the stored slot without applying
    the column default, so a stored slot has an [isActive] only when the
    input had one: [None] is [undefined]. *)
Record t := mk {
  id : string;
  name : string;
  position : string;
  page : string;
  isActive : option bool;
  adProvider : option string;
  adCode : option string;
  settings : option (list (string * string));
  createdAt : Z
}.

Record insert := mkInsert {
  i_name : string;
  i_position : string;
  i_page : string;
  i_isActive : option bool;
  i_adProvider : option string;
  i_adCode : option string;
  i_settings : option (list (string * string))
}.

Record partial := mkPartial {
  p_id : option string;
  p_name : option string;
  p_position : option string;
  p_page : option string;
  p_isActive : option bool;
  p_adProvider : option string;
  p_adCode : option string;
  p_settings : option (list (string * string));
  p_createdAt : option Z
}.
End AdSlot.

Definition truthy_flag (b : option bool) : bool :=
  match b with Some true => true | _ => false end.

(** [{...a, ...b}] field by field: a key present in [b] wins. *)
Definition spread {A : Type} (old : A) (upd : option A) : A :=
  match upd with Some v => v | None => old end.

(* ================================================================== *)
(** ** The bcrypt library *)

(** [bcrypt.hash(plaintext, 10)] with the salt it draws made explicit, and
    [bcrypt.compare(plaintext, digest)]. *)
Class Bcrypt := {
  bcrypt_hash : string -> string -> string;
  bcrypt_compare : string -> string -> bool
}.

(** bcrypt reads a plaintext as a byte string and no further than its first
    72 bytes.  A password is held here as the bytes bcrypt is given. *)
Definition bcrypt_key (plaintext : string) : string := substring 0 72 plaintext.

(** What the library gives: [compare] recomputes the digest with the salt
    kept in it, so it accepts a digest for the plaintext it was made from,
    and for every plaintext with the same first 72 bytes.  Nothing is
    assumed about when [compare] rejects. *)
Class BcryptLaws (B : Bcrypt) : Prop :=
  bcrypt_compare_key :
    forall plaintext other salt,
      bcrypt_key other = bcrypt_key plaintext ->
      bcrypt_compare other (bcrypt_hash plaintext salt) = true.

(* ================================================================== *)
(** ** server/storage.ts: [MemStorage] *)

Record MemStorage := mkStorage {
  users : JsMap.t User.t;
  toolUsages : JsMap.t ToolUsage.t;
  adSlots : JsMap.t AdSlot.t
}.

Definition set_users (st : MemStorage) (m : JsMap.t User.t) : MemStorage :=
  mkStorage m (toolUsages st) (adSlots st).
Definition set_toolUsages (st : MemStorage) (m : JsMap.t ToolUsage.t) : MemStorage :=
  mkStorage (users st) m (adSlots st).
Definition set_adSlots (st : MemStorage) (m : JsMap.t AdSlot.t) : MemStorage :=
  mkStorage (users st) (toolUsages st) m.

(** The three maps as the constructor creates them, before the seeding. *)
Definition new_maps : MemStorage :=
  mkStorage JsMap.empty JsMap.empty JsMap.empty.

(** The per-tool accumulator of [getAnalytics] and the record it returns. *)
Record StatAcc := mkAcc {
  acc_name : string;
  acc_category : string;
  acc_usageCount : Z;
  acc_successCount : Z;
  acc_totalProcessingTime : Q
}.

Record ToolStat := mkStat {
  name : string;
  category : string;
  usageCount : Z;
  successRate : Z;
  avgProcessingTime : Z
}.

Record Analytics := mkAnalytics {
  totalUsage : Z;
  mostPopular : string;
  popularUsage : Z;
  globalSuccessRate : string;     (* the field [successRate] of the result *)
  toolStats : list ToolStat
}.

Section Storage.
Context {B : Bcrypt}.

(** *** Users *)

Definition getUser (id : string) (st : MemStorage) : option User.t :=
  JsMap.get id (users st).

Definition getUserByEmail (email : string) (st : MemStorage) : option User.t :=
  find (fun user => String.eqb (User.email user) email) (JsMap.values (users st)).

Definition getUserByUsername (username : string) (st : MemStorage) : option User.t :=
  find (fun user => String.eqb (User.username user) username) (JsMap.values (users st)).

(** [insertUser.role || "user"] *)
Definition role_or_user (r : option string) : string :=
  match r with
  | Some r => if truthy_string r then r else "user"%string
  | None => "user"%string
  end.

Definition createUser (id salt : string) (now : Z) (insertUser : User.insert)
    (st : MemStorage) : User.t * MemStorage :=
  let hashedPassword := bcrypt_hash (User.i_password insertUser) salt in
  let user :=
    User.mk id (User.i_username insertUser) (User.i_email insertUser)
      hashedPassword (role_or_user (User.i_role insertUser)) now now in
  (user, set_users st (JsMap.set id user (users st))).

Definition initializeAdminUser (adminId salt : string) (now : Z)
    (st : MemStorage) : MemStorage :=
  let hashedPassword := bcrypt_hash "admin123" salt in
  let adminUser :=
    User.mk adminId "admin" "admin@toolsuitepro.com" hashedPassword "admin" now now in
  set_users st (JsMap.set adminId adminUser (users st)).

(** [{ ...user, ...updates, updatedAt: new Date() }], stored under the
    [id] that was looked up. *)
Definition updateUser (id : string) (now : Z) (updates : User.partial)
    (st : MemStorage) : option User.t * MemStorage :=
  match JsMap.get id (users st) with
  | None => (None, st)
  | Some user =>
      let updatedUser :=
        User.mk (spread (User.id user) (User.p_id updates))
          (spread (User.username user) (User.p_username updates))
          (spread (User.email user) (User.p_email updates))
          (spread (User.password user) (User.p_password updates))
          (spread (User.role user) (User.p_role updates))
          (spread (User.createdAt user) (User.p_createdAt updates))
          now in
      (Some updatedUser, set_users st (JsMap.set id updatedUser (users st)))
  end.

Definition authenticateUser (email password : string) (st : MemStorage)
    : option User.t :=
  match getUserByEmail email st with
  | None => None
  | Some user =>
      let isValid := bcrypt_compare password (User.password user) in
      if isValid then Some user else None
  end.

(** *** Tool usage *)

Definition createToolUsage (id : string) (now : Z) (usage : ToolUsage.insert)
    (st : MemStorage) : ToolUsage.t * MemStorage :=
  let toolUsage :=
    ToolUsage.mk id (ToolUsage.i_toolName usage) (ToolUsage.i_category usage)
      (ToolUsage.i_userId usage) (ToolUsage.i_sessionId usage) now
      (ToolUsage.i_processingTime usage) (ToolUsage.i_fileSize usage)
      (ToolUsage.i_success usage) in
  (toolUsage, set_toolUsages st (JsMap.set id toolUsage (toolUsages st))).

(** [if (filters.x) usages = usages.filter(...)]: the filter is applied when
    the field is truthy.  A [Date] object is always truthy. *)
Definition filter_when {A : Type} (cond : bool) (f : A -> bool) (l : list A) : list A :=
  if cond then filter f l else l.

Definition is_some_truthy (s : option string) : bool :=
  match s with Some v => truthy_string v | None => false end.

Definition by_timestamp_desc (a b : ToolUsage.t) : Z :=
  ToolUsage.timestamp b - ToolUsage.timestamp a.

Definition getToolUsage (filters : option ToolUsage.filters) (st : MemStorage)
    : list ToolUsage.t :=
  let usages := JsMap.values (toolUsages st) in
  let usages :=
    match filters with
    | None => usages
    | Some filters =>
        let usages :=
          filter_when (is_some_truthy (ToolUsage.f_toolName filters))
            (fun usage => match ToolUsage.f_toolName filters with
                          | Some n => String.eqb (ToolUsage.toolName usage) n
                          | None => false end) usages in
        let usages :=
          filter_when (is_some_truthy (ToolUsage.f_category filters))
            (fun usage => match ToolUsage.f_category filters with
                          | Some c => String.eqb (ToolUsage.category usage) c
                          | None => false end) usages in
        let usages :=
          match ToolUsage.f_dateFrom filters with
          | Some dateFrom =>
              filter (fun usage => dateFrom <=? ToolUsage.timestamp usage) usages
          | None => usages
          end in
        match ToolUsage.f_dateTo filters with
        | Some dateTo =>
            filter (fun usage => ToolUsage.timestamp usage <=? dateTo) usages
        | None => usages
        end
    end in
  JsArray.sort by_timestamp_desc usages.

(** *** Ad slots *)

Definition getAdSlots (st : MemStorage) : list AdSlot.t :=
  JsMap.values (adSlots st).

Definition getActiveAdSlots (page : string) (st : MemStorage) : list AdSlot.t :=
  filter (fun slot => String.eqb (AdSlot.page slot) page && truthy_flag (AdSlot.isActive slot))
    (JsMap.values (adSlots st)).

Definition createAdSlot (id : string) (now : Z) (adSlot : AdSlot.insert)
    (st : MemStorage) : AdSlot.t * MemStorage :=
  let newAdSlot :=
    AdSlot.mk id (AdSlot.i_name adSlot) (AdSlot.i_position adSlot)
      (AdSlot.i_page adSlot) (AdSlot.i_isActive adSlot)
      (AdSlot.i_adProvider adSlot) (AdSlot.i_adCode adSlot)
      (AdSlot.i_settings adSlot) now in
  (newAdSlot, set_adSlots st (JsMap.set id newAdSlot (adSlots st))).

Definition updateAdSlot (id : string) (updates : AdSlot.partial)
    (st : MemStorage) : option AdSlot.t * MemStorage :=
  match JsMap.get id (adSlots st) with
  | None => (None, st)
  | Some adSlot =>
      let updatedAdSlot :=
        AdSlot.mk (spread (AdSlot.id adSlot) (AdSlot.p_id updates))
          (spread (AdSlot.name adSlot) (AdSlot.p_name updates))
          (spread (AdSlot.position adSlot) (AdSlot.p_position updates))
          (spread (AdSlot.page adSlot) (AdSlot.p_page updates))
          (match AdSlot.p_isActive updates with
           | Some b => Some b | None => AdSlot.isActive adSlot end)
          (match AdSlot.p_adProvider updates with
           | Some v => Some v | None => AdSlot.adProvider adSlot end)
          (match AdSlot.p_adCode updates with
           | Some v => Some v | None => AdSlot.adCode adSlot end)
          (match AdSlot.p_settings updates with
           | Some v => Some v | None => AdSlot.settings adSlot end)
          (spread (AdSlot.createdAt adSlot) (AdSlot.p_createdAt updates)) in
      (Some updatedAdSlot, set_adSlots st (JsMap.set id updatedAdSlot (adSlots st)))
  end.

Definition deleteAdSlot (id : string) (st : MemStorage) : bool * MemStorage :=
  let (was, m) := JsMap.delete id (adSlots st) in
  (was, set_adSlots st m).

Definition defaultSlots : list AdSlot.insert :=
  [ AdSlot.mkInsert "Home Page Top Banner" "home-top" "home" (Some true)
      (Some "google-adsense"%string) (Some "<!-- Google AdSense code here -->"%string)
      (Some [("size", "728x90")]%string);
    AdSlot.mkInsert "PDF Tools Banner" "pdf-tools-top" "pdf-tools" (Some true)
      (Some "google-adsense"%string) (Some "<!-- Google AdSense code here -->"%string)
      (Some [("size", "728x90")]%string);
    AdSlot.mkInsert "Tool Interface Top" "tool-top" "universal-tool" (Some true)
      (Some "google-adsense"%string) (Some "<!-- Google AdSense code here -->"%string)
      (Some [("size", "728x90")]%string) ].

(** [for (const slot of defaultSlots) await this.createAdSlot(slot)], one
    identifier per slot. *)
Fixpoint createAdSlots (ids : list string) (now : Z) (slots : list AdSlot.insert)
    (st : MemStorage) : MemStorage :=
  match slots, ids with
  | slot :: slots', id :: ids' =>
      createAdSlots ids' now slots' (snd (createAdSlot id now slot st))
  | _, _ => st
  end.

Definition initializeDefaultAdSlots (ids : list string) (now : Z)
    (st : MemStorage) : MemStorage :=
  createAdSlots ids now defaultSlots st.

(** *** Analytics *)

(** One iteration of [usages.forEach(usage => ...)].  The two counters go up
    by one from zero and are bounded by the length of an array, far below
    [2^53], where [++] is exact: they are integers here.  The running total
    is a double, each [+=] rounding its result. *)
Definition accumulate (toolStatsMap : JsMap.t StatAcc) (usage : ToolUsage.t)
    : JsMap.t StatAcc :=
  let key := ToolUsage.toolName usage in
  let existing :=
    match JsMap.get key toolStatsMap with
    | Some s => s
    | None => mkAcc (ToolUsage.toolName usage) (ToolUsage.category usage) 0 0 0%Q
    end in
  let usageCount := acc_usageCount existing + 1 in
  let successCount :=
    if ToolUsage.success usage then acc_successCount existing + 1
    else acc_successCount existing in
  let totalProcessingTime :=
    match ToolUsage.processingTime usage with
    | Some t =>
        if truthy_number t
        then JsNumber.add (acc_totalProcessingTime existing) (inject_Z t)
        else acc_totalProcessingTime existing
    | None => acc_totalProcessingTime existing
    end in
  JsMap.set key
    (mkAcc (acc_name existing) (acc_category existing) usageCount successCount
       totalProcessingTime)
    toolStatsMap.

Definition stat_of_acc (stat : StatAcc) : ToolStat :=
  mkStat (acc_name stat) (acc_category stat) (acc_usageCount stat)
    (if 0 <? acc_usageCount stat
     then JsNumber.Math_round
            (JsNumber.mul
               (JsNumber.div (inject_Z (acc_successCount stat))
                  (inject_Z (acc_usageCount stat)))
               100)
     else 0)
    (if 0 <? acc_usageCount stat
     then JsNumber.Math_round
            (JsNumber.div (acc_totalProcessingTime stat)
               (inject_Z (acc_usageCount stat)))
     else 0).

Definition by_usageCount_desc (a b : ToolStat) : Z :=
  usageCount b - usageCount a.

Definition analytics_of (usages : list ToolUsage.t) : Analytics :=
  match usages with
  | [] => mkAnalytics 0 "No data" 0 "0%" []
  | _ :: _ =>
      let totalUsage := Z.of_nat (List.length usages) in
      let successfulUsages :=
        Z.of_nat (List.length (filter (fun usage => ToolUsage.success usage) usages)) in
      let successRate :=
        if 0 <? totalUsage
        then (JsNumber.toFixed1
                (JsNumber.mul
                   (JsNumber.div (inject_Z successfulUsages) (inject_Z totalUsage))
                   100) ++ "%")%string
        else "0%"%string in
      let toolStatsMap := fold_left accumulate usages JsMap.empty in
      let toolStats :=
        JsArray.sort by_usageCount_desc
          (map stat_of_acc (JsMap.values toolStatsMap)) in
      match toolStats with
      | mostPopularTool :: _ =>
          mkAnalytics totalUsage (name mostPopularTool)
            (usageCount mostPopularTool) successRate toolStats
      | [] => mkAnalytics totalUsage "No data" 0 successRate toolStats
      end
  end.

Definition getAnalytics (st : MemStorage) : Analytics :=
  analytics_of (JsMap.values (toolUsages st)).

(* ================================================================== *)
(** ** server/routes.ts: the two routes that write users *)

(** The answers of [POST /api/auth/register]. *)
Inductive RegisterResponse :=
| RegisterOk (user : User.response)          (* 200, [{ user }] *)
| RegisterConflict                           (* 409, "User already exists" *)
| RegisterInvalid.                           (* 400, the body did not parse *)

(** What [insertUserSchema.parse(req.body)] leaves after the destructuring
    [{ username, email, password }]. *)
Record RegisterBody := mkRegisterBody {
  rb_username : string;
  rb_email : string;
  rb_password : string
}.

Definition register (id salt : string) (now : Z) (body : option RegisterBody)
    (st : MemStorage) : RegisterResponse * MemStorage :=
  match body with
  | None => (RegisterInvalid, st)
  | Some body =>
      match getUserByEmail (rb_email body) st with
      | Some existingUser => (RegisterConflict, st)
      | None =>
          let (user, st') :=
            createUser id salt now
              (User.mkInsert (rb_username body) (rb_email body) (rb_password body) None)
              st in
          (RegisterOk (User.without_password user), st')
      end
  end.

(** The answers of [PATCH /api/auth/profile]. *)
Inductive ProfileResponse :=
| ProfileOk (user : User.response)
| ProfileUnauthorized                        (* 401, no [user-id] header *)
| ProfileNotFound                            (* 404 *)
| ProfileInvalid.                            (* 400 *)

(** [updateSchema] has the two optional keys [username] and [email]; zod
    drops every other key of the body. *)
Record ProfileBody := mkProfileBody {
  pb_username : option string;
  pb_email : option string
}.

Definition profile_updates (body : ProfileBody) : User.partial :=
  User.mkPartial None (pb_username body) (pb_email body) None None None None.

Definition updateProfile (userId : option string) (now : Z)
    (body : option ProfileBody) (st : MemStorage) : ProfileResponse * MemStorage :=
  match body with
  | None => (ProfileInvalid, st)
  | Some body =>
      match userId with
      | None => (ProfileUnauthorized, st)
      | Some userId =>
          if truthy_string userId then
            match updateUser userId now (profile_updates body) st with
            | (None, st') => (ProfileNotFound, st')
            | (Some updatedUser, st') =>
                (ProfileOk (User.without_password updatedUser), st')
            end
          else (ProfileUnauthorized, st)
      end
  end.

End Storage.

(* ================================================================== *)
(** ** A stand-in for bcrypt, used by the concrete examples *)

(** The salt is kept in front of the first 72 bytes of the plaintext,
    separated by ["$"]; [compare] reads them back after the first ["$"]. *)
Fixpoint after_dollar (s : string) : string :=
  match s with
  | EmptyString => EmptyString
  | String c s' => if Ascii.eqb c "$" then s' else after_dollar s'
  end.

Fixpoint no_dollar (s : string) : string :=
  match s with
  | EmptyString => EmptyString
  | String c s' => if Ascii.eqb c "$" then no_dollar s' else String c (no_dollar s')
  end.

Definition toy_bcrypt : Bcrypt := {|
  bcrypt_hash plaintext salt := (no_dollar salt ++ "$" ++ bcrypt_key plaintext)%string;
  bcrypt_compare plaintext digest := String.eqb (bcrypt_key plaintext) (after_dollar digest)
|}.

(* ================================================================== *)
(** ** Specification-side vocabulary *)

(** [Subsequence l1 l2]: [l1] is [l2] with some elements left out, the
    others in the same order. *)
Inductive Subsequence {A : Type} : list A -> list A -> Prop :=
| sub_nil : Subsequence [] []
| sub_keep x l1 l2 : Subsequence l1 l2 -> Subsequence (x :: l1) (x :: l2)
| sub_drop x l1 l2 : Subsequence l1 l2 -> Subsequence l1 (x :: l2).

(** A record passes a filter object when it agrees with every field of it
    that is truthy. *)
Definition passes (fs : ToolUsage.filters) (u : ToolUsage.t) : Prop :=
  (forall n, ToolUsage.f_toolName fs = Some n -> n <> ""%string ->
             ToolUsage.toolName u = n) /\
  (forall c, ToolUsage.f_category fs = Some c -> c <> ""%string ->
             ToolUsage.category u = c) /\
  (forall d, ToolUsage.f_dateFrom fs = Some d -> d <= ToolUsage.timestamp u) /\
  (forall d, ToolUsage.f_dateTo fs = Some d -> ToolUsage.timestamp u <= d).

Definition passesb (fs : ToolUsage.filters) (u : ToolUsage.t) : bool :=
  match ToolUsage.f_toolName fs with
  | Some n => String.eqb n "" || String.eqb (ToolUsage.toolName u) n
  | None => true
  end &&
  match ToolUsage.f_category fs with
  | Some c => String.eqb c "" || String.eqb (ToolUsage.category u) c
  | None => true
  end &&
  match ToolUsage.f_dateFrom fs with
  | Some d => d <=? ToolUsage.timestamp u
  | None => true
  end &&
  match ToolUsage.f_dateTo fs with
  | Some d => ToolUsage.timestamp u <=? d
  | None => true
  end.

(** The reading of the filter contract in which every supplied field
    constrains the result, the empty string included. *)
Definition passes_every_supplied (fs : ToolUsage.filters) (u : ToolUsage.t) : Prop :=
  (forall n, ToolUsage.f_toolName fs = Some n -> ToolUsage.toolName u = n) /\
  (forall c, ToolUsage.f_category fs = Some c -> ToolUsage.category u = c) /\
  (forall d, ToolUsage.f_dateFrom fs = Some d -> d <= ToolUsage.timestamp u) /\
  (forall d, ToolUsage.f_dateTo fs = Some d -> ToolUsage.timestamp u <= d).

(** The events of one tool, and the three quantities the per-tool
    statistics are about. *)
Definition group (X : string) (usages : list ToolUsage.t) : list ToolUsage.t :=
  filter (fun u => String.eqb (ToolUsage.toolName u) X) usages.

Definition group_size (X : string) (usages : list ToolUsage.t) : Z :=
  Z.of_nat (List.length (group X usages)).

Definition group_successes (X : string) (usages : list ToolUsage.t) : Z :=
  Z.of_nat (List.length (filter ToolUsage.success (group X usages))).

Definition time_of (u : ToolUsage.t) : Z :=
  match ToolUsage.processingTime u with Some t => t | None => 0 end.

Definition has_time (u : ToolUsage.t) : bool :=
  match ToolUsage.processingTime u with Some _ => true | None => false end.

Fixpoint sum_times (usages : list ToolUsage.t) : Z :=
  match usages with
  | [] => 0
  | u :: l => time_of u + sum_times l
  end.

Fixpoint sum_abs_times (usages : list ToolUsage.t) : Z :=
  match usages with
  | [] => 0
  | u :: l => Z.abs (time_of u) + sum_abs_times l
  end.

(** Sum of the processing times of the events of [X] that carry one. *)
Definition group_time (X : string) (usages : list ToolUsage.t) : Z :=
  sum_times (filter has_time (group X usages)).

(** Number of the events of [X] that carry a processing time. *)
Definition group_timed (X : string) (usages : list ToolUsage.t) : Z :=
  Z.of_nat (List.length (filter has_time (group X usages))).

(** Rounding of the exact quotient [a / b] to the nearest integer, a tie
    going up ([0 < b]). *)
Definition round_quotient (a b : Z) : Z := (2 * a + b) / (2 * b).

(** Position of the first event of tool [X]. *)
Fixpoint first_seen (X : string) (usages : list ToolUsage.t) : nat :=
  match usages with
  | [] => O
  | u :: l => if String.eqb (ToolUsage.toolName u) X then O else S (first_seen X l)
  end.

(** The order of [toolStats]: more used first, and among equally used tools
    the one seen first. *)
Definition stats_order (usages : list ToolUsage.t) (a b : ToolStat) : Prop :=
  usageCount b < usageCount a \/
  (usageCount a = usageCount b /\
   (first_seen (name a) usages < first_seen (name b) usages)%nat).

(** The distinct tool names, in the order of their first event. *)
Fixpoint first_tools (usages : list ToolUsage.t) : list string :=
  match usages with
  | [] => []
  | u :: l =>
      ToolUsage.toolName u ::
      filter (fun X => negb (String.eqb X (ToolUsage.toolName u))) (first_tools l)
  end.

(** The running total of [getAnalytics], one double addition per event that
    has a truthy processing time. *)
Definition add_time (total : Q) (u : ToolUsage.t) : Q :=
  match ToolUsage.processingTime u with
  | Some t => if truthy_number t then JsNumber.add total (inject_Z t) else total
  | None => total
  end.

Definition total_time (usages : list ToolUsage.t) : Q := fold_left add_time usages 0%Q.

Definition group_category (X : string) (usages : list ToolUsage.t) : string :=
  match group X usages with
  | u :: _ => ToolUsage.category u
  | [] => ""%string
  end.

(** What the accumulator map holds for tool [X] once all events are seen. *)
Definition group_acc (usages : list ToolUsage.t) (X : string) : StatAcc :=
  mkAcc X (group_category X usages) (group_size X usages)
    (group_successes X usages) (total_time (group X usages)).

(* ================================================================== *)
(** ** Concrete stores used by the examples *)

Definition usage_x : ToolUsage.t :=
  ToolUsage.mk "u1" "pdf-to-word" "pdf" None None 1000 None None true.

Definition store_x : MemStorage :=
  mkStorage JsMap.empty (JsMap.set "u1" usage_x JsMap.empty) JsMap.empty.

(** A store whose tool-usage log is the given list of inputs, recorded one
    after the other with identifiers [e0], [e1], ... at times [0], [1], ... *)
Definition record_all (inputs : list ToolUsage.insert) : MemStorage :=
  fold_left
    (fun st '(i, input) =>
       snd (createToolUsage ("e" ++ JsNumber.digits (Z.of_nat i)) (Z.of_nat i) input st))
    (combine (seq 0 (List.length inputs)) inputs)
    new_maps.

Definition usage_input (tool : string) (ok : bool) (time : option Z) : ToolUsage.insert :=
  ToolUsage.mkInsert tool "pdf" None None time None ok.

(** The example scenario: three timed successes and one untimed failure of
    ["pdf-to-word"], one timed success of ["merge-pdf"]. *)
Definition scenario_store : MemStorage :=
  record_all
    [ usage_input "pdf-to-word" true (Some 100);
      usage_input "pdf-to-word" true (Some 100);
      usage_input "pdf-to-word" true (Some 100);
      usage_input "pdf-to-word" false None;
      usage_input "merge-pdf" true (Some 200) ].

(** Forty events of one tool, twenty-three of them successful. *)
Definition rate_store : MemStorage :=
  record_all
    (repeat (usage_input "resize" true None) 23 ++
     repeat (usage_input "resize" false None) 17).


(* ================================================================== *)
(** ** server/routes.ts: the other routes over the store *)

(** An answer of a route: [res.json(body)], or [res.status(s).json({ message })]. *)
Inductive Reply (A : Type) : Type :=
| Json (body : A)
| Failure (status : Z) (message : string).
Arguments Json {A} body.
Arguments Failure {A} status message.

(** A request body with the two strings [email] and [password]. *)
Record LoginBody := mkLoginBody {
  lb_email : string;
  lb_password : string
}.

(** The validation library: [z.string().email()] is taken as given. *)
Class Zod := {
  zod_email : string -> bool
}.

(** [req.headers['user-role'] !== 'admin'], negated. *)
Definition is_admin (userRole : option string) : bool :=
  match userRole with
  | Some r => String.eqb r "admin"
  | None => false
  end.

Section Routes.
Context {B : Bcrypt} {V : Zod}.

(** [loginSchema.parse(req.body)], with
    [email: z.string().email()] and [password: z.string().min(1)];
    [None] stands for the exception, and for a body that does not hold the
    two strings.  (A password has at least one code unit exactly when it
    has at least one byte.) *)
Definition loginSchema_parse (body : option LoginBody) : option LoginBody :=
  match body with
  | None => None
  | Some body =>
      if zod_email (lb_email body) && (1 <=? String.length (lb_password body))%nat
      then Some body else None
  end.

(** [POST /api/auth/login] *)
Definition login (body : option LoginBody) (st : MemStorage) : Reply User.response :=
  match loginSchema_parse body with
  | None => Failure 400 "Invalid login data"
  | Some body =>
      match authenticateUser (lb_email body) (lb_password body) st with
      | None => Failure 401 "Invalid credentials"
      | Some user => Json (User.without_password user)
      end
  end.

(** [POST /api/auth/register] takes two turns of the event loop.  The first
    parses the body and looks the email up; [createUser] then awaits
    [bcrypt.hash], and the user is written in a later turn, to the store as
    the requests served in between have left it.  [register] is the request
    served with nothing in between. *)
Definition register_check (body : option RegisterBody) (st : MemStorage)
    : RegisterResponse + RegisterBody :=
  match body with
  | None => inl RegisterInvalid
  | Some body =>
      match getUserByEmail (rb_email body) st with
      | Some existingUser => inl RegisterConflict
      | None => inr body
      end
  end.

Definition register_store (id salt : string) (now : Z) (body : RegisterBody)
    (st : MemStorage) : RegisterResponse * MemStorage :=
  let (user, st') :=
    createUser id salt now
      (User.mkInsert (rb_username body) (rb_email body) (rb_password body) None)
      st in
  (RegisterOk (User.without_password user), st').

(** [POST /api/analytics/tool-usage] *)
Definition postToolUsage (id : string) (now : Z) (body : option ToolUsage.insert)
    (st : MemStorage) : Reply ToolUsage.t * MemStorage :=
  match body with
  | None => (Failure 400 "Invalid usage data", st)
  | Some usage =>
      let (savedUsage, st') := createToolUsage id now usage st in
      (Json savedUsage, st')
  end.

(** [GET /api/admin/analytics] *)
Definition adminAnalytics (userRole : option string) (st : MemStorage) : Reply Analytics :=
  if is_admin userRole then Json (getAnalytics st)
  else Failure 403 "Admin access required".

(** [GET /api/admin/ad-slots] *)
Definition adminListAdSlots (userRole : option string) (st : MemStorage)
    : Reply (list AdSlot.t) :=
  if is_admin userRole then Json (getAdSlots st)
  else Failure 403 "Admin access required".

(** [POST /api/admin/ad-slots]: the role is checked before the body is parsed. *)
Definition adminCreateAdSlot (userRole : option string) (id : string) (now : Z)
    (body : option AdSlot.insert) (st : MemStorage) : Reply AdSlot.t * MemStorage :=
  if is_admin userRole then
    match body with
    | None => (Failure 400 "Invalid ad slot data", st)
    | Some adSlot =>
        let (savedAdSlot, st') := createAdSlot id now adSlot st in
        (Json savedAdSlot, st')
    end
  else (Failure 403 "Admin access required", st).

(** [PATCH /api/admin/ad-slots/:id]: the body goes to [updateAdSlot] as it is. *)
Definition adminUpdateAdSlot (userRole : option string) (id : string)
    (updates : AdSlot.partial) (st : MemStorage) : Reply AdSlot.t * MemStorage :=
  if is_admin userRole then
    match updateAdSlot id updates st with
    | (None, st') => (Failure 404 "Ad slot not found", st')
    | (Some updatedAdSlot, st') => (Json updatedAdSlot, st')
    end
  else (Failure 403 "Admin access required", st).

(** [DELETE /api/admin/ad-slots/:id] *)
Definition adminDeleteAdSlot (userRole : option string) (id : string)
    (st : MemStorage) : Reply string * MemStorage :=
  if is_admin userRole then
    let (deleted, st') := deleteAdSlot id st in
    if deleted then (Json "Ad slot deleted successfully"%string, st')
    else (Failure 404 "Ad slot not found", st')
  else (Failure 403 "Admin access required", st).

(** [GET /api/ad-slots/:page], the public listing. *)
Definition publicAdSlots (page : string) (st : MemStorage) : Reply (list AdSlot.t) :=
  Json (getActiveAdSlots page st).

End Routes.

(* ================================================================== *)
(** ** client/src/hooks/useAdManagement.ts: the two lookups over the fetched slots *)

(** [getAdSlot(position, page)] *)
Definition getAdSlot (adSlots : list AdSlot.t) (position page : string) : option AdSlot.t :=
  find (fun slot =>
          String.eqb (AdSlot.position slot) position &&
          String.eqb (AdSlot.page slot) page &&
          truthy_flag (AdSlot.isActive slot))
       adSlots.

(** [getPageAdSlots(page)] *)
Definition getPageAdSlots (adSlots : list AdSlot.t) (page : string) : list AdSlot.t :=
  filter (fun slot => String.eqb (AdSlot.page slot) page && truthy_flag (AdSlot.isActive slot))
    adSlots.

(* ================================================================== *)
(** ** More specification-side vocabulary *)

(** A [Map] holds one entry per key. *)
Definition unique_keys {V : Type} (m : JsMap.t V) : Prop := NoDup (JsMap.keys m).

(** No two stored users share an email. *)
Definition unique_emails (st : MemStorage) : Prop :=
  NoDup (map User.email (JsMap.values (users st))).

(** Every stored user carries the identifier it is stored under. *)
Definition keyed_by_id (st : MemStorage) : Prop :=
  forall k u, JsMap.get k (users st) = Some u -> User.id u = k.

Fixpoint total_usageCount (stats : list ToolStat) : Z :=
  match stats with
  | [] => 0
  | s :: l => usageCount s + total_usageCount l
  end.

(* ================================================================== *)
(** ** client/src/lib/seo.ts: the two checks of [seoUtils] over lengths *)

Module SEO.

(** [SEOMetadata], the string fields ([structuredData] is not read by
    [validateSEO]).  [None] is an absent field. *)
Record metadata := mkMetadata {
  title : option string;
  description : option string;
  keywords : option string;
  ogTitle : option string;
  ogDescription : option string;
  ogImage : option string;
  ogUrl : option string;
  twitterTitle : option string;
  twitterDescription : option string;
  twitterImage : option string;
  canonical : option string;
  robots : option string
}.

Inductive severity := error | warning.

Record issue := mkIssue {
  field : string;
  message : string;
  level : severity        (* the field [severity] *)
}.

(** The title and the description are checked the same way: required, then
    a lower and an upper bound on the length. *)
Definition check_length (value : option string) (low high : nat)
    (missing short long : issue) : list issue :=
  if is_some_truthy value then
    match value with
    | Some v =>
        if (String.length v <? low)%nat then [short]
        else if (high <? String.length v)%nat then [long]
        else []
    | None => []
    end
  else [missing].

Definition recommend (value : option string) (missing : issue) : list issue :=
  if is_some_truthy value then [] else [missing].

Definition validateSEO (m : metadata) : list issue :=
  check_length (title m) 30 60
    (mkIssue "title" "Title is required" error)
    (mkIssue "title" "Title should be at least 30 characters" warning)
    (mkIssue "title" "Title should be less than 60 characters" warning) ++
  check_length (description m) 120 160
    (mkIssue "description" "Meta description is required" error)
    (mkIssue "description" "Meta description should be at least 120 characters" warning)
    (mkIssue "description" "Meta description should be less than 160 characters" warning) ++
  recommend (ogTitle m)
    (mkIssue "ogTitle" "Open Graph title is recommended" warning) ++
  recommend (ogDescription m)
    (mkIssue "ogDescription" "Open Graph description is recommended" warning) ++
  recommend (ogImage m)
    (mkIssue "ogImage" "Open Graph image is recommended" warning).

(** [s.lastIndexOf(c)] on the code units of [s], counted from [i]:
    the index of the last [c], or [-1]. *)
Fixpoint lastIndexOf_from (i : Z) (c : ascii) (s : list ascii) : Z :=
  match s with
  | [] => -1
  | x :: s' =>
      let later := lastIndexOf_from (i + 1) c s' in
      if 0 <=? later then later
      else if Ascii.eqb x c then i else -1
  end.

Definition lastIndexOf (c : ascii) (s : list ascii) : Z := lastIndexOf_from 0 c s.

(** [s.substring(0, n)]: a negative [n] counts as 0, an [n] past the end as
    the length. *)
Definition substring0 (s : list ascii) (n : Z) : list ascii := firstn (Z.to_nat n) s.

Definition dots : list ascii := ["."; "."; "."]%char.

(** [generateMetaDescription(content, maxLength)], a string being the list
    of its code units. *)
Definition generateMetaDescription (content : list ascii) (maxLength : Z) : list ascii :=
  if Z.of_nat (List.length content) <=? maxLength then content
  else
    let truncated := substring0 content maxLength in
    let lastSpace := lastIndexOf " " truncated in
    if 0 <? lastSpace
    then substring0 truncated lastSpace ++ dots
    else truncated ++ dots.

End SEO.

(** [a] stands somewhere before [b] in the list. *)
Definition listed_before {A : Type} (l : list A) (a b : A) : Prop :=
  exists l1 l2 l3, l = l1 ++ a :: l2 ++ b :: l3.

(** A stand-in for the email check of the validation library, used by the
    concrete examples: an address holds an ["@"]. *)
Fixpoint has_at (s : string) : bool :=
  match s with
  | EmptyString => false
  | String c s' => Ascii.eqb c "@" || has_at s'
  end.

Definition toy_zod : Zod := {| zod_email := has_at |}.
(* ================================================================== *)
(** ** Facts about maps *)

Module JsMapFacts.
Section Facts.
Context {V : Type}.
Implicit Types (m : JsMap.t V) (k : string) (v : V).

Lemma get_set_same k v m : JsMap.get k (JsMap.set k v m) = Some v.
Proof.
  induction m as [|[k' v'] m IH]; simpl.
  - now rewrite String.eqb_refl.
  - destruct (String.eqb k k') eqn:E; simpl.
    + now rewrite String.eqb_refl.
    + now rewrite E.
Qed.

Lemma get_set_other k k' v m :
  k' <> k -> JsMap.get k' (JsMap.set k v m) = JsMap.get k' m.
Proof.
  intros Hne. induction m as [|[k0 v0] m IH]; simpl.
  - destruct (String.eqb k' k) eqn:E; [apply String.eqb_eq in E; contradiction | reflexivity].
  - destruct (String.eqb k k0) eqn:E; simpl.
    + apply String.eqb_eq in E. subst k0.
      destruct (String.eqb k' k) eqn:E'; [apply String.eqb_eq in E'; contradiction | reflexivity].
    + now rewrite IH.
Qed.

Lemma get_In k v m : JsMap.get k m = Some v -> In v (JsMap.values m).
Proof.
  induction m as [|[k' v'] m IH]; simpl; [discriminate|].
  destruct (String.eqb k k'); intros H.
  - injection H as ->. now left.
  - right. now apply IH.
Qed.

(** A key that is absent is appended. *)
Lemma set_fresh k v m :
  JsMap.get k m = None -> JsMap.set k v m = m ++ [(k, v)].
Proof.
  induction m as [|[k' v'] m IH]; simpl; [reflexivity|].
  destruct (String.eqb k k'); [discriminate|].
  intros H. now rewrite IH.
Qed.

End Facts.
End JsMapFacts.

(* ================================================================== *)
(** ** Facts about the stable sort *)

Module JsArrayFacts.
Section Facts.
Context {A : Type}.
Variable key : A -> Z.

#[local] Abbreviation desc := (JsArray.desc key).

Lemma insert_perm (x : A) l : Permutation (JsArray.insert desc x l) (x :: l).
Proof.
  induction l as [|y l IH]; simpl; [reflexivity|].
  destruct (desc x y <=? 0); [reflexivity|].
  rewrite IH. apply perm_swap.
Qed.

Lemma sort_perm l : Permutation (JsArray.sort desc l) l.
Proof.
  induction l as [|x l IH]; simpl; [reflexivity|].
  unfold JsArray.sort in *. rewrite insert_perm. now constructor.
Qed.

Lemma sort_In l x : In x (JsArray.sort desc l) <-> In x l.
Proof.
  split; apply Permutation_in; [apply sort_perm | symmetry; apply sort_perm].
Qed.

Variable before : A -> A -> Prop.

#[local] Abbreviation stable_order := (JsArray.stable_order key before).

Lemma insert_Forall (P : A -> Prop) x l :
  P x -> Forall P l -> Forall P (JsArray.insert desc x l).
Proof.
  intros Hx Hl. eapply Permutation_Forall.
  - symmetry. apply insert_perm.
  - now constructor.
Qed.

Lemma stable_order_key a b : stable_order a b -> key b <= key a.
Proof. unfold stable_order. lia. Qed.

Lemma insert_sorted x l :
  Forall (before x) l ->
  StronglySorted stable_order l ->
  StronglySorted stable_order (JsArray.insert desc x l).
Proof.
  intros Hx Hs. induction Hs as [|y l Hs IH Hy]; simpl.
  - repeat constructor.
  - inversion Hx as [|? ? Hxy Hxl]; subst.
    unfold desc at 1. destruct (key y - key x <=? 0) eqn:E.
    + apply Z.leb_le in E. constructor; [now constructor|].
      constructor.
      * unfold stable_order. destruct (Z.eq_dec (key x) (key y)); [right; now split | left; lia].
      * rewrite Forall_forall in Hy, Hxl |- *. intros z Hz.
        specialize (Hy z Hz). specialize (Hxl z Hz).
        apply stable_order_key in Hy.
        unfold stable_order.
        destruct (Z.eq_dec (key x) (key z)); [right; now split | left; lia].
    + apply Z.leb_gt in E. constructor; [now apply IH|].
      apply insert_Forall; [|assumption].
      unfold stable_order. left. lia.
Qed.

(** A list that comes in the order [before] leaves the sort in
    [stable_order]. *)
Lemma sort_stable l :
  StronglySorted before l -> StronglySorted stable_order (JsArray.sort desc l).
Proof.
  induction 1 as [|x l Hs IH Hx]; simpl; [constructor|].
  apply insert_sorted; [|exact IH].
  eapply Permutation_Forall; [symmetry; apply sort_perm | exact Hx].
Qed.

End Facts.

(** With no information on the incoming order the result is still sorted by
    decreasing key. *)
Lemma sort_desc {A : Type} (key : A -> Z) (l : list A) :
  StronglySorted (fun a b => key b <= key a) (JsArray.sort (JsArray.desc key) l).
Proof.
  assert (H : StronglySorted (fun _ _ : A => True) l).
  { induction l; constructor; auto. rewrite Forall_forall. auto. }
  apply (sort_stable key) in H.
  induction H as [|x s Hs IH Hx]; constructor; auto.
  rewrite Forall_forall in Hx |- *. intros y Hy.
  eapply stable_order_key, Hx, Hy.
Qed.

End JsArrayFacts.

(** A list has at most one arrangement that is strongly sorted for an
    asymmetric relation. *)
Lemma sorted_perm_unique {A : Type} (R : A -> A -> Prop) (l1 l2 : list A) :
  (forall x y, R x y -> R y x -> False) ->
  StronglySorted R l1 -> StronglySorted R l2 -> Permutation l1 l2 -> l1 = l2.
Proof.
  intros Hasym H1. revert l2.
  induction H1 as [|x l1 Hs1 IH Hx]; intros l2 H2 Hp.
  - now apply Permutation_nil in Hp.
  - destruct H2 as [|y l2 Hs2 Hy].
    + symmetry in Hp. now apply Permutation_nil in Hp.
    + assert (Exy : x = y).
      { assert (Hxin : In x (y :: l2)) by (eapply Permutation_in; [exact Hp | now left]).
        assert (Hyin : In y (x :: l1))
          by (eapply Permutation_in; [symmetry; exact Hp | now left]).
        destruct Hxin as [E|Hxin]; [now symmetry|].
        destruct Hyin as [E|Hyin]; [exact E|].
        rewrite Forall_forall in Hx, Hy.
        exfalso. exact (Hasym x y (Hx y Hyin) (Hy x Hxin)). }
      subst y. f_equal. apply IH; [exact Hs2|].
      eapply Permutation_cons_inv, Hp.
Qed.

(** So the stable sort is determined by its specification: whatever
    algorithm the engine runs, a stable sort of a list that comes in the
    order [before] returns what the insertion sort returns. *)
Lemma stable_sort_unique {A : Type} (key : A -> Z) (before : A -> A -> Prop)
    (l sorted : list A) :
  (forall x y, before x y -> before y x -> False) ->
  StronglySorted before l ->
  Permutation sorted l ->
  StronglySorted (JsArray.stable_order key before) sorted ->
  sorted = JsArray.sort (JsArray.desc key) l.
Proof.
  intros Hasym Hl Hp Hs.
  apply (sorted_perm_unique (JsArray.stable_order key before)).
  - unfold JsArray.stable_order. intros x y [H1|[E1 B1]] [H2|[E2 B2]]; try lia.
    exact (Hasym x y B1 B2).
  - exact Hs.
  - now apply JsArrayFacts.sort_stable.
  - rewrite Hp. symmetry. apply JsArrayFacts.sort_perm.
Qed.

Lemma filter_Subsequence {A : Type} (f : A -> bool) (l : list A) :
  Subsequence (filter f l) l.
Proof.
  induction l as [|x l IH]; simpl; [constructor|].
  destruct (f x); now constructor.
Qed.


(* ================================================================== *)
(** ** Facts about double arithmetic *)

Module JsNumberFacts.
Import JsNumber.

Lemma rne_div_bound a b :
  0 <= a -> 0 < b -> 2 * Z.abs (rne_div a b * b - a) <= b.
Proof.
  intros Ha Hb. unfold rne_div.
  pose proof (Z.div_mod a b ltac:(lia)) as Hdm.
  pose proof (Z.mod_pos_bound a b Hb) as Hr.
  destruct (2 * (a mod b) <? b) eqn:E1; [apply Z.ltb_lt in E1; nia|].
  apply Z.ltb_ge in E1.
  destruct (b <? 2 * (a mod b)) eqn:E2; [apply Z.ltb_lt in E2; nia|].
  apply Z.ltb_ge in E2.
  destruct (Z.even (a / b)); nia.
Qed.

Lemma rne_div_exact c b : 0 < b -> rne_div (c * b) b = c.
Proof.
  intros Hb. unfold rne_div.
  rewrite Z.mod_mul, Z.div_mul by lia.
  replace (2 * 0 <? b) with true by (symmetry; apply Z.ltb_lt; lia).
  reflexivity.
Qed.

Lemma pow2_pos e : (0 < pow2 e)%Q.
Proof. apply Qpower_0_lt. reflexivity. Qed.

Lemma pow2_add a b : (pow2 (a + b) == pow2 a * pow2 b)%Q.
Proof. apply Qpower_plus. discriminate. Qed.

Lemma pow2_Z n : 0 <= n -> (inject_Z (2 ^ n) == pow2 n)%Q.
Proof. intros. now rewrite Zpower_Qpower. Qed.

Lemma pow2_le a b : a <= b -> (pow2 a <= pow2 b)%Q.
Proof. intros. apply Qpower_le_compat_l; [assumption | discriminate]. Qed.

Lemma pow2_lt_inv a b : (pow2 a < pow2 b)%Q -> a < b.
Proof. intros. eapply Qpower_lt_compat_l_inv; [eassumption | reflexivity]. Qed.

Lemma pow2_inv e : (pow2 e * pow2 (- e) == 1)%Q.
Proof. rewrite <- pow2_add. now replace (e + - e) with 0 by lia. Qed.

Lemma ilog2_spec p q :
  0 < p -> 0 < q ->
  (pow2 (ilog2 p q) * inject_Z q <= inject_Z p)%Q /\
  (inject_Z p < pow2 (ilog2 p q + 1) * inject_Z q)%Q.
Proof.
  intros Hp Hq. unfold ilog2.
  set (lp := Z.log2 p). set (lq := Z.log2 q). set (d := lp - lq).
  destruct (Z.log2_spec p Hp) as [Hp1 Hp2].
  destruct (Z.log2_spec q Hq) as [Hq1 Hq2].
  fold lp in Hp1, Hp2. fold lq in Hq1, Hq2.
  pose proof (Z.log2_nonneg p) as Hlp. pose proof (Z.log2_nonneg q) as Hlq.
  fold lp in Hlp. fold lq in Hlq.
  unfold Z.succ in *.
  assert (HP1 : (pow2 lp <= inject_Z p)%Q).
  { rewrite <- pow2_Z by lia. now rewrite <- Zle_Qle. }
  assert (HP2 : (inject_Z p < pow2 (lp + 1))%Q).
  { rewrite <- pow2_Z by lia. now rewrite <- Zlt_Qlt. }
  assert (HQ1 : (pow2 lq <= inject_Z q)%Q).
  { rewrite <- pow2_Z by lia. now rewrite <- Zle_Qle. }
  assert (HQ2 : (inject_Z q < pow2 (lq + 1))%Q).
  { rewrite <- pow2_Z by lia. now rewrite <- Zlt_Qlt. }
  assert (Hq0 : (0 < inject_Z q)%Q) by (rewrite Zlt_Qlt in Hq; exact Hq).
  assert (Hp0 : (0 < inject_Z p)%Q) by (rewrite Zlt_Qlt in Hp; exact Hp).
  (* the test, read in Q *)
  assert (Htest : q * 2 ^ Z.max 0 d <= p * 2 ^ Z.max 0 (- d) <->
                  (pow2 d * inject_Z q <= inject_Z p)%Q).
  { rewrite Zle_Qle, !inject_Z_mult, !pow2_Z by lia.
    pose proof (pow2_pos d) as Hd. pose proof (pow2_pos (- d)) as Hd'.
    pose proof (pow2_inv d) as Hinv.
    destruct (Z_le_gt_dec 0 d) as [Hd0|Hd0].
    - rewrite Z.max_r, Z.max_l by lia. change (pow2 0) with 1%Q.
      split; intros; nra.
    - rewrite Z.max_l, Z.max_r by lia. change (pow2 0) with 1%Q.
      split; intros H.
      + assert (H' : (pow2 d * (inject_Z q * 1) <= pow2 d * (inject_Z p * pow2 (- d)))%Q)
          by (apply Qmult_le_l; assumption).
        nra.
      + assert (H' : (pow2 (- d) * (pow2 d * inject_Z q) <= pow2 (- d) * inject_Z p)%Q)
          by (apply Qmult_le_l; assumption).
        nra. }
  assert (Hlq1 : (pow2 (lq + 1) == 2 * pow2 lq)%Q).
  { rewrite pow2_add. change (pow2 1) with 2%Q. ring. }
  assert (Hlp1 : (pow2 (lp + 1) == 2 * pow2 lp)%Q).
  { rewrite pow2_add. change (pow2 1) with 2%Q. ring. }
  assert (Hd1 : (pow2 (d + 1) == 2 * pow2 d)%Q).
  { rewrite pow2_add. change (pow2 1) with 2%Q. ring. }
  assert (Hdd : (pow2 lp == pow2 d * pow2 lq)%Q).
  { rewrite <- pow2_add. now replace (d + lq) with lp by (unfold d; lia). }
  pose proof (pow2_pos d) as Hd. pose proof (pow2_pos lq) as Hplq.
  pose proof (pow2_pos lp) as Hplp.
  destruct (q * 2 ^ Z.max 0 d <=? p * 2 ^ Z.max 0 (- d)) eqn:E.
  - apply Z.leb_le, Htest in E. split; [exact E|].
    rewrite Hd1. 
    (* p < 2 lp = 2 d lq <= 2 d q *)
    assert (pow2 d * pow2 lq <= pow2 d * inject_Z q)%Q by (apply Qmult_le_l; assumption).
    nra.
  - apply Z.leb_gt in E.
    assert (E' : ~ (pow2 d * inject_Z q <= inject_Z p)%Q) by (rewrite <- Htest; lia).
    apply Qnot_le_lt in E'.
    replace (d - 1 + 1) with d by lia.
    split; [|exact E'].
    assert (Hdm : (pow2 d == 2 * pow2 (d - 1))%Q).
    { replace d with ((d - 1) + 1) at 1 by lia. rewrite pow2_add. change (pow2 1) with 2%Q. ring. }
    pose proof (pow2_pos (d - 1)) as Hdm0.
    assert (pow2 (d - 1) * inject_Z q <= pow2 (d - 1) * pow2 (lq + 1))%Q
      by (apply Qmult_le_l; [assumption | apply Qlt_le_weak; assumption]).
    nra.
Qed.

Ltac push_inj H :=
  unfold Z.sub in H;
  repeat first [ rewrite inject_Z_plus in H
               | rewrite inject_Z_mult in H | rewrite inject_Z_opp in H ].

Lemma Qabs_num_den x : (Qabs x * inject_Z (QDen x) == inject_Z (Z.abs (Qnum x)))%Q.
Proof.
  destruct x as [n d]. simpl. unfold Qeq; simpl. rewrite Pos.mul_1_r. ring.
Qed.

Lemma Q_sgn_abs x : (x == inject_Z (Z.sgn (Qnum x)) * Qabs x)%Q.
Proof.
  destruct x as [n d]. unfold Qeq; simpl.
  destruct n; simpl; reflexivity.
Qed.

Lemma max_split e : Z.max 0 e = Z.max 0 (- e) + e.
Proof. lia. Qed.

Lemma fl_decomp x :
  Qnum x <> 0 ->
  let p := Z.abs (Qnum x) in
  let q := QDen x in
  let e := Z.max (ilog2 p q - 52) (-1074) in
  let m := rne_div (p * 2 ^ Z.max 0 (- e)) (q * 2 ^ Z.max 0 e) in
  (fl x == inject_Z (Z.sgn (Qnum x)) * (inject_Z m * pow2 e))%Q /\
  (Qabs (inject_Z m * pow2 e - Qabs x) <= pow2 e * (1 # 2))%Q.
Proof.
  intros Hx p q e m.
  assert (Hp : 0 < p) by (unfold p; lia).
  assert (Hq : 0 < q) by (unfold q; lia).
  split.
  - unfold fl. fold p. fold q.
    replace (p =? 0) with false by (symmetry; apply Z.eqb_neq; lia).
    fold e. fold m. rewrite Qred_correct, inject_Z_mult. ring.
  - set (u := pow2 (Z.max 0 (- e))). set (v := pow2 (Z.max 0 e)). set (w := pow2 e).
    assert (Hu : (0 < u)%Q) by apply pow2_pos.
    assert (Hv : (0 < v)%Q) by apply pow2_pos.
    assert (Hw : (0 < w)%Q) by apply pow2_pos.
    assert (Hvuw : (v == u * w)%Q).
    { unfold v, u, w. rewrite <- pow2_add. now rewrite <- max_split. }
    pose proof (Qabs_num_den x) as HX. fold p in HX. fold q in HX.
    set (X := Qabs x) in *.
    assert (Hq0 : (0 < inject_Z q)%Q) by (rewrite Zlt_Qlt in Hq; exact Hq).
    pose proof (rne_div_bound (p * 2 ^ Z.max 0 (- e)) (q * 2 ^ Z.max 0 e)
                  ltac:(apply Z.mul_nonneg_nonneg; [lia | apply Z.pow_nonneg; lia])
                  ltac:(apply Z.mul_pos_pos; [lia | apply Z.pow_pos_nonneg; lia])) as Hb.
    fold m in Hb.
    apply Z.abs_le with (m := 1) in Hb || idtac.
    assert (Hb1 : 2 * (m * (q * 2 ^ Z.max 0 e) - p * 2 ^ Z.max 0 (- e)) <= q * 2 ^ Z.max 0 e) by lia.
    assert (Hb2 : - (q * 2 ^ Z.max 0 e) <= 2 * (m * (q * 2 ^ Z.max 0 e) - p * 2 ^ Z.max 0 (- e))) by lia.
    rewrite Zle_Qle in Hb1, Hb2.
    push_inj Hb1. push_inj Hb2. rewrite !pow2_Z in Hb1, Hb2 by lia.
    fold u in Hb1, Hb2. fold v in Hb1, Hb2.
    set (D := inject_Z q) in *. set (P := inject_Z p) in *. set (M := inject_Z m) in *.
    change (inject_Z 2) with 2%Q in *.
    (* divide by D u *)
    assert (HDu : (0 < D * u)%Q) by nra.
    assert (E1 : (M * (D * v) == (D * u) * (M * w))%Q) by (rewrite Hvuw; ring).
    assert (E2 : (P * u == (D * u) * X)%Q) by (rewrite <- HX; ring).
    assert (E3 : (D * v == (D * u) * w)%Q) by (rewrite Hvuw; ring).
    assert (G1 : ((D * u) * (2 * (M * w - X)) <= (D * u) * w)%Q) by lra.
    assert (G2 : ((D * u) * (- w) <= (D * u) * (2 * (M * w - X)))%Q) by lra.
    apply Qmult_le_l in G1; [|exact HDu].
    apply Qmult_le_l in G2; [|exact HDu].
    apply Qabs_Qle_condition. split; lra.
Qed.

Lemma ilog2_abs x :
  Qnum x <> 0 ->
  let d := ilog2 (Z.abs (Qnum x)) (QDen x) in
  (pow2 d <= Qabs x)%Q /\ (Qabs x < pow2 (d + 1))%Q.
Proof.
  intros Hx d.
  destruct (ilog2_spec (Z.abs (Qnum x)) (QDen x) ltac:(lia) ltac:(lia)) as [H1 H2].
  fold d in H1, H2.
  pose proof (Qabs_num_den x) as HX.
  assert (Hq0 : (0 < inject_Z (QDen x))%Q)
    by (change 0%Q with (inject_Z 0); rewrite <- Zlt_Qlt; lia).
  rewrite <- HX in H1, H2.
  split.
  - rewrite (Qmult_comm (Qabs x)) in H1. rewrite Qmult_comm in H1.
    apply Qmult_le_l in H1; assumption.
  - rewrite (Qmult_comm (Qabs x)), (Qmult_comm (pow2 (d + 1))) in H2.
    apply Qmult_lt_l in H2; assumption.
Qed.

(** Relative error of one rounding in the normal range. *)
Lemma fl_error x :
  (pow2 (-1022) <= Qabs x)%Q ->
  (Qabs (fl x - x) <= Qabs x * pow2 (-53))%Q.
Proof.
  intros Hn.
  assert (Hx : Qnum x <> 0).
  { intros H0. pose proof (pow2_pos (-1022)) as Hp.
    assert (Qabs x == 0)%Q by (destruct x as [n d]; simpl in H0; subst n; reflexivity).
    set (c := pow2 (-1022)) in *. clearbody c. lra. }
  destruct (fl_decomp x Hx) as [Hfl Herr].
  destruct (ilog2_abs x Hx) as [Hd1 Hd2].
  set (d := ilog2 (Z.abs (Qnum x)) (QDen x)) in *.
  assert (Hd : -1022 <= d).
  { assert (pow2 (-1022) < pow2 (d + 1))%Q by (eapply Qle_lt_trans; eassumption).
    apply pow2_lt_inv in H. lia. }
  rewrite !(Z.max_l (d - 52) (-1074)) in Hfl, Herr by lia.
  set (m := rne_div _ _) in *.
  set (w := pow2 (d - 52)) in *.
  assert (Hw : (w * (1 # 2) == pow2 d * pow2 (-53))%Q).
  { unfold w. replace (d - 52) with (d + (-53) + 1) by lia.
    rewrite !pow2_add. change (pow2 1) with 2%Q. ring. }
  pose proof (pow2_pos (-53)) as H53.
  set (u53 := pow2 (-53)) in *.
  assert (Hle : (w * (1 # 2) <= Qabs x * u53)%Q).
  { rewrite Hw. apply Qmult_le_compat_r; [assumption | lra]. }
  pose proof (Q_sgn_abs x) as Hsx.
  set (X := Qabs x) in *.
  apply Qabs_Qle_condition in Herr. destruct Herr as [He1 He2].
  apply Qabs_Qle_condition.
  assert (Hs : Z.sgn (Qnum x) = 1 \/ Z.sgn (Qnum x) = -1) by lia.
  destruct Hs as [Hs|Hs]; rewrite Hs in Hfl, Hsx;
    change (inject_Z 1) with 1%Q in *; change (inject_Z (-1)) with (-1 # 1)%Q in *;
    rewrite Hfl; split; lra.
Qed.

(** A number with a 53-bit significand and an exponent in range is a double:
    rounding leaves it unchanged. *)
Lemma fl_exact x M e0 :
  (x == inject_Z M * pow2 e0)%Q -> Z.abs M < 2 ^ 53 -> -1074 <= e0 ->
  (fl x == x)%Q.
Proof.
  intros Hx HM He0.
  destruct (Z.eq_dec (Qnum x) 0) as [H0|H0].
  - unfold fl. rewrite H0. simpl.
    destruct x as [n d]. simpl in H0. subst n. reflexivity.
  - destruct (fl_decomp x H0) as [Hfl _].
    destruct (ilog2_abs x H0) as [Hd1 Hd2].
    set (p := Z.abs (Qnum x)) in *. set (q := QDen x) in *.
    set (d := ilog2 p q) in *.
    set (e := Z.max (d - 52) (-1074)) in *.
    assert (HX : (Qabs x == inject_Z (Z.abs M) * pow2 e0)%Q).
    { rewrite Hx, Qabs_Qmult.
      change (Qabs (inject_Z M)) with (inject_Z (Z.abs M)).
      rewrite (Qabs_pos (pow2 e0)); [reflexivity | apply Qlt_le_weak, pow2_pos]. }
    assert (Hde : d - 52 <= e0).
    { assert (Hlt : (pow2 d < pow2 (53 + e0))%Q).
      { eapply Qle_lt_trans; [exact Hd1|]. rewrite HX, pow2_add.
        apply Qmult_lt_compat_r; [apply pow2_pos|].
        rewrite <- pow2_Z by lia. now rewrite <- Zlt_Qlt. }
      apply pow2_lt_inv in Hlt. lia. }
    assert (Hee : e <= e0) by (unfold e; lia).
    set (c := Z.abs M * 2 ^ (e0 - e)).
    assert (Hm : rne_div (p * 2 ^ Z.max 0 (- e)) (q * 2 ^ Z.max 0 e) = c).
    { assert (Hq : 0 < q) by (unfold q; lia).
      assert (Hb : 0 < q * 2 ^ Z.max 0 e)
        by (apply Z.mul_pos_pos; [lia | apply Z.pow_pos_nonneg; lia]).
      replace (p * 2 ^ Z.max 0 (- e)) with (c * (q * 2 ^ Z.max 0 e));
        [now apply rne_div_exact|].
      apply inject_Z_injective.
      unfold c. rewrite !inject_Z_mult, !pow2_Z by lia.
      pose proof (Qabs_num_den x) as HP. fold p in HP. fold q in HP.
      rewrite <- HP, HX.
      rewrite (max_split e).
      replace e0 with ((e0 - e) + e) at 2 by lia.
      rewrite !pow2_add. ring. }
    rewrite Hm in Hfl. rewrite Hfl.
    rewrite (Q_sgn_abs x) at 2. rewrite HX.
    unfold c. rewrite inject_Z_mult, pow2_Z by lia.
    replace e0 with ((e0 - e) + e) at 2 by lia.
    rewrite !pow2_add. ring.
Qed.

Lemma Qred_inject_Z z : Qred (inject_Z z) = inject_Z z.
Proof.
  apply Qcanon.Qred_identity. simpl. apply Z.gcd_1_r.
Qed.

Lemma fl_Qred x : fl x = Qred (fl x).
Proof.
  unfold fl. destruct (Z.abs (Qnum x) =? 0); [reflexivity|].
  symmetry. apply Qred_complete, Qred_correct.
Qed.

(** Integers below [2^53] in magnitude are doubles. *)
Lemma fl_integer x z :
  (x == inject_Z z)%Q -> Z.abs z < 2 ^ 53 -> fl x = inject_Z z.
Proof.
  intros Hx Hz.
  rewrite fl_Qred, <- Qred_inject_Z. apply Qred_complete.
  rewrite (fl_exact x z 0); [assumption | | assumption | lia].
  rewrite Hx. change (pow2 0) with 1%Q. ring.
Qed.

Lemma inject_Z_pos z : 0 < z -> (0 < inject_Z z)%Q.
Proof. intros H. change 0%Q with (inject_Z 0). now rewrite <- Zlt_Qlt. Qed.

Lemma Qfloor_bounds y k :
  (inject_Z k <= y)%Q -> (y < inject_Z (k + 1))%Q -> Qfloor y = k.
Proof.
  intros H1 H2.
  pose proof (Qfloor_le y) as F1. pose proof (Qlt_floor y) as F2.
  assert (A : (inject_Z k < inject_Z (Qfloor y + 1))%Q) by lra.
  assert (C : (inject_Z (Qfloor y) < inject_Z (k + 1))%Q) by lra.
  rewrite <- Zlt_Qlt in A, C. lia.
Qed.

Lemma pow2_m53 : (pow2 (-53) == 1 # 9007199254740992)%Q.
Proof. reflexivity. Qed.

Lemma pow2_m1022_le a : (1 # 9007199254740992 <= a)%Q -> (pow2 (-1022) <= a)%Q.
Proof.
  intros H. eapply Qle_trans; [|exact H].
  rewrite <- pow2_m53. apply pow2_le. lia.
Qed.

Lemma Qabs_quotient T N :
  0 < N -> (Qabs (inject_Z T / inject_Z N) * inject_Z N == inject_Z (Z.abs T))%Q.
Proof.
  intros HN. pose proof (inject_Z_pos N HN) as Hn.
  unfold Qdiv. rewrite Qabs_Qmult.
  change (Qabs (inject_Z T)) with (inject_Z (Z.abs T)).
  rewrite (Qabs_pos (/ inject_Z N)).
  - field. lra.
  - apply Qlt_le_weak, Qinv_lt_0_compat, Hn.
Qed.

(** [Math.round(T / N)] for integers: one rounded division cannot cross a
    half-integer. *)
Lemma round_div_integers T N :
  0 < N -> N <= 2 ^ 53 -> Z.abs T < 2 ^ 52 ->
  Math_round (div (inject_Z T) (inject_Z N)) = round_quotient T N.
Proof.
  intros HN HN53 HT. unfold Math_round, div, round_quotient.
  set (x := (inject_Z T / inject_Z N)%Q).
  set (k := (2 * T + N) / (2 * N)).
  pose proof (inject_Z_pos N HN) as Hn.
  assert (Hxn : (x * inject_Z N == inject_Z T)%Q) by (unfold x; field; lra).
  assert (Hk1 : 2 * N * k <= 2 * T + N)
    by (unfold k; apply Z.mul_div_le; lia).
  assert (Hk2 : 2 * T + N < 2 * N * (k + 1)).
  { unfold k. pose proof (Z.mod_pos_bound (2 * T + N) (2 * N) ltac:(lia)).
    pose proof (Z.div_mod (2 * T + N) (2 * N) ltac:(lia)). nia. }
  destruct (Z.eq_dec T 0) as [HT0|HT0].
  - subst T. assert (Hk0 : k = 0) by nia.
    rewrite (fl_integer x 0); [|unfold x; field; lra|lia].
    rewrite Hk0. reflexivity.
  - pose proof (Qabs_quotient T N HN) as Ha. fold x in Ha.
    assert (Hnorm : (pow2 (-1022) <= Qabs x)%Q).
    { apply pow2_m1022_le.
      assert (H1 : (1 <= inject_Z (Z.abs T))%Q)
        by (change 1%Q with (inject_Z 1); rewrite <- Zle_Qle; lia).
      assert (H2 : (inject_Z N <= 9007199254740992)%Q)
        by (change 9007199254740992%Q with (inject_Z (2 ^ 53)); rewrite <- Zle_Qle; lia).
      assert (H3 : (0 <= Qabs x)%Q) by apply Qabs_nonneg.
      set (a := Qabs x) in *. set (n := inject_Z N) in *.
      assert (H4 : ((1 # 9007199254740992) * n <= a * n)%Q) by lra.
      rewrite (Qmult_comm _ n), (Qmult_comm a n) in H4.
      apply Qmult_le_l in H4; assumption. }
    pose proof (fl_error x Hnorm) as Herr.
    rewrite pow2_m53 in Herr.
    apply Qabs_Qle_condition in Herr. destruct Herr as [He1 He2].
    set (F := fl x) in *. set (a := Qabs x) in *. set (n := inject_Z N) in *.
    assert (Hta : (inject_Z (Z.abs T) <= 4503599627370495)%Q)
      by (change 4503599627370495%Q with (inject_Z (2 ^ 52 - 1)); rewrite <- Zle_Qle; lia).
    assert (D1 : ((F - x) * n <= a * (1 # 9007199254740992) * n)%Q)
      by (apply Qmult_le_compat_r; lra).
    assert (D2 : (- (a * (1 # 9007199254740992)) * n <= (F - x) * n)%Q)
      by (apply Qmult_le_compat_r; lra).
    assert (E1 : ((F - x) * n == F * n - inject_Z T)%Q) by (rewrite <- Hxn; ring).
    assert (E2 : (a * (1 # 9007199254740992) * n == inject_Z (Z.abs T) * (1 # 9007199254740992))%Q)
      by (rewrite <- Ha; ring).
    assert (E3 : (- (a * (1 # 9007199254740992)) * n == - (inject_Z (Z.abs T) * (1 # 9007199254740992)))%Q)
      by (rewrite <- Ha; ring).
    apply Qfloor_bounds.
    + (* k - 1/2 <= F *)
      destruct (Z.eq_dec (2 * N * k) (2 * T + N)) as [Htie|Hno].
      * assert (Hx : (x == inject_Z (2 * k - 1) * pow2 (-1))%Q).
        { change (pow2 (-1)) with (1 # 2)%Q.
          apply (Qmult_inj_r _ _ n); [lra|]. rewrite Hxn.
          assert (Hz : 2 * T = (2 * k - 1) * N) by lia.
          apply inject_Z_injective in Hz. rewrite !inject_Z_mult in Hz.
          change (inject_Z 2) with 2%Q in Hz. fold n in Hz. lra. }
        assert (Hfx : (F == x)%Q).
        { apply (fl_exact x (2 * k - 1) (-1)); [exact Hx | nia | lia]. }
        rewrite Hfx, Hx. change (pow2 (-1)) with (1 # 2)%Q.
        unfold Z.sub. rewrite inject_Z_plus, inject_Z_mult.
        change (inject_Z 2) with 2%Q. change (inject_Z (- (1))) with (-1 # 1)%Q. lra.
      * assert (Hz : 2 * N * k + 1 <= 2 * T + N) by lia.
        rewrite Zle_Qle in Hz. push_inj Hz. fold n in Hz.
        change (inject_Z 2) with 2%Q in Hz. change (inject_Z 1) with 1%Q in Hz.
        assert (G : (n * inject_Z k <= n * (F + (1 # 2)))%Q) by lra.
        apply Qmult_le_l in G; assumption.
    + assert (Hz : 2 * T + N + 1 <= 2 * N * (k + 1)) by lia.
      rewrite Zle_Qle in Hz. push_inj Hz. fold n in Hz.
      change (inject_Z 2) with 2%Q in Hz. change (inject_Z 1) with 1%Q in Hz.
      rewrite inject_Z_plus. change (inject_Z 1) with 1%Q.
      assert (G : (n * (F + (1 # 2)) < n * (inject_Z k + 1))%Q) by lra.
      apply Qmult_lt_l in G; assumption.
Qed.

(** [Math.round((S / N) * 100)]: two roundings stay within [2^-45] of
    [100 S / N], which keeps the result a nearest integer, and the nearest
    one with ties up whenever [100 S / N] is not half-way between two
    integers. *)
Lemma round_percentage S N :
  0 <= S <= N -> 0 < N -> N < 2 ^ 32 ->
  let r := Math_round (mul (div (inject_Z S) (inject_Z N)) 100) in
  2 * Z.abs (r * N - 100 * S) <= N /\
  ((200 * S) mod (2 * N) <> N -> r = round_quotient (100 * S) N).
Proof.
  intros HS HN HN32 r.
  set (k := round_quotient (100 * S) N).
  assert (Hk1 : 2 * N * k <= 2 * (100 * S) + N)
    by (unfold k, round_quotient; apply Z.mul_div_le; lia).
  assert (Hk2 : 2 * (100 * S) + N < 2 * N * (k + 1)).
  { unfold k, round_quotient.
    pose proof (Z.mod_pos_bound (2 * (100 * S) + N) (2 * N) ltac:(lia)).
    pose proof (Z.div_mod (2 * (100 * S) + N) (2 * N) ltac:(lia)). nia. }
  assert (Htie : (200 * S) mod (2 * N) <> N -> 2 * N * k <> 2 * (100 * S) + N).
  { intros Hm Heq. apply Hm.
    replace (200 * S) with (N + (k - 1) * (2 * N)) by lia.
    rewrite Z.mod_add by lia. apply Z.mod_small. lia. }
  assert (Hr : k - 1 <= r <= k /\ (2 * N * k <> 2 * (100 * S) + N -> r = k)).
  { subst r. unfold Math_round, mul, div.
    set (x := (inject_Z S / inject_Z N)%Q).
    pose proof (inject_Z_pos N HN) as Hn.
    assert (Hxn : (x * inject_Z N == inject_Z S)%Q) by (unfold x; field; lra).
    destruct (Z.eq_dec S 0) as [HS0|HS0].
    - subst S.
      rewrite (fl_integer x 0); [|unfold x; field; lra|lia].
      rewrite (fl_integer (inject_Z 0 * 100) 0); [|reflexivity|lia].
      assert (k = 0) by nia. subst k. rewrite H.
      split; [cbv; split; discriminate | reflexivity].
    - pose proof (Qabs_quotient S N HN) as Ha. fold x in Ha.
      rewrite Z.abs_eq in Ha by lia.
      set (n := inject_Z N) in *. set (s := inject_Z S) in *.
      assert (Hs1 : (1 <= s)%Q)
        by (unfold s; change 1%Q with (inject_Z 1); rewrite <- Zle_Qle; lia).
      assert (Hsn : (s <= n)%Q) by (unfold s, n; rewrite <- Zle_Qle; lia).
      assert (Hn32 : (n <= 4294967295)%Q)
        by (unfold n; change 4294967295%Q with (inject_Z (2 ^ 32 - 1));
            rewrite <- Zle_Qle; lia).
      assert (Hx0 : (0 < x)%Q).
      { unfold x. apply Qlt_shift_div_l; lra. }
      assert (Hax : (Qabs x == x)%Q) by (apply Qabs_pos; lra).
      assert (Hx1 : (x <= 1)%Q).
      { unfold x. apply Qle_shift_div_r; lra. }
      assert (Hxlow : ((1 # 4294967295) <= x)%Q).
      { unfold x. apply Qle_shift_div_l; lra. }
      assert (Hnorm : (pow2 (-1022) <= Qabs x)%Q).
      { apply pow2_m1022_le. rewrite Hax. lra. }
      pose proof (fl_error x Hnorm) as Herr.
      rewrite pow2_m53, Hax in Herr.
      apply Qabs_Qle_condition in Herr. destruct Herr as [He1 He2].
      set (x1 := fl x) in *.
      assert (Hy0 : (0 < x1 * 100)%Q) by lra.
      assert (Hay : (Qabs (x1 * 100) == x1 * 100)%Q) by (apply Qabs_pos; lra).
      assert (Hnorm' : (pow2 (-1022) <= Qabs (x1 * 100))%Q).
      { apply pow2_m1022_le. rewrite Hay. lra. }
      pose proof (fl_error (x1 * 100) Hnorm') as Herr'.
      rewrite pow2_m53, Hay in Herr'.
      apply Qabs_Qle_condition in Herr'. destruct Herr' as [He3 He4].
      set (x2 := fl (x1 * 100)) in *.
      (* |x2 - 100 x| <= 201 / 2^53 *)
      assert (B1 : (x2 - 100 * x <= 201 # 9007199254740992)%Q) by lra.
      assert (B2 : (- (201 # 9007199254740992) <= x2 - 100 * x)%Q) by lra.
      assert (C1 : ((x2 - 100 * x) * n <= (201 # 9007199254740992) * n)%Q)
        by (apply Qmult_le_compat_r; lra).
      assert (C2 : (- (201 # 9007199254740992) * n <= (x2 - 100 * x) * n)%Q)
        by (apply Qmult_le_compat_r; lra).
      assert (E : ((x2 - 100 * x) * n == x2 * n - 100 * s)%Q) by (rewrite <- Hxn; ring).
      pose proof (Qfloor_le (x2 + (1 # 2))) as F1.
      pose proof (Qlt_floor (x2 + (1 # 2))) as F2.
      set (r := Qfloor (x2 + (1 # 2))) in *.
      assert (F1n : (inject_Z r * n <= (x2 + (1 # 2)) * n)%Q)
        by (apply Qmult_le_compat_r; lra).
      assert (F2n : ((x2 + (1 # 2)) * n < inject_Z (r + 1) * n)%Q)
        by (apply Qmult_lt_compat_r; lra).
      rewrite inject_Z_plus in F2n. change (inject_Z 1) with 1%Q in F2n.
      assert (Z1 : 2 * N * k <= 2 * (100 * S) + N) by exact Hk1.
      assert (Z2 : 2 * (100 * S) + N + 1 <= 2 * N * (k + 1)) by lia.
      rewrite Zle_Qle in Z1, Z2. push_inj Z1. push_inj Z2.
      fold n in Z1, Z2. fold s in Z1, Z2.
      change (inject_Z 2) with 2%Q in *. change (inject_Z 100) with 100%Q in *.
      change (inject_Z 1) with 1%Q in *.
      set (rq := inject_Z r) in *. set (kq := inject_Z k) in *.
      (* r < k + 1 *)
      assert (U : (rq * n < (kq + 1) * n)%Q) by lra.
      (* k - 2 < r *)
      assert (L : ((kq - 2) * n < (rq) * n)%Q) by lra.
      apply Qmult_lt_r in U; [|exact Hn].
      apply Qmult_lt_r in L; [|exact Hn].
      assert (U' : (inject_Z r < inject_Z (k + 1))%Q)
        by (rewrite inject_Z_plus; exact U).
      assert (L' : (inject_Z (k - 2) < inject_Z r)%Q)
        by (unfold Z.sub; rewrite inject_Z_plus; exact L).
      rewrite <- Zlt_Qlt in U', L'.
      split; [lia|].
      intros Hno.
      assert (Z3 : 2 * N * k + 1 <= 2 * (100 * S) + N) by lia.
      rewrite Zle_Qle in Z3. push_inj Z3. fold n in Z3. fold s in Z3. fold kq in Z3.
      change (inject_Z 2) with 2%Q in *. change (inject_Z 100) with 100%Q in *.
      change (inject_Z 1) with 1%Q in *.
      assert (L2 : ((kq - 1) * n < rq * n)%Q) by lra.
      apply Qmult_lt_r in L2; [|exact Hn].
      assert (L2' : (inject_Z (k - 1) < inject_Z r)%Q)
        by (unfold Z.sub; rewrite inject_Z_plus; exact L2).
      rewrite <- Zlt_Qlt in L2'. lia. }
  destruct Hr as [[Hr1 Hr2] Hr3].
  split.
  - destruct (Z.eq_dec (2 * N * k) (2 * (100 * S) + N)) as [Heq|Hne].
    + assert (r = k - 1 \/ r = k) as [->| ->] by lia; lia.
    + rewrite (Hr3 Hne). lia.
  - intros Hm. apply Hr3, Htie, Hm.
Qed.

End JsNumberFacts.
(* ================================================================== *)
(** ** Tool usage listing *)

Lemma passesb_spec fs u : passesb fs u = true <-> passes fs u.
Proof.
  unfold passesb, passes.
  destruct fs as [tn cat dfrom dto]; simpl.
  rewrite !andb_true_iff.
  split.
  - intros [[[Ht Hc] Hf] Hd]. repeat split.
    + intros n -> Hn.
      apply orb_true_iff in Ht as [Ht|Ht]; apply String.eqb_eq in Ht; congruence.
    + intros c -> Hn.
      apply orb_true_iff in Hc as [Hc|Hc]; apply String.eqb_eq in Hc; congruence.
    + intros d ->. now apply Z.leb_le.
    + intros d ->. now apply Z.leb_le.
  - intros (Ht & Hc & Hf & Hd). repeat split.
    + destruct tn as [n|]; [|reflexivity].
      destruct (String.eqb n "") eqn:E; [reflexivity|]. simpl.
      apply String.eqb_eq, Ht; [reflexivity|]. now apply String.eqb_neq.
    + destruct cat as [c|]; [|reflexivity].
      destruct (String.eqb c "") eqn:E; [reflexivity|]. simpl.
      apply String.eqb_eq, Hc; [reflexivity|]. now apply String.eqb_neq.
    + destruct dfrom as [d|]; [|reflexivity]. now apply Z.leb_le, Hf.
    + destruct dto as [d|]; [|reflexivity]. now apply Z.leb_le, Hd.
Qed.

Lemma filter_when_filter {A : Type} (c : bool) (f : A -> bool) l :
  filter_when c f l = filter (fun x => negb c || f x) l.
Proof.
  destruct c; simpl; [reflexivity|].
  induction l; simpl; congruence.
Qed.

Lemma filter_filter {A : Type} (f g : A -> bool) l :
  filter g (filter f l) = filter (fun x => f x && g x) l.
Proof.
  induction l as [|x l IH]; simpl; [reflexivity|].
  destruct (f x); simpl; [destruct (g x)|]; now rewrite IH.
Qed.

Lemma filter_true {A : Type} (l : list A) : filter (fun _ => true) l = l.
Proof. induction l; simpl; congruence. Qed.

(** The four conditional filters of [getToolUsage] amount to one filter by
    [passesb]. *)
Lemma getToolUsage_filter fs st :
  getToolUsage (Some fs) st =
  JsArray.sort by_timestamp_desc (filter (passesb fs) (JsMap.values (toolUsages st))).
Proof.
  unfold getToolUsage. f_equal.
  rewrite !filter_when_filter.
  assert (Hfrom : forall l,
            match ToolUsage.f_dateFrom fs with
            | Some dateFrom => filter (fun usage => dateFrom <=? ToolUsage.timestamp usage) l
            | None => l end =
            filter (fun u => match ToolUsage.f_dateFrom fs with
                             | Some d => d <=? ToolUsage.timestamp u | None => true end) l).
  { intros l. destruct (ToolUsage.f_dateFrom fs); [reflexivity | now rewrite filter_true]. }
  assert (Hto : forall l,
            match ToolUsage.f_dateTo fs with
            | Some dateTo => filter (fun usage => ToolUsage.timestamp usage <=? dateTo) l
            | None => l end =
            filter (fun u => match ToolUsage.f_dateTo fs with
                             | Some d => ToolUsage.timestamp u <=? d | None => true end) l).
  { intros l. destruct (ToolUsage.f_dateTo fs); [reflexivity | now rewrite filter_true]. }
  rewrite Hto, Hfrom, !filter_filter.
  apply filter_ext. intros u. unfold passesb, is_some_truthy, truthy_string.
  destruct (ToolUsage.f_toolName fs) as [n|], (ToolUsage.f_category fs) as [c|]; simpl;
    rewrite ?negb_involutive, ?andb_assoc, ?andb_true_r; reflexivity.
Qed.

Lemma getToolUsage_In fs st u :
  In u (getToolUsage (Some fs) st) <->
  In u (JsMap.values (toolUsages st)) /\ passes fs u.
Proof.
  rewrite getToolUsage_filter.
  change by_timestamp_desc with (JsArray.desc ToolUsage.timestamp).
  rewrite JsArrayFacts.sort_In, filter_In, passesb_spec. reflexivity.
Qed.

Lemma by_timestamp_desc_sorted l :
  StronglySorted (fun a b => ToolUsage.timestamp b <= ToolUsage.timestamp a)
    (JsArray.sort by_timestamp_desc l).
Proof. exact (JsArrayFacts.sort_desc ToolUsage.timestamp l). Qed.

(** C4, as amended.  For every store and every filter object, [getToolUsage]
    returns exactly the stored records that agree with every truthy field of
    the filter object (a [toolName] or [category] given as the empty string
    does not constrain the result, nor does an absent field), each as often
    as it is stored, most recent first; without a filter object it returns
    all the stored records, most recent first. *)
Theorem getToolUsage_truthy_filters :
  forall (st : MemStorage),
    (forall fs,
        let result := getToolUsage (Some fs) st in
        Permutation result (filter (passesb fs) (JsMap.values (toolUsages st))) /\
        (forall u, In u result <-> In u (JsMap.values (toolUsages st)) /\ passes fs u) /\
        StronglySorted (fun a b => ToolUsage.timestamp b <= ToolUsage.timestamp a) result) /\
    (let result := getToolUsage None st in
     Permutation result (JsMap.values (toolUsages st)) /\
     StronglySorted (fun a b => ToolUsage.timestamp b <= ToolUsage.timestamp a) result).
Proof.
  intros st. split.
  - intros fs result. subst result. rewrite getToolUsage_filter.
    split; [|split].
    + exact (JsArrayFacts.sort_perm ToolUsage.timestamp _).
    + intros u. rewrite <- getToolUsage_filter. apply getToolUsage_In.
    + apply by_timestamp_desc_sorted.
  - simpl. split.
    + exact (JsArrayFacts.sort_perm ToolUsage.timestamp _).
    + apply by_timestamp_desc_sorted.
Qed.

(** C4 as stated fails: with [toolName: ""] supplied, the only stored record,
    of tool ["pdf-to-word"], is returned although it does not satisfy the
    supplied filter. *)
Lemma getToolUsage_not_every_supplied_filter :
  ~ (forall st fs u,
        In u (getToolUsage (Some fs) st) <->
        In u (JsMap.values (toolUsages st)) /\ passes_every_supplied fs u).
Proof.
  intros H.
  specialize (H store_x (ToolUsage.mkFilters (Some ""%string) None None None) usage_x).
  destruct H as [H _].
  assert (Hin : In usage_x
                  (getToolUsage (Some (ToolUsage.mkFilters (Some ""%string) None None None))
                     store_x)) by (vm_compute; now left).
  destruct (H Hin) as (_ & Hn & _).
  specialize (Hn ""%string eq_refl). discriminate Hn.
Qed.

(** C10.  A filter object whose [toolName] (or [category]) is the empty
    string gives the result of the same filter object without that field;
    so the result under [toolName: ""] holds every stored record that
    passes the other fields, whatever its tool name, and records with an
    empty tool name cannot be singled out. *)
Theorem getToolUsage_empty_string_filter :
  forall (st : MemStorage) (tn cat : option string) (dfrom dto : option Z),
    getToolUsage (Some (ToolUsage.mkFilters (Some ""%string) cat dfrom dto)) st =
    getToolUsage (Some (ToolUsage.mkFilters None cat dfrom dto)) st /\
    getToolUsage (Some (ToolUsage.mkFilters tn (Some ""%string) dfrom dto)) st =
    getToolUsage (Some (ToolUsage.mkFilters tn None dfrom dto)) st /\
    (forall u,
        In u (JsMap.values (toolUsages st)) ->
        passes (ToolUsage.mkFilters None cat dfrom dto) u ->
        In u (getToolUsage (Some (ToolUsage.mkFilters (Some ""%string) cat dfrom dto)) st)) /\
    (forall u,
        In u (JsMap.values (toolUsages st)) ->
        passes (ToolUsage.mkFilters tn None dfrom dto) u ->
        In u (getToolUsage (Some (ToolUsage.mkFilters tn (Some ""%string) dfrom dto)) st)).
Proof.
  intros st tn cat dfrom dto.
  assert (E1 : getToolUsage (Some (ToolUsage.mkFilters (Some ""%string) cat dfrom dto)) st =
               getToolUsage (Some (ToolUsage.mkFilters None cat dfrom dto)) st)
    by reflexivity.
  assert (E2 : getToolUsage (Some (ToolUsage.mkFilters tn (Some ""%string) dfrom dto)) st =
               getToolUsage (Some (ToolUsage.mkFilters tn None dfrom dto)) st)
    by reflexivity.
  split; [exact E1|]. split; [exact E2|].
  split; intros u Hin Hp.
  - rewrite E1. apply getToolUsage_In. now split.
  - rewrite E2. apply getToolUsage_In. now split.
Qed.

(* ================================================================== *)
(** ** Ad slots *)

(** C9.  For every store and page, [getActiveAdSlots] returns exactly the
    stored slots whose [page] is the argument and whose [isActive] is
    [true]: the result is the list of all slots with the others left out,
    order kept. *)
Theorem getActiveAdSlots_exact :
  forall (st : MemStorage) (page : string),
    (forall slot,
        In slot (getActiveAdSlots page st) <->
        In slot (getAdSlots st) /\
        AdSlot.page slot = page /\ AdSlot.isActive slot = Some true) /\
    Subsequence (getActiveAdSlots page st) (getAdSlots st) /\
    (forall slot,
        In slot (getAdSlots st) ->
        AdSlot.page slot <> page \/ AdSlot.isActive slot <> Some true ->
        ~ In slot (getActiveAdSlots page st)).
Proof.
  intros st page.
  assert (H : forall slot,
             In slot (getActiveAdSlots page st) <->
             In slot (getAdSlots st) /\
             AdSlot.page slot = page /\ AdSlot.isActive slot = Some true).
  { intros slot. unfold getActiveAdSlots, getAdSlots.
    rewrite filter_In, andb_true_iff, String.eqb_eq.
    unfold truthy_flag.
    destruct (AdSlot.isActive slot) as [[|]|]; intuition congruence. }
  split; [exact H|]. split.
  - apply filter_Subsequence.
  - intros slot _ Hno Hin. apply H in Hin. tauto.
Qed.

(* ================================================================== *)
(** ** Users *)

Section UserFacts.
Context {B : Bcrypt}.

Lemma createUser_stored id salt now iu st :
  getUser id (snd (createUser id salt now iu st)) =
  Some (fst (createUser id salt now iu st)).
Proof. unfold getUser, createUser; simpl. apply JsMapFacts.get_set_same. Qed.

Lemma createUser_others id salt now iu st id' :
  id' <> id ->
  getUser id' (snd (createUser id salt now iu st)) = getUser id' st.
Proof.
  intros Hne. unfold getUser, createUser; simpl.
  now apply JsMapFacts.get_set_other.
Qed.

Lemma find_none_iff {A : Type} (f : A -> bool) l :
  find f l = None <-> forall x, In x l -> f x = false.
Proof.
  split; [apply find_none|].
  induction l as [|x l IH]; simpl; intros H; [reflexivity|].
  rewrite (H x (or_introl eq_refl)). apply IH. intros y Hy. apply H. now right.
Qed.

(** The first user with a given email after [set]: when no stored user has
    the email of the new record, the lookup finds the new record. *)
Lemma find_email_set id (user : User.t) m :
  (forall v, In v (JsMap.values m) -> User.email v <> User.email user) ->
  find (fun v => String.eqb (User.email v) (User.email user))
       (JsMap.values (JsMap.set id user m)) = Some user.
Proof.
  intros Hnew. induction m as [|[k v] m IH]; simpl.
  - now rewrite String.eqb_refl.
  - destruct (String.eqb id k); simpl.
    + now rewrite String.eqb_refl.
    + destruct (String.eqb (User.email v) (User.email user)) eqn:E.
      * apply String.eqb_eq in E. exfalso. apply (Hnew v); [now left | exact E].
      * apply IH. intros w Hw. apply Hnew. now right.
Qed.

Lemma updateUser_password_kept id now updates st u st' :
  User.p_password updates = None ->
  updateUser id now updates st = (u, st') ->
  forall id', option_map User.password (getUser id' st') =
              option_map User.password (getUser id' st).
Proof.
  intros Hp. unfold updateUser, getUser.
  destruct (JsMap.get id (users st)) as [user|] eqn:Hget.
  - intros [= <- <-] id'. simpl. rewrite Hp. simpl.
    destruct (String.eqb id' id) eqn:E.
    + apply String.eqb_eq in E. subst id'.
      rewrite JsMapFacts.get_set_same, Hget. reflexivity.
    + apply String.eqb_neq in E. now rewrite JsMapFacts.get_set_other.
  - intros [= <- <-] id'. reflexivity.
Qed.

End UserFacts.

(** C2, as amended.  [createUser] makes no uniqueness check and never
    rejects: it stores the new record under the generated identifier and
    leaves the record stored under every other identifier unchanged.  A
    reused email is rejected earlier, by the pre-check of the register
    route, which answers 409 and leaves the store as it was. *)
Theorem createUser_never_rejects :
  forall (B : Bcrypt) (st : MemStorage) (id salt : string) (now : Z),
    (forall iu,
        let (user, st') := createUser id salt now iu st in
        getUser id st' = Some user /\
        User.email user = User.i_email iu /\
        User.username user = User.i_username iu /\
        (forall id', id' <> id -> getUser id' st' = getUser id' st)) /\
    (forall body existing,
        getUserByEmail (rb_email body) st = Some existing ->
        register id salt now (Some body) st = (RegisterConflict, st)).
Proof.
  intros B st id salt now. split.
  - intros iu.
    pose proof (createUser_stored id salt now iu st) as Hs.
    pose proof (createUser_others id salt now iu st) as Ho.
    destruct (createUser id salt now iu st) as [user st'] eqn:E.
    simpl in Hs, Ho. repeat split; try assumption.
    + unfold createUser in E. injection E as <- _. reflexivity.
    + unfold createUser in E. injection E as <- _. reflexivity.
  - intros body existing H. unfold register. now rewrite H.
Qed.

(** C2 as stated fails: a second [createUser] reusing both the email and the
    username of a stored user is accepted, and both records are stored. *)
Lemma createUser_accepts_duplicate :
  let alice := User.mkInsert "alice" "alice@example.com" "secret" None in
  let (first, st1) := createUser (B := toy_bcrypt) "id-1" "s1" 10 alice new_maps in
  let (second, st2) := createUser (B := toy_bcrypt) "id-2" "s2" 20 alice st1 in
  getUserByEmail "alice@example.com" st1 = Some first /\
  getUser "id-2" st2 = Some second /\
  getUser "id-1" st2 = Some first /\
  User.email second = User.email first /\
  User.username second = User.username first /\
  List.length (JsMap.values (users st2)) = 2%nat.
Proof. vm_compute. repeat split. Qed.

(** C3, as amended.  The generic [updateUser] writes every supplied field as
    it is given: a [password] in the update is stored unhashed.  The profile
    route passes only [username] and [email] to it, so a request to that
    route never changes any stored password. *)
Theorem updateUser_stores_password_verbatim :
  forall (st : MemStorage) (now : Z),
    (forall id user updates pw,
        getUser id st = Some user ->
        User.p_password updates = Some pw ->
        exists updated st',
          updateUser id now updates st = (Some updated, st') /\
          getUser id st' = Some updated /\
          User.password updated = pw) /\
    (forall userId body,
        let (response, st') := updateProfile userId now body st in
        forall id, option_map User.password (getUser id st') =
                   option_map User.password (getUser id st)).
Proof.
  intros st now. split.
  - intros id user updates pw Hget Hpw.
    unfold updateUser. unfold getUser in Hget. rewrite Hget.
    eexists _, _. split; [reflexivity|]. split.
    + unfold getUser; simpl. apply JsMapFacts.get_set_same.
    + simpl. now rewrite Hpw.
  - intros userId body.
    destruct (updateProfile userId now body st) as [response st'] eqn:E.
    unfold updateProfile in E.
    destruct body as [body|]; [|injection E as _ <-; reflexivity].
    destruct userId as [userId|]; [|injection E as _ <-; reflexivity].
    destruct (truthy_string userId); [|injection E as _ <-; reflexivity].
    destruct (updateUser userId now (profile_updates body) st) as [[u|] st1] eqn:Eu;
      injection E as _ <-;
      apply (updateUser_password_kept userId now (profile_updates body) st _ _ eq_refl Eu).
Qed.

(** C3 as stated fails: after [updateUser] with [password: "hunter2"] the
    stored password field is the plaintext ["hunter2"], and the user can no
    longer authenticate with it. *)
Lemma updateUser_stores_plaintext :
  let alice := User.mkInsert "alice" "alice@example.com" "secret" None in
  let (created, st1) := createUser (B := toy_bcrypt) "id-1" "s1" 10 alice new_maps in
  let updates := User.mkPartial None None None (Some "hunter2"%string) None None None in
  let (updated, st2) := updateUser "id-1" 20 updates st1 in
  option_map User.password updated = Some "hunter2"%string /\
  option_map User.password (getUser "id-1" st2) = Some "hunter2"%string /\
  User.password created <> "hunter2"%string /\
  authenticateUser (B := toy_bcrypt) "alice@example.com" "hunter2" st2 = None.
Proof. vm_compute. repeat split. discriminate. Qed.

(** After [createUser] with an email that no stored user has, the lookup
    by that email finds the new user, and [authenticateUser] answers by what
    [bcrypt.compare] says of the stored digest. *)
Lemma authenticateUser_created {B : Bcrypt} (st : MemStorage) (id salt : string)
    (now : Z) (iu : User.insert) (other : string) :
  (forall v, In v (JsMap.values (users st)) -> User.email v <> User.i_email iu) ->
  authenticateUser (User.i_email iu) other (snd (createUser id salt now iu st)) =
  if bcrypt_compare other (bcrypt_hash (User.i_password iu) salt)
  then Some (fst (createUser id salt now iu st)) else None.
Proof.
  intros Hnew. unfold authenticateUser, getUserByEmail, createUser; simpl.
  rewrite (find_email_set id
             (User.mk id (User.i_username iu) (User.i_email iu)
                (bcrypt_hash (User.i_password iu) salt)
                (role_or_user (User.i_role iu)) now now) (users st) Hnew).
  reflexivity.
Qed.

(** C8, as amended.  When no stored user already has the email of the
    input, then after [createUser] the lookup by that email finds the new
    user, so [authenticateUser] with that email answers by what
    [bcrypt.compare] says of the plaintext and the stored digest: the new
    user for the plaintext of the input and for every plaintext with the
    same first 72 bytes, the new user or [undefined] for any other plaintext
    as [compare] accepts or rejects it.  An email that no stored user has
    gives [undefined]. *)
Theorem authenticate_created_user :
  forall (B : Bcrypt) (Laws : BcryptLaws B)
         (st : MemStorage) (id salt : string) (now : Z) (iu : User.insert),
    (forall v, In v (JsMap.values (users st)) -> User.email v <> User.i_email iu) ->
    let (user, st') := createUser id salt now iu st in
    authenticateUser (User.i_email iu) (User.i_password iu) st' = Some user /\
    (forall other, bcrypt_key other = bcrypt_key (User.i_password iu) ->
                   authenticateUser (User.i_email iu) other st' = Some user) /\
    (forall other,
        authenticateUser (User.i_email iu) other st' =
        if bcrypt_compare other (bcrypt_hash (User.i_password iu) salt)
        then Some user else None) /\
    (forall email other,
        (forall v, In v (JsMap.values (users st')) -> User.email v <> email) ->
        authenticateUser email other st' = None).
Proof.
  intros B Laws st id salt now iu Hnew.
  pose proof (fun other => authenticateUser_created st id salt now iu other Hnew) as Hauth.
  destruct (createUser id salt now iu st) as [user st'] eqn:E.
  cbn [fst snd] in Hauth.
  split; [|split; [|split]].
  - rewrite Hauth, bcrypt_compare_key; reflexivity.
  - intros other Hkey. rewrite Hauth, bcrypt_compare_key; [reflexivity | exact Hkey].
  - exact Hauth.
  - intros email other Hno. unfold authenticateUser, getUserByEmail.
    replace (find _ _) with (@None User.t); [reflexivity|].
    symmetry. apply find_none_iff. intros v Hv.
    apply String.eqb_neq. now apply Hno.
Qed.

(** The stand-in has the law of the library. *)
Lemma after_dollar_hash salt plaintext :
  after_dollar (no_dollar salt ++ "$" ++ plaintext) = plaintext.
Proof.
  induction salt as [|c salt IH]; simpl; [reflexivity|].
  destruct (Ascii.eqb c "$") eqn:E; [exact IH|].
  simpl. now rewrite E.
Qed.

Lemma toy_bcrypt_laws : BcryptLaws toy_bcrypt.
Proof.
  intros plaintext other salt Hkey.
  change (String.eqb (bcrypt_key other)
            (after_dollar (no_dollar salt ++ "$" ++ bcrypt_key plaintext)) = true).
  rewrite after_dollar_hash, Hkey. apply String.eqb_refl.
Qed.

(** The amended C8 at a concrete store: a second user with a new email. *)
Lemma authenticate_created_user_witness :
  let iu := User.mkInsert "bob" "bob@example.com" "pw" None in
  let st := snd (createUser (B := toy_bcrypt) "id-1" "s1" 10
                   (User.mkInsert "alice" "alice@example.com" "secret" None) new_maps) in
  (forall v, In v (JsMap.values (users st)) -> User.email v <> User.i_email iu) /\
  let (user, st') := createUser (B := toy_bcrypt) "id-2" "s2" 20 iu st in
  authenticateUser (B := toy_bcrypt) (User.i_email iu) (User.i_password iu) st' = Some user /\
  (forall other, bcrypt_key other = bcrypt_key (User.i_password iu) ->
                 authenticateUser (B := toy_bcrypt) (User.i_email iu) other st' = Some user) /\
  (forall other,
      authenticateUser (B := toy_bcrypt) (User.i_email iu) other st' =
      if bcrypt_compare (Bcrypt := toy_bcrypt) other
           (bcrypt_hash (Bcrypt := toy_bcrypt) (User.i_password iu) "s2")
      then Some user else None) /\
  (forall email other,
      (forall v, In v (JsMap.values (users st')) -> User.email v <> email) ->
      authenticateUser (B := toy_bcrypt) email other st' = None).
Proof.
  assert (H : forall v,
             In v (JsMap.values
                     (users (snd (createUser (B := toy_bcrypt) "id-1" "s1" 10
                                    (User.mkInsert "alice" "alice@example.com" "secret" None)
                                    new_maps)))) ->
             User.email v <> "bob@example.com"%string).
  { intros v [<-|[]]. discriminate. }
  split; [exact H|].
  exact (authenticate_created_user toy_bcrypt toy_bcrypt_laws _ "id-2" "s2" 20
           (User.mkInsert "bob" "bob@example.com" "pw" None) H).
Defined.

(** C8 as stated fails: the second user created with an email that is
    already stored cannot authenticate with its own password; the lookup by
    email finds the first user. *)
Lemma authenticate_fails_for_duplicate_email :
  let (first, st1) :=
    createUser (B := toy_bcrypt) "id-1" "s1" 10
      (User.mkInsert "alice" "alice@example.com" "secret" None) new_maps in
  let (second, st2) :=
    createUser (B := toy_bcrypt) "id-2" "s2" 20
      (User.mkInsert "alice2" "alice@example.com" "other" None) st1 in
  getUser "id-2" st2 = Some second /\
  authenticateUser (B := toy_bcrypt) "alice@example.com" "other" st2 = None /\
  authenticateUser (B := toy_bcrypt) "alice@example.com" "secret" st2 = Some first.
Proof. vm_compute. repeat split. Qed.

(** The other way in which C8 as stated fails, for every bcrypt with the
    law above: a plaintext that differs from the one the user was created
    with only after its first 72 bytes authenticates as well. *)
Lemma authenticate_reads_72_bytes :
  forall (B : Bcrypt) (Laws : BcryptLaws B) (id salt : string) (now : Z)
         (username email head : string),
    String.length head = 72%nat ->
    let (user, st) :=
      createUser id salt now (User.mkInsert username email (head ++ "b") None) new_maps in
    (head ++ "c")%string <> (head ++ "b")%string /\
    authenticateUser email (head ++ "c") st = Some user.
Proof.
  intros B Laws id salt now username email head Hlen.
  pose proof (authenticateUser_created new_maps id salt now
                (User.mkInsert username email (head ++ "b") None) (head ++ "c")) as H.
  destruct (createUser id salt now _ new_maps) as [user st].
  cbn [fst snd User.i_email User.i_password] in H.
  split.
  - clear. induction head as [|c head IH]; simpl; [discriminate|].
    intros E. injection E as E. now apply IH.
  - rewrite H by (intros v []). rewrite bcrypt_compare_key; [reflexivity|].
    unfold bcrypt_key.
    clear - Hlen. revert Hlen. generalize 72%nat as n.
    induction head as [|c head IH]; intros n Hlen; simpl in *.
    + now subst n.
    + destruct n as [|n]; [discriminate|]. injection Hlen as Hlen.
      simpl. f_equal. now apply IH.
Qed.

(* ================================================================== *)
(** ** Analytics *)

Import JsNumberFacts.

Lemma In_first_tools usages X :
  In X (first_tools usages) <-> In X (map ToolUsage.toolName usages).
Proof.
  induction usages as [|u l IH]; simpl; [reflexivity|].
  rewrite filter_In, IH, negb_true_iff, String.eqb_neq.
  destruct (String.eqb_spec X (ToolUsage.toolName u)) as [->|Hne]; intuition congruence.
Qed.

Lemma NoDup_first_tools usages : NoDup (first_tools usages).
Proof.
  induction usages as [|u l IH]; simpl; constructor.
  - rewrite filter_In, String.eqb_refl. simpl. intuition discriminate.
  - now apply NoDup_filter.
Qed.

Lemma existsb_filter_other k kv ks :
  k <> kv ->
  existsb (String.eqb k) (filter (fun X => negb (String.eqb X kv)) ks) =
  existsb (String.eqb k) ks.
Proof.
  intros E. induction ks as [|y ys IHy]; simpl; [reflexivity|].
  destruct (String.eqb_spec y kv) as [Hy|Hy]; simpl.
  - rewrite IHy, Hy. now rewrite (proj2 (String.eqb_neq k kv) E).
  - now rewrite IHy.
Qed.

Lemma first_tools_snoc l u :
  first_tools (l ++ [u]) =
  if existsb (String.eqb (ToolUsage.toolName u)) (first_tools l)
  then first_tools l
  else first_tools l ++ [ToolUsage.toolName u].
Proof.
  set (k := ToolUsage.toolName u).
  induction l as [|v l IH]; simpl; [reflexivity|].
  rewrite IH. set (kv := ToolUsage.toolName v).
  destruct (String.eqb_spec k kv) as [E|E]; simpl.
  - destruct (existsb (String.eqb k) (first_tools l)); [reflexivity|].
    rewrite filter_app. simpl. rewrite E, String.eqb_refl. simpl.
    rewrite app_nil_r. reflexivity.
  - rewrite (existsb_filter_other k kv) by assumption.
    destruct (existsb (String.eqb k) (first_tools l)); [reflexivity|].
    rewrite filter_app. simpl.
    destruct (String.eqb_spec k kv); [contradiction|]. reflexivity.
Qed.

Lemma group_snoc X l u :
  group X (l ++ [u]) =
  group X l ++ (if String.eqb (ToolUsage.toolName u) X then [u] else []).
Proof. unfold group. rewrite filter_app. reflexivity. Qed.

Lemma get_map_keys {V : Type} (f : string -> V) (ks : list string) k :
  JsMap.get k (map (fun X => (X, f X)) ks) =
  if existsb (String.eqb k) ks then Some (f k) else None.
Proof.
  induction ks as [|y ys IH]; simpl; [reflexivity|].
  destruct (String.eqb_spec k y) as [->|Hne]; simpl; [reflexivity | exact IH].
Qed.

Lemma set_map_keys {V : Type} (f g : string -> V) (ks : list string) k :
  NoDup ks ->
  existsb (String.eqb k) ks = true ->
  (forall X, X <> k -> g X = f X) ->
  JsMap.set k (g k) (map (fun X => (X, f X)) ks) = map (fun X => (X, g X)) ks.
Proof.
  intros Hnd Hin Hg. induction Hnd as [|y ys Hy Hnd IH]; simpl in *; [discriminate|].
  destruct (String.eqb_spec k y) as [->|Hne]; simpl.
  - f_equal. apply map_ext_in. intros X HX. rewrite Hg; [reflexivity|].
    intros ->. contradiction.
  - rewrite IH by assumption. now rewrite Hg by congruence.
Qed.

Lemma existsb_eqb_In k ks : existsb (String.eqb k) ks = true <-> In k ks.
Proof.
  rewrite existsb_exists. split.
  - intros (y & Hy & E). apply String.eqb_eq in E. now subst.
  - intros H. exists k. split; [assumption | apply String.eqb_refl].
Qed.

Lemma group_nonempty X l :
  In X (first_tools l) -> exists u g, group X l = u :: g.
Proof.
  rewrite In_first_tools, in_map_iff. intros (u & Hu & Hin).
  destruct (group X l) as [|v g] eqn:E; [|eauto].
  exfalso. assert (In u (group X l)).
  { unfold group. apply filter_In. split; [assumption|]. subst X. apply String.eqb_refl. }
  rewrite E in H. contradiction.
Qed.

Lemma group_empty X l : ~ In X (first_tools l) -> group X l = [].
Proof.
  rewrite In_first_tools, in_map_iff. intros Hno.
  unfold group. induction l as [|v l IH]; simpl; [reflexivity|].
  destruct (String.eqb_spec (ToolUsage.toolName v) X) as [E|E].
  - exfalso. apply Hno. exists v. split; [assumption | now left].
  - apply IH. intros (u & Hu & Hin). apply Hno. exists u. split; [assumption | now right].
Qed.

(** The accumulator map after the [forEach]: one entry per tool, in the
    order of first occurrence, holding the sums over the events of the tool. *)
Lemma fold_accumulate usages :
  fold_left accumulate usages JsMap.empty =
  map (fun X => (X, group_acc usages X)) (first_tools usages).
Proof.
  induction usages as [|u l IH] using rev_ind; [reflexivity|].
  rewrite fold_left_app. simpl. rewrite IH.
  unfold accumulate. set (k := ToolUsage.toolName u).
  rewrite get_map_keys, first_tools_snoc. fold k.
  destruct (existsb (String.eqb k) (first_tools l)) eqn:Hin.
  - apply existsb_eqb_In in Hin as Hin'.
    destruct (group_nonempty k l Hin') as (v & g & Hg).
    rewrite <- (set_map_keys (group_acc l) (group_acc (l ++ [u])) (first_tools l) k
                  (NoDup_first_tools l) Hin).
    + f_equal. unfold group_acc, group_category, group_size, group_successes; simpl.
      rewrite group_snoc. fold k. rewrite String.eqb_refl, Hg.
      cbn [acc_name acc_category acc_usageCount acc_successCount acc_totalProcessingTime].
      f_equal.
      * rewrite length_app, Nat2Z.inj_add. simpl. lia.
      * rewrite filter_app, length_app, Nat2Z.inj_add. simpl.
        destruct (ToolUsage.success u); simpl; lia.
      * unfold total_time. rewrite fold_left_app. reflexivity.
    + intros X HX. unfold group_acc, group_category, group_size, group_successes.
      rewrite group_snoc. fold k.
      destruct (String.eqb_spec k X); [congruence|]. now rewrite app_nil_r.
  - assert (Hnot : ~ In k (first_tools l)).
    { intros H. apply existsb_eqb_In in H. congruence. }
    rewrite JsMapFacts.set_fresh.
    2:{ rewrite get_map_keys, Hin. reflexivity. }
    rewrite map_app. simpl. f_equal.
    + apply map_ext_in. intros X HX. f_equal.
      unfold group_acc, group_category, group_size, group_successes.
      rewrite group_snoc. fold k.
      destruct (String.eqb_spec k X); [subst; contradiction|]. now rewrite app_nil_r.
    + f_equal. f_equal.
      unfold group_acc, group_category, group_size, group_successes, total_time.
      rewrite group_snoc. fold k. rewrite String.eqb_refl, (group_empty k l Hnot). simpl.
      unfold add_time. f_equal.
      destruct (ToolUsage.success u); reflexivity.
Qed.

Lemma sum_times_bound l : Z.abs (sum_times (filter has_time l)) <= sum_abs_times l.
Proof.
  induction l as [|u l IH]; simpl; [lia|].
  pose proof (Z.abs_nonneg (time_of u)).
  destruct (has_time u); simpl; lia.
Qed.

Lemma sum_abs_times_nonneg l : 0 <= sum_abs_times l.
Proof. induction l; simpl; lia. Qed.

Lemma sum_abs_times_filter f l : sum_abs_times (filter f l) <= sum_abs_times l.
Proof.
  induction l as [|u l IH]; simpl; [lia|].
  pose proof (Z.abs_nonneg (time_of u)).
  destruct (f u); simpl; lia.
Qed.

(** While the sums stay below [2^53] every addition of the running total is
    exact. *)
Lemma fold_add_time_exact l :
  forall T0, Z.abs T0 + sum_abs_times l < 2 ^ 53 ->
             fold_left add_time l (inject_Z T0) =
             inject_Z (T0 + sum_times (filter has_time l)).
Proof.
  induction l as [|u l IH]; intros T0 Hb.
  - simpl. now rewrite Z.add_0_r.
  - pose proof (sum_abs_times_nonneg l) as Hl.
    cbn [fold_left filter sum_abs_times] in *.
    unfold add_time at 2, has_time at 1.
    unfold time_of in Hb.
    destruct (ToolUsage.processingTime u) as [t|] eqn:E.
    + assert (Ht : time_of u = t) by (unfold time_of; now rewrite E).
      cbn [sum_times]. rewrite Ht.
      unfold truthy_number. destruct (Z.eqb_spec t 0) as [->|Hne]; simpl negb; cbv iota.
      * rewrite IH by lia. f_equal.
      * unfold JsNumber.add.
        rewrite (fl_integer _ (T0 + t)); [|now rewrite inject_Z_plus|lia].
        rewrite IH by lia. f_equal. lia.
    + rewrite IH by lia. reflexivity.
Qed.

Lemma total_time_exact l :
  sum_abs_times l < 2 ^ 53 ->
  total_time l = inject_Z (sum_times (filter has_time l)).
Proof.
  intros Hb. unfold total_time. change 0%Q with (inject_Z 0).
  rewrite fold_add_time_exact; [reflexivity | simpl; lia].
Qed.

Lemma first_seen_other X u l :
  X <> ToolUsage.toolName u -> first_seen X (u :: l) = S (first_seen X l).
Proof.
  intros Hne. simpl.
  destruct (String.eqb_spec (ToolUsage.toolName u) X); [congruence | reflexivity].
Qed.

Lemma StronglySorted_filter {A : Type} (R : A -> A -> Prop) f l :
  StronglySorted R l -> StronglySorted R (filter f l).
Proof.
  induction 1 as [|x l Hs IH Hx]; simpl; [constructor|].
  destruct (f x); [|assumption].
  constructor; [assumption|].
  rewrite Forall_forall in Hx |- *. intros y Hy. apply filter_In in Hy. now apply Hx.
Qed.

Lemma StronglySorted_weaken {A : Type} (R R' : A -> A -> Prop) l :
  (forall x y, In x l -> In y l -> R x y -> R' x y) ->
  StronglySorted R l -> StronglySorted R' l.
Proof.
  intros HR Hs. induction Hs as [|x l Hs IH Hx]; constructor.
  - apply IH. intros a b Ha Hb. apply HR; now right.
  - rewrite Forall_forall in Hx |- *. intros y Hy.
    apply HR; [now left | now right | now apply Hx].
Qed.

Lemma StronglySorted_map {A B : Type} (R : B -> B -> Prop) (f : A -> B) l :
  StronglySorted (fun x y => R (f x) (f y)) l -> StronglySorted R (map f l).
Proof.
  induction 1 as [|x l Hs IH Hx]; simpl; constructor; [assumption|].
  rewrite Forall_forall in Hx |- *. intros y Hy.
  apply in_map_iff in Hy as (z & <- & Hz). now apply Hx.
Qed.

(** The tools are listed in the order in which they are first seen. *)
Lemma first_tools_sorted usages :
  StronglySorted
    (fun X Y => (first_seen X usages < first_seen Y usages)%nat)
    (first_tools usages).
Proof.
  induction usages as [|u l IH]; simpl first_tools; constructor.
  - eapply StronglySorted_weaken; [|apply StronglySorted_filter, IH].
    intros X Y HX HY Hlt.
    apply filter_In in HX as [_ HX]. apply filter_In in HY as [_ HY].
    apply negb_true_iff, String.eqb_neq in HX, HY.
    cbv beta in Hlt |- *.
    rewrite (first_seen_other X u l HX), (first_seen_other Y u l HY). lia.
  - rewrite Forall_forall. intros Y HY. apply filter_In in HY as [_ HY].
    apply negb_true_iff, String.eqb_neq in HY.
    rewrite (first_seen_other Y u l HY). simpl. rewrite String.eqb_refl. lia.
Qed.

Lemma toolStats_sorted_map usages :
  toolStats (analytics_of usages) =
  JsArray.sort by_usageCount_desc
    (map (fun X => stat_of_acc (group_acc usages X)) (first_tools usages)).
Proof.
  destruct usages as [|u l]; [reflexivity|].
  assert (E : JsArray.sort by_usageCount_desc
                (map stat_of_acc
                   (JsMap.values (fold_left accumulate (u :: l) JsMap.empty))) =
              JsArray.sort by_usageCount_desc
                (map (fun X => stat_of_acc (group_acc (u :: l) X))
                   (first_tools (u :: l)))).
  { rewrite fold_accumulate. unfold JsMap.values. now rewrite !map_map. }
  rewrite <- E. unfold analytics_of.
  match goal with
  | |- toolStats (match ?s with [] => _ | _ :: _ => _ end) = _ => destruct s; reflexivity
  end.
Qed.

Lemma stat_in_toolStats usages X :
  In X (map ToolUsage.toolName usages) ->
  In (stat_of_acc (group_acc usages X)) (toolStats (analytics_of usages)).
Proof.
  intros HX. rewrite toolStats_sorted_map.
  change by_usageCount_desc with (JsArray.desc usageCount).
  apply JsArrayFacts.sort_In, in_map_iff.
  exists X. split; [reflexivity | now apply In_first_tools].
Qed.

Lemma group_size_pos usages X :
  In X (map ToolUsage.toolName usages) -> 0 < group_size X usages.
Proof.
  intros HX. apply In_first_tools in HX.
  destruct (group_nonempty X usages HX) as (u & g & Hg).
  unfold group_size. rewrite Hg. simpl. lia.
Qed.

Lemma filter_length_le_Z {A : Type} (f : A -> bool) l :
  Z.of_nat (List.length (filter f l)) <= Z.of_nat (List.length l).
Proof. apply inj_le, filter_length_le. Qed.

(** The example scenario, end to end: everything is as the specification
    expects except the average of ["pdf-to-word"]. *)
Example getAnalytics_scenario :
  getAnalytics scenario_store =
  mkAnalytics 5 "pdf-to-word" 4 "80.0%"
    [mkStat "pdf-to-word" "pdf" 4 75 75; mkStat "merge-pdf" "pdf" 1 100 200].
Proof. vm_compute. reflexivity. Qed.

(** C7.  On an empty tool-usage collection [getAnalytics] returns the
    zero-state result, whatever the rest of the store holds. *)
Theorem getAnalytics_empty :
  forall (us : JsMap.t User.t) (ads : JsMap.t AdSlot.t),
    getAnalytics (mkStorage us JsMap.empty ads) =
    mkAnalytics 0 "No data" 0 "0%" [].
Proof. intros us ads. reflexivity. Qed.

(** C5.  On a non-empty collection, [toolStats] has one entry per tool name,
    carrying the number of events of the tool; the entries come by
    decreasing [usageCount], equally used tools in the order of their first
    event; [mostPopular] and [popularUsage] are the name and the count of
    the first entry. *)
Theorem getAnalytics_toolStats_order :
  forall (st : MemStorage),
    JsMap.values (toolUsages st) <> [] ->
    StronglySorted (stats_order (JsMap.values (toolUsages st)))
      (toolStats (getAnalytics st)) /\
    NoDup (map name (toolStats (getAnalytics st))) /\
    (forall X, In X (map name (toolStats (getAnalytics st))) <->
               In X (map ToolUsage.toolName (JsMap.values (toolUsages st)))) /\
    (forall s, In s (toolStats (getAnalytics st)) ->
               usageCount s = group_size (name s) (JsMap.values (toolUsages st))) /\
    exists top rest,
      toolStats (getAnalytics st) = top :: rest /\
      mostPopular (getAnalytics st) = name top /\
      popularUsage (getAnalytics st) = usageCount top.
Proof.
  intros st Hne. unfold getAnalytics.
  set (usages := JsMap.values (toolUsages st)) in *.
  set (stats := map (fun X => stat_of_acc (group_acc usages X)) (first_tools usages)).
  assert (Hts : toolStats (analytics_of usages) = JsArray.sort (JsArray.desc usageCount) stats)
    by apply toolStats_sorted_map.
  assert (Hperm : Permutation (toolStats (analytics_of usages)) stats)
    by (rewrite Hts; apply JsArrayFacts.sort_perm).
  assert (Hnames : map name stats = first_tools usages).
  { unfold stats. rewrite map_map. simpl. apply map_id. }
  split; [|split; [|split; [|split]]].
  - rewrite Hts.
    apply (JsArrayFacts.sort_stable usageCount
             (fun a b => (first_seen (name a) usages < first_seen (name b) usages)%nat)).
    unfold stats. apply StronglySorted_map. simpl. apply first_tools_sorted.
  - eapply Permutation_NoDup.
    + symmetry. apply Permutation_map, Hperm.
    + rewrite Hnames. apply NoDup_first_tools.
  - intros X. rewrite <- In_first_tools, <- Hnames.
    split; apply Permutation_in; [|symmetry]; apply Permutation_map, Hperm.
  - intros s Hs. apply (Permutation_in _ Hperm) in Hs.
    unfold stats in Hs. apply in_map_iff in Hs as (X & <- & _). reflexivity.
  - destruct usages as [|u l] eqn:Eu; [contradiction|].
    unfold analytics_of. 
    destruct (JsArray.sort by_usageCount_desc
                (map stat_of_acc (JsMap.values (fold_left accumulate (u :: l) JsMap.empty))))
      as [|top rest] eqn:E.
    + exfalso.
      assert (Hlen : List.length (toolStats (analytics_of (u :: l))) =
                     List.length stats) by (apply Permutation_length, Hperm).
      unfold analytics_of in Hlen. rewrite E in Hlen. 
      unfold stats in Hlen. simpl in Hlen. discriminate.
    + exists top, rest. repeat split.
Qed.

(** C5 on the example scenario. *)
Lemma getAnalytics_toolStats_order_witness :
  JsMap.values (toolUsages scenario_store) <> [] /\
  StronglySorted (stats_order (JsMap.values (toolUsages scenario_store)))
    (toolStats (getAnalytics scenario_store)) /\
  NoDup (map name (toolStats (getAnalytics scenario_store))) /\
  (forall X, In X (map name (toolStats (getAnalytics scenario_store))) <->
             In X (map ToolUsage.toolName (JsMap.values (toolUsages scenario_store)))) /\
  (forall s, In s (toolStats (getAnalytics scenario_store)) ->
             usageCount s = group_size (name s) (JsMap.values (toolUsages scenario_store))) /\
  exists top rest,
    toolStats (getAnalytics scenario_store) = top :: rest /\
    mostPopular (getAnalytics scenario_store) = name top /\
    popularUsage (getAnalytics scenario_store) = usageCount top.
Proof.
  assert (H : JsMap.values (toolUsages scenario_store) <> []) by (vm_compute; discriminate).
  split; [exact H | exact (getAnalytics_toolStats_order scenario_store H)].
Defined.

(** C6, as amended.  For a tool [X] with [N] events of which [S] succeeded,
    [toolStats] has an entry for [X] with [usageCount = N] and a
    [successRate] that is an integer nearest to [100 S / N]; it is
    [round(100 S / N)] whenever [100 S / N] is not exactly half-way between
    two integers.  (The collection is an array: fewer than [2^32] events.) *)
Theorem getAnalytics_successRate_nearest :
  forall (st : MemStorage) (X : string),
    In X (map ToolUsage.toolName (JsMap.values (toolUsages st))) ->
    Z.of_nat (List.length (JsMap.values (toolUsages st))) < 2 ^ 32 ->
    exists s,
      In s (toolStats (getAnalytics st)) /\
      name s = X /\
      usageCount s = group_size X (JsMap.values (toolUsages st)) /\
      2 * Z.abs (successRate s * group_size X (JsMap.values (toolUsages st))
                 - 100 * group_successes X (JsMap.values (toolUsages st)))
        <= group_size X (JsMap.values (toolUsages st)) /\
      ((200 * group_successes X (JsMap.values (toolUsages st)))
         mod (2 * group_size X (JsMap.values (toolUsages st)))
       <> group_size X (JsMap.values (toolUsages st)) ->
       successRate s =
       round_quotient (100 * group_successes X (JsMap.values (toolUsages st)))
         (group_size X (JsMap.values (toolUsages st)))).
Proof.
  intros st X HX Hlen. unfold getAnalytics.
  set (usages := JsMap.values (toolUsages st)) in *.
  exists (stat_of_acc (group_acc usages X)).
  split; [now apply stat_in_toolStats|]. split; [reflexivity|]. split; [reflexivity|].
  pose proof (group_size_pos usages X HX) as HN.
  assert (HNle : group_size X usages <= Z.of_nat (List.length usages))
    by apply filter_length_le_Z.
  assert (HS : 0 <= group_successes X usages <= group_size X usages).
  { unfold group_successes, group_size. split; [lia | apply filter_length_le_Z]. }
  unfold stat_of_acc, group_acc; simpl.
  replace (0 <? group_size X usages) with true by (symmetry; apply Z.ltb_lt; exact HN).
  apply round_percentage; lia.
Qed.

(** The amended C6 on the example scenario, for ["pdf-to-word"]. *)
Lemma getAnalytics_successRate_nearest_witness :
  In "pdf-to-word"%string
     (map ToolUsage.toolName (JsMap.values (toolUsages scenario_store))) /\
  Z.of_nat (List.length (JsMap.values (toolUsages scenario_store))) < 2 ^ 32 /\
  exists s,
    In s (toolStats (getAnalytics scenario_store)) /\
    name s = "pdf-to-word"%string /\
    usageCount s = group_size "pdf-to-word" (JsMap.values (toolUsages scenario_store)) /\
    2 * Z.abs (successRate s * group_size "pdf-to-word" (JsMap.values (toolUsages scenario_store))
               - 100 * group_successes "pdf-to-word" (JsMap.values (toolUsages scenario_store)))
      <= group_size "pdf-to-word" (JsMap.values (toolUsages scenario_store)) /\
    ((200 * group_successes "pdf-to-word" (JsMap.values (toolUsages scenario_store)))
       mod (2 * group_size "pdf-to-word" (JsMap.values (toolUsages scenario_store)))
     <> group_size "pdf-to-word" (JsMap.values (toolUsages scenario_store)) ->
     successRate s =
     round_quotient (100 * group_successes "pdf-to-word" (JsMap.values (toolUsages scenario_store)))
       (group_size "pdf-to-word" (JsMap.values (toolUsages scenario_store)))).
Proof.
  assert (H1 : In "pdf-to-word"%string
                 (map ToolUsage.toolName (JsMap.values (toolUsages scenario_store))))
    by (vm_compute; now left).
  assert (H2 : Z.of_nat (List.length (JsMap.values (toolUsages scenario_store))) < 2 ^ 32)
    by (vm_compute; reflexivity).
  split; [exact H1|]. split; [exact H2|].
  exact (getAnalytics_successRate_nearest scenario_store "pdf-to-word" H1 H2).
Defined.

(** C6 as stated fails: with 40 events of which 23 succeeded, [100 S / N] is
    57.5, which rounds to 58, but [(23 / 40) * 100] evaluates to
    57.49999999999999 in double arithmetic and the entry holds 57. *)
Lemma getAnalytics_successRate_not_rounded_quotient :
  toolStats (getAnalytics rate_store) = [mkStat "resize" "pdf" 40 57 0] /\
  group_size "resize" (JsMap.values (toolUsages rate_store)) = 40 /\
  group_successes "resize" (JsMap.values (toolUsages rate_store)) = 23 /\
  round_quotient (100 * 23) 40 = 58.
Proof. vm_compute. repeat split. Qed.

(** C1, as amended.  For a tool [X], [avgProcessingTime] is the sum of the
    processing times of the events of [X] that carry one, divided by the
    number of all the events of [X], with or without a processing time, and
    rounded to the nearest integer, a tie going up.  (Fewer than [2^32]
    events, and processing times whose absolute values sum to less than
    [2^52], so that the running total is exact.) *)
Theorem getAnalytics_avgProcessingTime_over_all_events :
  forall (st : MemStorage) (X : string),
    In X (map ToolUsage.toolName (JsMap.values (toolUsages st))) ->
    Z.of_nat (List.length (JsMap.values (toolUsages st))) < 2 ^ 32 ->
    sum_abs_times (JsMap.values (toolUsages st)) < 2 ^ 52 ->
    exists s,
      In s (toolStats (getAnalytics st)) /\
      name s = X /\
      avgProcessingTime s =
      round_quotient (group_time X (JsMap.values (toolUsages st)))
        (group_size X (JsMap.values (toolUsages st))).
Proof.
  intros st X HX Hlen Hsum. unfold getAnalytics.
  set (usages := JsMap.values (toolUsages st)) in *.
  exists (stat_of_acc (group_acc usages X)).
  split; [now apply stat_in_toolStats|]. split; [reflexivity|].
  pose proof (group_size_pos usages X HX) as HN.
  assert (HNle : group_size X usages <= Z.of_nat (List.length usages))
    by apply filter_length_le_Z.
  assert (Hg : sum_abs_times (group X usages) < 2 ^ 52).
  { eapply Z.le_lt_trans; [apply sum_abs_times_filter | exact Hsum]. }
  unfold stat_of_acc, group_acc; simpl.
  replace (0 <? group_size X usages) with true by (symmetry; apply Z.ltb_lt; exact HN).
  rewrite total_time_exact by lia.
  apply round_div_integers; [lia | lia |].
  eapply Z.le_lt_trans; [apply sum_times_bound | exact Hg].
Qed.

(** The amended C1 on the example scenario, for ["pdf-to-word"]. *)
Lemma getAnalytics_avgProcessingTime_over_all_events_witness :
  In "pdf-to-word"%string
     (map ToolUsage.toolName (JsMap.values (toolUsages scenario_store))) /\
  Z.of_nat (List.length (JsMap.values (toolUsages scenario_store))) < 2 ^ 32 /\
  sum_abs_times (JsMap.values (toolUsages scenario_store)) < 2 ^ 52 /\
  exists s,
    In s (toolStats (getAnalytics scenario_store)) /\
    name s = "pdf-to-word"%string /\
    avgProcessingTime s =
    round_quotient (group_time "pdf-to-word" (JsMap.values (toolUsages scenario_store)))
      (group_size "pdf-to-word" (JsMap.values (toolUsages scenario_store))).
Proof.
  assert (H1 : In "pdf-to-word"%string
                 (map ToolUsage.toolName (JsMap.values (toolUsages scenario_store))))
    by (vm_compute; now left).
  assert (H2 : Z.of_nat (List.length (JsMap.values (toolUsages scenario_store))) < 2 ^ 32)
    by (vm_compute; reflexivity).
  assert (H3 : sum_abs_times (JsMap.values (toolUsages scenario_store)) < 2 ^ 52)
    by (vm_compute; reflexivity).
  split; [exact H1|]. split; [exact H2|]. split; [exact H3|].
  exact (getAnalytics_avgProcessingTime_over_all_events scenario_store "pdf-to-word" H1 H2 H3).
Defined.

(** C1 as stated fails on the example scenario: the three timed events of
    ["pdf-to-word"] average to 100, but the entry holds 75, the total 300
    divided by all four events. *)
Lemma getAnalytics_avgProcessingTime_not_mean_of_timed :
  toolStats (getAnalytics scenario_store) =
    [mkStat "pdf-to-word" "pdf" 4 75 75; mkStat "merge-pdf" "pdf" 1 100 200] /\
  group_time "pdf-to-word" (JsMap.values (toolUsages scenario_store)) = 300 /\
  group_timed "pdf-to-word" (JsMap.values (toolUsages scenario_store)) = 3 /\
  round_quotient 300 3 = 100.
Proof. vm_compute. repeat split. Qed.

(* ================================================================== *)
(** ** More facts about maps *)

Module JsMapLaws.
Section Laws.
Context {V : Type}.
Implicit Types (m : JsMap.t V) (k : string) (v : V).

Lemma get_None_keys k m : JsMap.get k m = None <-> ~ In k (JsMap.keys m).
Proof.
  induction m as [|[k' v'] m IH]; simpl; [tauto|].
  destruct (String.eqb_spec k k') as [->|Hne].
  - split; [discriminate | intros H; exfalso; apply H; now left].
  - rewrite IH. split; [intros H [E|E]; [congruence | contradiction] | tauto].
Qed.

Lemma keys_set_present k v old m :
  JsMap.get k m = Some old -> JsMap.keys (JsMap.set k v m) = JsMap.keys m.
Proof.
  induction m as [|[k' v'] m IH]; simpl; [discriminate|].
  destruct (String.eqb_spec k k') as [->|Hne]; simpl; [reflexivity|].
  intros H. now rewrite IH.
Qed.

Lemma keys_set_fresh k v m :
  JsMap.get k m = None -> JsMap.keys (JsMap.set k v m) = JsMap.keys m ++ [k].
Proof.
  intros H. rewrite JsMapFacts.set_fresh by assumption.
  unfold JsMap.keys. now rewrite map_app.
Qed.

Lemma values_set_fresh k v m :
  JsMap.get k m = None -> JsMap.values (JsMap.set k v m) = JsMap.values m ++ [v].
Proof.
  intros H. rewrite JsMapFacts.set_fresh by assumption.
  unfold JsMap.values. now rewrite map_app.
Qed.

(** Overwriting a key replaces its value where it stands. *)
Lemma values_set_present k v old m :
  JsMap.get k m = Some old ->
  exists l1 l2,
    JsMap.values m = l1 ++ old :: l2 /\
    JsMap.values (JsMap.set k v m) = l1 ++ v :: l2.
Proof.
  induction m as [|[k' v'] m IH]; simpl; [discriminate|].
  destruct (String.eqb_spec k k') as [->|Hne]; simpl.
  - intros [= ->]. now exists [], (JsMap.values m).
  - intros H. destruct (IH H) as (l1 & l2 & E1 & E2).
    exists (v' :: l1), l2. simpl. now rewrite E1, E2.
Qed.

Lemma unique_keys_set k v m : unique_keys m -> unique_keys (JsMap.set k v m).
Proof.
  unfold unique_keys. intros Hm.
  destruct (JsMap.get k m) as [old|] eqn:E.
  - now rewrite (keys_set_present k v old m E).
  - rewrite (keys_set_fresh k v m E).
    apply NoDup_app; [exact Hm | repeat constructor; simpl; tauto |].
    intros x Hx [<-|[]]. now apply get_None_keys in E.
Qed.

Lemma remove_absent k m : JsMap.get k m = None -> JsMap.remove k m = m.
Proof.
  induction m as [|[k' v'] m IH]; simpl; [reflexivity|].
  destruct (String.eqb_spec k k'); [discriminate|].
  intros H. now rewrite IH.
Qed.

Lemma get_remove_other k k' m :
  k' <> k -> JsMap.get k' (JsMap.remove k m) = JsMap.get k' m.
Proof.
  intros Hne. induction m as [|[k0 v0] m IH]; simpl; [reflexivity|].
  destruct (String.eqb_spec k k0) as [->|Hk]; simpl.
  - destruct (String.eqb_spec k' k0); [contradiction | reflexivity].
  - now rewrite IH.
Qed.

Lemma get_remove_same k m :
  unique_keys m -> JsMap.get k (JsMap.remove k m) = None.
Proof.
  unfold unique_keys. induction m as [|[k' v'] m IH]; simpl; [reflexivity|].
  intros Hnd. apply NoDup_cons_iff in Hnd as [Hnotin Hnd].
  destruct (String.eqb_spec k k') as [->|Hne]; simpl.
  - now apply get_None_keys.
  - destruct (String.eqb_spec k k'); [contradiction|]. now apply IH.
Qed.

Lemma values_remove k v m :
  JsMap.get k m = Some v ->
  exists l1 l2,
    JsMap.values m = l1 ++ v :: l2 /\ JsMap.values (JsMap.remove k m) = l1 ++ l2.
Proof.
  induction m as [|[k' v'] m IH]; simpl; [discriminate|].
  destruct (String.eqb_spec k k') as [->|Hne]; simpl.
  - intros [= ->]. now exists [], (JsMap.values m).
  - intros H. destruct (IH H) as (l1 & l2 & E1 & E2).
    exists (v' :: l1), l2. simpl. now rewrite E1, E2.
Qed.

Lemma keys_remove_subset k m x :
  In x (JsMap.keys (JsMap.remove k m)) -> In x (JsMap.keys m).
Proof.
  induction m as [|[k' v'] m IH]; simpl; [tauto|].
  destruct (String.eqb k k'); simpl; [tauto|].
  intros [E|H]; [now left | right; now apply IH].
Qed.

Lemma unique_keys_remove k m : unique_keys m -> unique_keys (JsMap.remove k m).
Proof.
  unfold unique_keys. induction m as [|[k' v'] m IH]; simpl; [trivial|].
  intros Hnd. apply NoDup_cons_iff in Hnd as [Hnotin Hnd].
  destruct (String.eqb k k'); simpl; [exact Hnd|].
  constructor; [|now apply IH].
  intros H. apply Hnotin. eapply keys_remove_subset, H.
Qed.

End Laws.
End JsMapLaws.

(* ================================================================== *)
(** ** User management beyond the claims *)

(** X1.  [updateUser] on an identifier that is not stored answers
    [undefined] and leaves the store exactly as it was. *)
Theorem updateUser_unknown_id :
  forall (st : MemStorage) (id : string) (now : Z) (updates : User.partial),
    getUser id st = None ->
    updateUser id now updates st = (None, st).
Proof.
  intros st id now updates H. unfold updateUser. unfold getUser in H. now rewrite H.
Qed.

Lemma updateUser_unknown_id_witness :
  getUser "nobody" new_maps = None /\
  updateUser "nobody" 5 (User.mkPartial None (Some "x"%string) None None None None None)
    new_maps = (None, new_maps).
Proof.
  split; [reflexivity|].
  exact (updateUser_unknown_id new_maps "nobody" 5 _ eq_refl).
Defined.

(** X2.  [updateUser] on a stored identifier returns the merged record and
    stores it under the key that was looked up.  Every field of the record
    is pinned: [id], [username], [email], [password], [role] and
    [createdAt] are those of the update where it supplies them and those of
    the stored user where it does not, and [updatedAt] is the time of the
    call even when the update carries an [updatedAt] of its own.  The key
    is the one looked up even when the update supplies another [id].  No
    user is added or removed or moved, every other user is untouched, and
    so are the two other collections. *)
Theorem updateUser_stored_id :
  forall (st : MemStorage) (id : string) (now : Z) (updates : User.partial)
         (user : User.t),
    getUser id st = Some user ->
    exists updated st',
      updateUser id now updates st = (Some updated, st') /\
      getUser id st' = Some updated /\
      updated =
        User.mk
          (match User.p_id updates with Some v => v | None => User.id user end)
          (match User.p_username updates with Some v => v | None => User.username user end)
          (match User.p_email updates with Some v => v | None => User.email user end)
          (match User.p_password updates with Some v => v | None => User.password user end)
          (match User.p_role updates with Some v => v | None => User.role user end)
          (match User.p_createdAt updates with Some v => v | None => User.createdAt user end)
          now /\
      JsMap.keys (users st') = JsMap.keys (users st) /\
      (forall id', id' <> id -> getUser id' st' = getUser id' st) /\
      toolUsages st' = toolUsages st /\
      adSlots st' = adSlots st.
Proof.
  intros st id now updates user H. unfold getUser in H.
  unfold updateUser. rewrite H.
  eexists _, _. split; [reflexivity|].
  unfold getUser; simpl.
  repeat split.
  - apply JsMapFacts.get_set_same.
  - eapply JsMapLaws.keys_set_present, H.
  - intros id' Hne. now apply JsMapFacts.get_set_other.
Qed.

Lemma updateUser_stored_id_witness :
  let st :=
    snd (createUser (B := toy_bcrypt) "id-1" "s1" 10
           (User.mkInsert "alice" "alice@example.com" "secret" None) new_maps) in
  let user := User.mk "id-1" "alice" "alice@example.com" "s1$secret" "user" 10 10 in
  let updates := User.mkPartial (Some "id-9"%string) None (Some "a@example.com"%string)
                   None (Some "admin"%string) None (Some 0) in
  getUser "id-1" st = Some user /\
  exists updated st',
    updateUser "id-1" 20 updates st = (Some updated, st') /\
    getUser "id-1" st' = Some updated /\
    updated = User.mk "id-9" "alice" "a@example.com" "s1$secret" "admin" 10 20 /\
    JsMap.keys (users st') = JsMap.keys (users st) /\
    (forall id', id' <> "id-1"%string -> getUser id' st' = getUser id' st) /\
    toolUsages st' = toolUsages st /\
    adSlots st' = adSlots st.
Proof.
  intros st user updates. split; [reflexivity|].
  exact (updateUser_stored_id st "id-1" 20 updates user eq_refl).
Defined.

(** X3.  [getUserByEmail] and [getUserByUsername] answer with a stored user
    that has the email (the username) asked for, the one stored first when
    there are several, and answer [undefined] exactly when no stored user
    has it. *)
Theorem getUserBy_first_match :
  forall (st : MemStorage) (key : string),
    (match getUserByEmail key st with
     | Some u =>
         exists before after,
           JsMap.values (users st) = before ++ u :: after /\
           User.email u = key /\
           (forall v, In v before -> User.email v <> key)
     | None => forall v, In v (JsMap.values (users st)) -> User.email v <> key
     end) /\
    (match getUserByUsername key st with
     | Some u =>
         exists before after,
           JsMap.values (users st) = before ++ u :: after /\
           User.username u = key /\
           (forall v, In v before -> User.username v <> key)
     | None => forall v, In v (JsMap.values (users st)) -> User.username v <> key
     end).
Proof.
  assert (Hfind : forall (f : User.t -> string) (key : string) (l : list User.t),
             match find (fun user => String.eqb (f user) key) l with
             | Some u =>
                 exists before after,
                   l = before ++ u :: after /\ f u = key /\
                   (forall v, In v before -> f v <> key)
             | None => forall v, In v l -> f v <> key
             end).
  { intros f key l. induction l as [|x l IH]; simpl; [tauto|].
    destruct (String.eqb_spec (f x) key) as [E|E].
    - exists [], l. repeat split; [assumption | intros v []].
    - destruct (find _ l) as [u|].
      + destruct IH as (before & after & -> & Hu & Hb).
        exists (x :: before), after. repeat split; [assumption|].
        intros v [<-|Hv]; [assumption | now apply Hb].
      + intros v [<-|Hv]; [assumption | now apply IH]. }
  intros st key. split.
  - apply (Hfind User.email).
  - apply (Hfind User.username).
Qed.

(** X4.  [createUser] under an identifier that is not yet stored adds the
    new user after all the stored ones and touches nothing else. *)
Theorem createUser_fresh_id_appends :
  forall (B : Bcrypt) (st : MemStorage) (id salt : string) (now : Z)
         (iu : User.insert),
    getUser id st = None ->
    let (user, st') := createUser id salt now iu st in
    JsMap.values (users st') = JsMap.values (users st) ++ [user] /\
    JsMap.keys (users st') = JsMap.keys (users st) ++ [id] /\
    User.id user = id /\
    toolUsages st' = toolUsages st /\
    adSlots st' = adSlots st.
Proof.
  intros B st id salt now iu H. unfold getUser in H. unfold createUser; simpl.
  repeat split.
  - now apply JsMapLaws.values_set_fresh.
  - now apply JsMapLaws.keys_set_fresh.
Qed.

Lemma createUser_fresh_id_appends_witness :
  getUser "id-1" new_maps = None /\
  let (user, st') :=
    createUser (B := toy_bcrypt) "id-1" "s1" 10
      (User.mkInsert "alice" "alice@example.com" "secret" None) new_maps in
  JsMap.values (users st') = JsMap.values (users new_maps) ++ [user] /\
  JsMap.keys (users st') = JsMap.keys (users new_maps) ++ ["id-1"%string] /\
  User.id user = "id-1"%string /\
  toolUsages st' = toolUsages new_maps /\
  adSlots st' = adSlots new_maps.
Proof.
  split; [reflexivity|].
  exact (createUser_fresh_id_appends toy_bcrypt new_maps "id-1" "s1" 10
           (User.mkInsert "alice" "alice@example.com" "secret" None) eq_refl).
Defined.

(* ================================================================== *)
(** ** The routes over users *)

Lemma getUserByEmail_None (key : string) (st : MemStorage) :
  getUserByEmail key st = None <->
  forall v, In v (JsMap.values (users st)) -> User.email v <> key.
Proof.
  unfold getUserByEmail. rewrite find_none_iff.
  split; intros H v Hv; specialize (H v Hv); now apply String.eqb_neq.
Qed.

Lemma getUserByEmail_created {B : Bcrypt} id salt now iu st :
  getUserByEmail (User.i_email iu) st = None ->
  getUserByEmail (User.i_email iu) (snd (createUser id salt now iu st)) =
  Some (fst (createUser id salt now iu st)).
Proof.
  intros H. pose proof (proj1 (getUserByEmail_None _ _) H) as H'.
  unfold getUserByEmail, createUser; simpl.
  apply (find_email_set id
           (User.mk id (User.i_username iu) (User.i_email iu)
              (bcrypt_hash (User.i_password iu) salt)
              (role_or_user (User.i_role iu)) now now)).
  exact H'.
Qed.

(** X5.  Registration followed by login.  When no stored user has the email
    of the body, [register] answers with the new user (role ["user"], the
    username and email of the body) and stores it.  What a later login with
    that email answers: 400 for every password when the login schema does
    not take the email for one, and 400 for the empty password, although
    registration accepted both; otherwise the new user for the password of
    the body and for every password with the same first 72 bytes, and for
    any other password the new user or 401 as [bcrypt.compare] accepts or
    rejects it against the stored digest. *)
Theorem register_then_login :
  forall (B : Bcrypt) (Laws : BcryptLaws B) (V : Zod) (st : MemStorage)
         (id salt : string) (now : Z) (body : RegisterBody),
    getUserByEmail (rb_email body) st = None ->
    exists user st',
      register id salt now (Some body) st = (RegisterOk (User.without_password user), st') /\
      getUser id st' = Some user /\
      User.role user = "user"%string /\
      User.username user = rb_username body /\
      User.email user = rb_email body /\
      (zod_email (rb_email body) = false ->
       forall p, login (Some (mkLoginBody (rb_email body) p)) st' =
                 Failure 400 "Invalid login data") /\
      login (Some (mkLoginBody (rb_email body) "")) st' =
        Failure 400 "Invalid login data" /\
      (zod_email (rb_email body) = true ->
       (rb_password body <> ""%string ->
        login (Some (mkLoginBody (rb_email body) (rb_password body))) st' =
        Json (User.without_password user)) /\
       (forall p, p <> ""%string -> bcrypt_key p = bcrypt_key (rb_password body) ->
                  login (Some (mkLoginBody (rb_email body) p)) st' =
                  Json (User.without_password user)) /\
       (forall p, p <> ""%string ->
                  login (Some (mkLoginBody (rb_email body) p)) st' =
                  if bcrypt_compare p (User.password user)
                  then Json (User.without_password user)
                  else Failure 401 "Invalid credentials")).
Proof.
  intros B Laws V st id salt now body Hnew.
  set (iu := User.mkInsert (rb_username body) (rb_email body) (rb_password body) None).
  pose proof (getUserByEmail_created id salt now iu st Hnew) as Hfound.
  unfold register. rewrite Hnew. fold iu.
  destruct (createUser id salt now iu st) as [user st'] eqn:E.
  simpl in Hfound.
  assert (Hu : user = User.mk id (rb_username body) (rb_email body)
                        (bcrypt_hash (rb_password body) salt) "user" now now)
    by (unfold createUser in E; now injection E as <- _).
  exists user, st'. split; [reflexivity|].
  split.
  { pose proof (createUser_stored id salt now iu st) as Hs. now rewrite E in Hs. }
  split; [now rewrite Hu|]. split; [now rewrite Hu|]. split; [now rewrite Hu|].
  change (User.i_email iu) with (rb_email body) in Hfound.
  assert (Hpw : User.password user = bcrypt_hash (rb_password body) salt)
    by now rewrite Hu.
  assert (Hlen : forall p, p <> ""%string -> (1 <=? String.length p)%nat = true)
    by (intros [|c p] Hp; [congruence | reflexivity]).
  assert (Hlogin : forall p, p <> ""%string -> zod_email (rb_email body) = true ->
             login (Some (mkLoginBody (rb_email body) p)) st' =
             if bcrypt_compare p (User.password user)
             then Json (User.without_password user)
             else Failure 401 "Invalid credentials").
  { intros p Hp Hmail. unfold login, loginSchema_parse, authenticateUser.
    cbn [lb_email lb_password]. rewrite Hmail, (Hlen p Hp). cbn [andb lb_email lb_password].
    rewrite Hfound. now destruct (bcrypt_compare p (User.password user)). }
  split; [|split; [|intros Hmail; split; [|split]]].
  - intros Hmail p. unfold login, loginSchema_parse. cbn [lb_email lb_password].
    now rewrite Hmail.
  - unfold login, loginSchema_parse. cbn [lb_email lb_password String.length Nat.leb].
    now rewrite Bool.andb_false_r.
  - intros Hp. rewrite (Hlogin _ Hp Hmail), Hpw, bcrypt_compare_key; reflexivity.
  - intros p Hp Hkey. rewrite (Hlogin _ Hp Hmail), Hpw, bcrypt_compare_key;
      [reflexivity | exact Hkey].
  - intros p Hp. now apply Hlogin.
Qed.

Lemma register_then_login_witness :
  let body := mkRegisterBody "bob" "bob@example.com" "pw" in
  getUserByEmail (rb_email body) new_maps = None /\
  exists user st',
    register (B := toy_bcrypt) "id-1" "s1" 10 (Some body) new_maps =
      (RegisterOk (User.without_password user), st') /\
    getUser "id-1" st' = Some user /\
    User.role user = "user"%string /\
    User.username user = rb_username body /\
    User.email user = rb_email body /\
    (zod_email (Zod := toy_zod) (rb_email body) = false ->
     forall p, login (B := toy_bcrypt) (V := toy_zod)
                 (Some (mkLoginBody (rb_email body) p)) st' =
               Failure 400 "Invalid login data") /\
    login (B := toy_bcrypt) (V := toy_zod) (Some (mkLoginBody (rb_email body) "")) st' =
      Failure 400 "Invalid login data" /\
    (zod_email (Zod := toy_zod) (rb_email body) = true ->
     (rb_password body <> ""%string ->
      login (B := toy_bcrypt) (V := toy_zod)
        (Some (mkLoginBody (rb_email body) (rb_password body))) st' =
      Json (User.without_password user)) /\
     (forall p, p <> ""%string -> bcrypt_key p = bcrypt_key (rb_password body) ->
                login (B := toy_bcrypt) (V := toy_zod)
                  (Some (mkLoginBody (rb_email body) p)) st' =
                Json (User.without_password user)) /\
     (forall p, p <> ""%string ->
                login (B := toy_bcrypt) (V := toy_zod)
                  (Some (mkLoginBody (rb_email body) p)) st' =
                if bcrypt_compare (Bcrypt := toy_bcrypt) p (User.password user)
                then Json (User.without_password user)
                else Failure 401 "Invalid credentials")).
Proof.
  intros body. split; [reflexivity|].
  exact (register_then_login toy_bcrypt toy_bcrypt_laws toy_zod new_maps
           "id-1" "s1" 10 body eq_refl).
Defined.

(** X6.  After any registration attempt with a body that parses, accepted
    or not, a further attempt with the same email is answered 409 and
    changes nothing. *)
Theorem register_same_email_again :
  forall (B : Bcrypt) (st : MemStorage) (id1 salt1 : string) (now1 : Z)
         (body1 : RegisterBody) (id2 salt2 : string) (now2 : Z)
         (username2 password2 : string),
    let st1 := snd (register id1 salt1 now1 (Some body1) st) in
    register id2 salt2 now2
      (Some (mkRegisterBody username2 (rb_email body1) password2)) st1 =
    (RegisterConflict, st1).
Proof.
  intros B st id1 salt1 now1 body1 id2 salt2 now2 username2 password2 st1.
  assert (Hhas : exists u, getUserByEmail (rb_email body1) st1 = Some u).
  { subst st1. unfold register.
    destruct (getUserByEmail (rb_email body1) st) as [u|] eqn:E.
    - exists u. exact E.
    - set (iu := User.mkInsert (rb_username body1) (rb_email body1) (rb_password body1) None).
      pose proof (getUserByEmail_created id1 salt1 now1 iu st E) as Hfound.
      destruct (createUser id1 salt1 now1 iu st) as [user st'] eqn:Ec.
      exists user. exact Hfound. }
  destruct Hhas as [u Hu]. unfold register. simpl rb_email. now rewrite Hu.
Qed.

(** X7.  Registration cannot make an administrator: every user with role
    ["admin"] in the store after [register] was stored, identical and under
    the same identifier, before it. *)
Theorem register_makes_no_admin :
  forall (B : Bcrypt) (st : MemStorage) (id salt : string) (now : Z)
         (body : option RegisterBody) (id' : string) (u : User.t),
    getUser id' (snd (register id salt now body st)) = Some u ->
    User.role u = "admin"%string ->
    getUser id' st = Some u.
Proof.
  intros B st id salt now body id' u Hget Hrole.
  unfold register in Hget.
  destruct body as [body|]; [|exact Hget].
  destruct (getUserByEmail (rb_email body) st); [exact Hget|].
  set (iu := User.mkInsert (rb_username body) (rb_email body) (rb_password body) None) in *.
  pose proof (createUser_stored id salt now iu st) as Hs.
  pose proof (createUser_others id salt now iu st) as Ho.
  destruct (createUser id salt now iu st) as [user st'] eqn:E.
  simpl in Hget, Hs, Ho.
  destruct (String.eqb_spec id' id) as [->|Hne].
  - rewrite Hs in Hget. injection Hget as <-.
    unfold createUser in E. injection E as <- _. discriminate Hrole.
  - now rewrite <- (Ho id' Hne).
Qed.

Lemma register_makes_no_admin_witness :
  let st := initializeAdminUser (B := toy_bcrypt) "root" "s0" 1 new_maps in
  let admin := User.mk "root" "admin" "admin@toolsuitepro.com" "s0$admin123" "admin" 1 1 in
  let st' := snd (register (B := toy_bcrypt) "id-1" "s1" 10
                    (Some (mkRegisterBody "admin" "eve@example.com" "pw")) st) in
  getUser "root" st' = Some admin /\
  User.role admin = "admin"%string /\
  getUser "root" st = Some admin.
Proof.
  intros st admin st'.
  assert (H1 : getUser "root" st' = Some admin) by reflexivity.
  assert (H2 : User.role admin = "admin"%string) by reflexivity.
  split; [exact H1|]. split; [exact H2|].
  exact (register_makes_no_admin toy_bcrypt st "id-1" "s1" 10 _ "root" admin H1 H2).
Defined.



Lemma storage_eta (st : MemStorage) :
  mkStorage (users st) (toolUsages st) (adSlots st) = st.
Proof. now destruct st. Qed.

Lemma NoDup_map_replace {A K : Type} (f : A -> K) (l1 l2 : list A) (old new : A) :
  NoDup (map f (l1 ++ old :: l2)) ->
  (forall v, In v (l1 ++ old :: l2) -> f v <> f new) ->
  NoDup (map f (l1 ++ new :: l2)).
Proof.
  intros Hnd Hnew. rewrite map_app in *. simpl in *.
  apply NoDup_remove in Hnd as [Hnd Hold].
  eapply Permutation_NoDup; [apply Permutation_middle|].
  constructor; [|exact Hnd].
  rewrite <- map_app. intros Hin. apply in_map_iff in Hin as (v & Hv & Hin).
  apply (Hnew v); [|exact Hv].
  apply in_app_iff in Hin as [H|H]; apply in_app_iff; [now left | right; now right].
Qed.

Lemma NoDup_map_In_inj {A K : Type} (f : A -> K) (l : list A) (a b : A) :
  NoDup (map f l) -> In a l -> In b l -> f a = f b -> a = b.
Proof.
  induction l as [|x l IH]; simpl; [tauto|].
  intros Hnd Ha Hb E. apply NoDup_cons_iff in Hnd as [Hx Hnd].
  destruct Ha as [<-|Ha], Hb as [<-|Hb]; [reflexivity | | |now apply IH].
  - exfalso. apply Hx. rewrite E. now apply in_map.
  - exfalso. apply Hx. rewrite <- E. now apply in_map.
Qed.

(** X9.  Registration keeps emails unique only while requests do not
    overlap.  On a store in which no two users share an email: a
    registration served with no other request between its email check and
    its write (which is [register]) leaves the emails unique, whatever the
    request; but when two registrations with the same unused email overlap,
    the second being checked before the first has written, both pass the
    check, both are answered with the new user, and the store ends with two
    users sharing the email. *)
Theorem register_emails_unique_unless_overlapping :
  forall (B : Bcrypt) (st : MemStorage),
    unique_emails st ->
    (forall (id salt : string) (now : Z) (body : option RegisterBody),
        register id salt now body st =
          match register_check body st with
          | inl reply => (reply, st)
          | inr checked => register_store id salt now checked st
          end /\
        unique_emails (snd (register id salt now body st))) /\
    (forall (id1 salt1 id2 salt2 : string) (now1 now2 : Z) (body1 body2 : RegisterBody),
        id1 <> id2 ->
        rb_email body1 = rb_email body2 ->
        getUserByEmail (rb_email body1) st = None ->
        register_check (Some body1) st = inr body1 /\
        register_check (Some body2) st = inr body2 /\
        exists user1 st1 user2 st2,
          register_store id1 salt1 now1 body1 st = (RegisterOk user1, st1) /\
          register_store id2 salt2 now2 body2 st1 = (RegisterOk user2, st2) /\
          User.r_email user1 = User.r_email user2 /\
          User.r_id user1 <> User.r_id user2 /\
          ~ unique_emails st2).
Proof.
  intros B st Hu. split.
  - intros id salt now body. split.
    { unfold register, register_check, register_store.
      destruct body as [body|]; [|reflexivity].
      now destruct (getUserByEmail (rb_email body) st). }
    unfold register.
    destruct body as [body|]; [|exact Hu].
    destruct (getUserByEmail (rb_email body) st) as [u|] eqn:E; [exact Hu|].
    pose proof (proj1 (getUserByEmail_None _ _) E) as Hnew.
    unfold unique_emails, createUser in *; simpl.
    set (user := User.mk id (rb_username body) (rb_email body)
                   (bcrypt_hash (rb_password body) salt) "user" now now).
    destruct (JsMap.get id (users st)) as [old|] eqn:Eg.
    + destruct (JsMapLaws.values_set_present id user old (users st) Eg)
        as (l1 & l2 & E1 & E2).
      rewrite E2. rewrite E1 in Hu, Hnew.
      apply (NoDup_map_replace User.email l1 l2 old user Hu).
      intros v Hv. now apply Hnew.
    + rewrite (JsMapLaws.values_set_fresh id user (users st) Eg), map_app. simpl.
      apply NoDup_app; [exact Hu | repeat constructor; simpl; tauto |].
      intros e He [<-|[]]. apply in_map_iff in He as (v & Hv & Hin).
      now apply (Hnew v).
  - intros id1 salt1 id2 salt2 now1 now2 body1 body2 Hid Hmail Hnew.
    split; [unfold register_check; now rewrite Hnew|].
    split; [unfold register_check; now rewrite <- Hmail, Hnew|].
    unfold register_store, createUser.
    set (u1 := User.mk id1 (rb_username body1) (rb_email body1)
                 (bcrypt_hash (rb_password body1) salt1) "user" now1 now1).
    set (u2 := User.mk id2 (rb_username body2) (rb_email body2)
                 (bcrypt_hash (rb_password body2) salt2) "user" now2 now2).
    eexists _, _, _, _. split; [reflexivity|]. split; [reflexivity|].
    split; [exact Hmail|]. split; [exact Hid|].
    unfold unique_emails. cbn [users set_users]. intros Hnd.
    set (m1 := JsMap.set id1 u1 (users st)) in *.
    assert (H1 : In u1 (JsMap.values (JsMap.set id2 u2 m1))).
    { apply (JsMapFacts.get_In id1).
      rewrite JsMapFacts.get_set_other by exact Hid.
      apply JsMapFacts.get_set_same. }
    assert (H2 : In u2 (JsMap.values (JsMap.set id2 u2 m1))).
    { apply (JsMapFacts.get_In id2). apply JsMapFacts.get_set_same. }
    assert (E : u1 = u2) by (apply (NoDup_map_In_inj User.email _ u1 u2 Hnd H1 H2); exact Hmail).
    apply Hid. change (User.id u1 = User.id u2). now rewrite E.
Qed.

Lemma register_emails_unique_unless_overlapping_witness :
  let st := initializeAdminUser (B := toy_bcrypt) "root" "s0" 1 new_maps in
  unique_emails st /\
  (forall (id salt : string) (now : Z) (body : option RegisterBody),
      register (B := toy_bcrypt) id salt now body st =
        match register_check body st with
        | inl reply => (reply, st)
        | inr checked => register_store (B := toy_bcrypt) id salt now checked st
        end /\
      unique_emails (snd (register (B := toy_bcrypt) id salt now body st))) /\
  (forall (id1 salt1 id2 salt2 : string) (now1 now2 : Z) (body1 body2 : RegisterBody),
      id1 <> id2 ->
      rb_email body1 = rb_email body2 ->
      getUserByEmail (rb_email body1) st = None ->
      register_check (Some body1) st = inr body1 /\
      register_check (Some body2) st = inr body2 /\
      exists user1 st1 user2 st2,
        register_store (B := toy_bcrypt) id1 salt1 now1 body1 st = (RegisterOk user1, st1) /\
        register_store (B := toy_bcrypt) id2 salt2 now2 body2 st1 = (RegisterOk user2, st2) /\
        User.r_email user1 = User.r_email user2 /\
        User.r_id user1 <> User.r_id user2 /\
        ~ unique_emails st2).
Proof.
  intros st.
  assert (H : unique_emails st) by (repeat constructor; simpl; tauto).
  split; [exact H|].
  exact (register_emails_unique_unless_overlapping toy_bcrypt st H).
Defined.

(** X10.  The two routes that write users keep every user stored under its
    own identifier: if each stored user's [id] is its key before [register]
    or a profile request, the same holds after. *)
Theorem user_routes_keep_id_as_key :
  forall (B : Bcrypt) (st : MemStorage),
    keyed_by_id st ->
    (forall id salt now body, keyed_by_id (snd (register id salt now body st))) /\
    (forall userId now body, keyed_by_id (snd (updateProfile userId now body st))).
Proof.
  intros B st Hk. split.
  - intros id salt now body. unfold register.
    destruct body as [body|]; [|exact Hk].
    destruct (getUserByEmail (rb_email body) st); [exact Hk|].
    unfold keyed_by_id, createUser; simpl. intros k u.
    destruct (String.eqb_spec k id) as [->|Hne].
    + rewrite JsMapFacts.get_set_same. now intros [= <-].
    + rewrite JsMapFacts.get_set_other by assumption. apply Hk.
  - intros userId now body. unfold updateProfile.
    destruct body as [body|]; [|exact Hk].
    destruct userId as [userId|]; [|exact Hk].
    destruct (truthy_string userId); [|exact Hk].
    unfold updateUser.
    destruct (JsMap.get userId (users st)) as [user|] eqn:Eu; [|exact Hk].
    unfold keyed_by_id; simpl. intros k u.
    destruct (String.eqb_spec k userId) as [->|Hne].
    + rewrite JsMapFacts.get_set_same. intros [= <-]. simpl. now apply Hk.
    + rewrite JsMapFacts.get_set_other by assumption. apply Hk.
Qed.

Lemma user_routes_keep_id_as_key_witness :
  let st := initializeAdminUser (B := toy_bcrypt) "root" "s0" 1 new_maps in
  keyed_by_id st /\
  (forall id salt now body,
      keyed_by_id (snd (register (B := toy_bcrypt) id salt now body st))) /\
  (forall userId now body, keyed_by_id (snd (updateProfile userId now body st))).
Proof.
  intros st.
  assert (H : keyed_by_id st).
  { intros k u. unfold st, initializeAdminUser; simpl.
    destruct (String.eqb_spec k "root") as [->|Hne]; [|discriminate].
    now intros [= <-]. }
  split; [exact H|].
  exact (user_routes_keep_id_as_key toy_bcrypt st H).
Defined.

(** X11.  A writing route that does not answer with success has changed
    nothing: for registration, profile update, usage tracking and the three
    administrative ad-slot routes, every answer other than the 200 one
    comes with the store as it was. *)
Theorem failed_requests_change_nothing :
  forall (B : Bcrypt) (st : MemStorage) (id salt : string) (now : Z),
    (forall body,
        match register id salt now body st with
        | (RegisterOk _, _) => True
        | (_, st') => st' = st
        end) /\
    (forall userId body,
        match updateProfile userId now body st with
        | (ProfileOk _, _) => True
        | (_, st') => st' = st
        end) /\
    (forall body,
        match postToolUsage id now body st with
        | (Json _, _) => True
        | (Failure _ _, st') => st' = st
        end) /\
    (forall userRole body,
        match adminCreateAdSlot userRole id now body st with
        | (Json _, _) => True
        | (Failure _ _, st') => st' = st
        end) /\
    (forall userRole updates,
        match adminUpdateAdSlot userRole id updates st with
        | (Json _, _) => True
        | (Failure _ _, st') => st' = st
        end) /\
    (forall userRole,
        match adminDeleteAdSlot userRole id st with
        | (Json _, _) => True
        | (Failure _ _, st') => st' = st
        end).
Proof.
  intros B st id salt now. repeat split.
  - intros body. unfold register.
    destruct body as [body|]; [|reflexivity].
    destruct (getUserByEmail (rb_email body) st); [reflexivity|].
    now destruct (createUser _ _ _ _ _).
  - intros userId body. unfold updateProfile.
    destruct body as [body|]; [|reflexivity].
    destruct userId as [userId|]; [|reflexivity].
    destruct (truthy_string userId); [|reflexivity].
    unfold updateUser. now destruct (JsMap.get userId (users st)).
  - intros body. unfold postToolUsage.
    destruct body; [|reflexivity]. now destruct (createToolUsage _ _ _ _).
  - intros userRole body. unfold adminCreateAdSlot.
    destruct (is_admin userRole); [|reflexivity].
    destruct body; [|reflexivity]. now destruct (createAdSlot _ _ _ _).
  - intros userRole updates. unfold adminUpdateAdSlot.
    destruct (is_admin userRole); [|reflexivity].
    unfold updateAdSlot. now destruct (JsMap.get id (adSlots st)).
  - intros userRole. unfold adminDeleteAdSlot.
    destruct (is_admin userRole); [|reflexivity].
    unfold deleteAdSlot, JsMap.delete, JsMap.has.
    destruct (JsMap.get id (adSlots st)) eqn:E; [exact I|].
    unfold set_adSlots. rewrite (JsMapLaws.remove_absent id (adSlots st) E).
    apply storage_eta.
Qed.

(** X12.  Without the role header ["admin"], each of the five
    administrative routes answers 403 "Admin access required" and leaves
    the store as it was, whatever else the request holds. *)
Theorem admin_routes_need_admin_role :
  forall (st : MemStorage) (userRole : option string),
    userRole <> Some "admin"%string ->
    adminAnalytics userRole st = Failure 403 "Admin access required" /\
    adminListAdSlots userRole st = Failure 403 "Admin access required" /\
    (forall id now body,
        adminCreateAdSlot userRole id now body st =
        (Failure 403 "Admin access required", st)) /\
    (forall id updates,
        adminUpdateAdSlot userRole id updates st =
        (Failure 403 "Admin access required", st)) /\
    (forall id,
        adminDeleteAdSlot userRole id st =
        (Failure 403 "Admin access required", st)).
Proof.
  intros st userRole Hno.
  assert (H : is_admin userRole = false).
  { unfold is_admin. destruct userRole as [r|]; [|reflexivity].
    apply String.eqb_neq. congruence. }
  unfold adminAnalytics, adminListAdSlots, adminCreateAdSlot, adminUpdateAdSlot,
    adminDeleteAdSlot.
  rewrite H. repeat split.
Qed.

Lemma admin_routes_need_admin_role_witness :
  Some "user"%string <> Some "admin"%string /\
  adminAnalytics (Some "user"%string) scenario_store =
    Failure 403 "Admin access required" /\
  adminListAdSlots (Some "user"%string) scenario_store =
    Failure 403 "Admin access required" /\
  (forall id now body,
      adminCreateAdSlot (Some "user"%string) id now body scenario_store =
      (Failure 403 "Admin access required", scenario_store)) /\
  (forall id updates,
      adminUpdateAdSlot (Some "user"%string) id updates scenario_store =
      (Failure 403 "Admin access required", scenario_store)) /\
  (forall id,
      adminDeleteAdSlot (Some "user"%string) id scenario_store =
      (Failure 403 "Admin access required", scenario_store)).
Proof.
  assert (H : Some "user"%string <> Some "admin"%string) by discriminate.
  split; [exact H|].
  exact (admin_routes_need_admin_role scenario_store (Some "user"%string) H).
Defined.

(* ================================================================== *)
(** ** Ad slots beyond the claims *)

(** X13.  [deleteAdSlot] on a stored identifier answers [true] and removes
    that slot and nothing else: the listing keeps the other slots in their
    order, the identifier is no longer found, and a second [deleteAdSlot]
    of it answers [false] and changes nothing. *)
Theorem deleteAdSlot_stored_id :
  forall (st : MemStorage) (id : string) (slot : AdSlot.t),
    unique_keys (adSlots st) ->
    JsMap.get id (adSlots st) = Some slot ->
    exists st',
      deleteAdSlot id st = (true, st') /\
      JsMap.get id (adSlots st') = None /\
      (forall id', id' <> id -> JsMap.get id' (adSlots st') = JsMap.get id' (adSlots st)) /\
      (exists l1 l2, getAdSlots st = l1 ++ slot :: l2 /\ getAdSlots st' = l1 ++ l2) /\
      users st' = users st /\
      toolUsages st' = toolUsages st /\
      deleteAdSlot id st' = (false, st').
Proof.
  intros st id slot Hu Hget.
  exists (set_adSlots st (JsMap.remove id (adSlots st))).
  pose proof (JsMapLaws.get_remove_same id (adSlots st) Hu) as Hgone.
  unfold deleteAdSlot, JsMap.delete, JsMap.has. rewrite Hget. simpl.
  rewrite Hgone.
  repeat split.
  - intros id' Hne. now apply JsMapLaws.get_remove_other.
  - unfold getAdSlots; simpl. apply (JsMapLaws.values_remove id slot _ Hget).
  - unfold set_adSlots; simpl. f_equal. f_equal.
    now apply JsMapLaws.remove_absent.
Qed.

Lemma deleteAdSlot_stored_id_witness :
  let st := initializeDefaultAdSlots ["a"; "b"; "c"]%string 1 new_maps in
  let slot := AdSlot.mk "b" "PDF Tools Banner" "pdf-tools-top" "pdf-tools" (Some true)
                (Some "google-adsense"%string)
                (Some "<!-- Google AdSense code here -->"%string)
                (Some [("size", "728x90")]%string) 1 in
  unique_keys (adSlots st) /\
  JsMap.get "b" (adSlots st) = Some slot /\
  exists st',
    deleteAdSlot "b" st = (true, st') /\
    JsMap.get "b" (adSlots st') = None /\
    (forall id', id' <> "b"%string ->
                 JsMap.get id' (adSlots st') = JsMap.get id' (adSlots st)) /\
    (exists l1 l2, getAdSlots st = l1 ++ slot :: l2 /\ getAdSlots st' = l1 ++ l2) /\
    users st' = users st /\
    toolUsages st' = toolUsages st /\
    deleteAdSlot "b" st' = (false, st').
Proof.
  intros st slot.
  assert (H1 : unique_keys (adSlots st)).
  { repeat constructor; simpl; intuition discriminate. }
  assert (H2 : JsMap.get "b" (adSlots st) = Some slot) by reflexivity.
  split; [exact H1|]. split; [exact H2|].
  exact (deleteAdSlot_stored_id st "b" slot H1 H2).
Defined.

(** X14.  [deleteAdSlot] and [updateAdSlot] on an identifier that is not
    stored answer [false] and [undefined] and leave the store as it was. *)
Theorem adSlot_unknown_id :
  forall (st : MemStorage) (id : string),
    JsMap.get id (adSlots st) = None ->
    deleteAdSlot id st = (false, st) /\
    (forall updates, updateAdSlot id updates st = (None, st)).
Proof.
  intros st id H. split.
  - unfold deleteAdSlot, JsMap.delete, JsMap.has. rewrite H.
    unfold set_adSlots. rewrite (JsMapLaws.remove_absent id _ H).
    f_equal. apply storage_eta.
  - intros updates. unfold updateAdSlot. now rewrite H.
Qed.

Lemma adSlot_unknown_id_witness :
  JsMap.get "zzz" (adSlots scenario_store) = None /\
  deleteAdSlot "zzz" scenario_store = (false, scenario_store) /\
  (forall updates, updateAdSlot "zzz" updates scenario_store = (None, scenario_store)).
Proof.
  split; [reflexivity|].
  exact (adSlot_unknown_id scenario_store "zzz" eq_refl).
Defined.

(** X15.  [createAdSlot] under a fresh identifier adds the slot at the end
    of the listing.  The public listing of a page gains it exactly when the
    input names that page and carries [isActive: true]; an input without
    [isActive] gives a slot that no page lists, since the column default is
    not applied. *)
Theorem createAdSlot_fresh_id :
  forall (st : MemStorage) (id : string) (now : Z) (adSlot : AdSlot.insert),
    JsMap.get id (adSlots st) = None ->
    let (slot, st') := createAdSlot id now adSlot st in
    getAdSlots st' = getAdSlots st ++ [slot] /\
    AdSlot.id slot = id /\
    AdSlot.createdAt slot = now /\
    (forall page,
        getActiveAdSlots page st' =
        getActiveAdSlots page st ++
        (if String.eqb (AdSlot.i_page adSlot) page &&
            truthy_flag (AdSlot.i_isActive adSlot)
         then [slot] else [])) /\
    (AdSlot.i_isActive adSlot = None ->
     forall page, getActiveAdSlots page st' = getActiveAdSlots page st).
Proof.
  intros st id now adSlot H. unfold createAdSlot.
  assert (Hv : forall slot,
             getAdSlots (set_adSlots st (JsMap.set id slot (adSlots st))) =
             getAdSlots st ++ [slot]).
  { intros slot. unfold getAdSlots; simpl. now apply JsMapLaws.values_set_fresh. }
  assert (Hact : forall page,
             getActiveAdSlots page
               (set_adSlots st
                  (JsMap.set id
                     (AdSlot.mk id (AdSlot.i_name adSlot) (AdSlot.i_position adSlot)
                        (AdSlot.i_page adSlot) (AdSlot.i_isActive adSlot)
                        (AdSlot.i_adProvider adSlot) (AdSlot.i_adCode adSlot)
                        (AdSlot.i_settings adSlot) now)
                     (adSlots st))) =
             getActiveAdSlots page st ++
             (if String.eqb (AdSlot.i_page adSlot) page &&
                 truthy_flag (AdSlot.i_isActive adSlot)
              then [AdSlot.mk id (AdSlot.i_name adSlot) (AdSlot.i_position adSlot)
                      (AdSlot.i_page adSlot) (AdSlot.i_isActive adSlot)
                      (AdSlot.i_adProvider adSlot) (AdSlot.i_adCode adSlot)
                      (AdSlot.i_settings adSlot) now]
              else [])).
  { intros page. unfold getActiveAdSlots; simpl.
    rewrite (JsMapLaws.values_set_fresh id _ _ H), filter_app. reflexivity. }
  repeat split.
  - apply Hv.
  - exact Hact.
  - intros Hnone page. rewrite Hact, Hnone, andb_false_r. apply app_nil_r.
Qed.

Lemma createAdSlot_fresh_id_witness :
  let input := AdSlot.mkInsert "Footer" "footer" "home" None None None None in
  JsMap.get "f" (adSlots new_maps) = None /\
  let (slot, st') := createAdSlot "f" 3 input new_maps in
  getAdSlots st' = getAdSlots new_maps ++ [slot] /\
  AdSlot.id slot = "f"%string /\
  AdSlot.createdAt slot = 3 /\
  (forall page,
      getActiveAdSlots page st' =
      getActiveAdSlots page new_maps ++
      (if String.eqb (AdSlot.i_page input) page && truthy_flag (AdSlot.i_isActive input)
       then [slot] else [])) /\
  (AdSlot.i_isActive input = None ->
   forall page, getActiveAdSlots page st' = getActiveAdSlots page new_maps).
Proof.
  intros input. split; [reflexivity|].
  exact (createAdSlot_fresh_id new_maps "f" 3 input eq_refl).
Defined.

(** X16.  Switching a stored slot off with [updateAdSlot(id, { isActive:
    false, ... })] takes it out of the public listing of every page and
    leaves the rest of each listing as it was. *)
Theorem updateAdSlot_deactivates :
  forall (st : MemStorage) (id : string) (slot : AdSlot.t) (updates : AdSlot.partial),
    JsMap.get id (adSlots st) = Some slot ->
    AdSlot.p_isActive updates = Some false ->
    exists updated st',
      updateAdSlot id updates st = (Some updated, st') /\
      JsMap.get id (adSlots st') = Some updated /\
      AdSlot.isActive updated = Some false /\
      forall page,
        ~ In updated (getActiveAdSlots page st') /\
        exists l1 l2,
          getActiveAdSlots page st =
            l1 ++ getPageAdSlots [slot] page ++ l2 /\
          getActiveAdSlots page st' = l1 ++ l2.
Proof.
  intros st id slot updates Hget Hoff.
  unfold updateAdSlot. rewrite Hget, Hoff.
  match goal with
  | |- context [JsMap.set id ?u (adSlots st)] => set (updated := u)
  end.
  exists updated, (set_adSlots st (JsMap.set id updated (adSlots st))).
  split; [reflexivity|].
  split; [apply JsMapFacts.get_set_same|]. split; [reflexivity|].
  intros page.
  destruct (JsMapLaws.values_set_present id updated slot (adSlots st) Hget)
    as (l1 & l2 & E1 & E2).
  assert (Hoff' : forall p, String.eqb (AdSlot.page updated) p &&
                            truthy_flag (AdSlot.isActive updated) = false)
    by (intros p; apply andb_false_r).
  unfold getActiveAdSlots, getPageAdSlots. cbn [adSlots set_adSlots].
  rewrite E1, E2. split.
  - intros Hin. apply filter_In in Hin as [_ Hin]. now rewrite Hoff' in Hin.
  - exists (filter (fun s => String.eqb (AdSlot.page s) page &&
                             truthy_flag (AdSlot.isActive s)) l1),
           (filter (fun s => String.eqb (AdSlot.page s) page &&
                             truthy_flag (AdSlot.isActive s)) l2).
    rewrite !filter_app. cbn [filter]. rewrite Hoff'.
    split; [|reflexivity].
    now destruct (String.eqb (AdSlot.page slot) page &&
                  truthy_flag (AdSlot.isActive slot)).
Qed.

Lemma updateAdSlot_deactivates_witness :
  let st := initializeDefaultAdSlots ["a"; "b"; "c"]%string 1 new_maps in
  let slot := AdSlot.mk "a" "Home Page Top Banner" "home-top" "home" (Some true)
                (Some "google-adsense"%string)
                (Some "<!-- Google AdSense code here -->"%string)
                (Some [("size", "728x90")]%string) 1 in
  let updates := AdSlot.mkPartial None None None None (Some false) None None None None in
  JsMap.get "a" (adSlots st) = Some slot /\
  AdSlot.p_isActive updates = Some false /\
  exists updated st',
    updateAdSlot "a" updates st = (Some updated, st') /\
    JsMap.get "a" (adSlots st') = Some updated /\
    AdSlot.isActive updated = Some false /\
    forall page,
      ~ In updated (getActiveAdSlots page st') /\
      exists l1 l2,
        getActiveAdSlots page st = l1 ++ getPageAdSlots [slot] page ++ l2 /\
        getActiveAdSlots page st' = l1 ++ l2.
Proof.
  intros st slot updates. split; [reflexivity|]. split; [reflexivity|].
  exact (updateAdSlot_deactivates st "a" slot updates eq_refl eq_refl).
Defined.

(** X17.  The two client-side lookups agree with the server: over the
    listing of all slots, [getPageAdSlots(page)] is what the public route
    answers for the page, and [getAdSlot(position, page)] is the first slot
    of that listing with the position, or [undefined] when it has none. *)
Theorem client_lookups_agree_with_server :
  forall (st : MemStorage) (page position : string),
    publicAdSlots page st = Json (getPageAdSlots (getAdSlots st) page) /\
    getPageAdSlots (getAdSlots st) page = getActiveAdSlots page st /\
    getAdSlot (getAdSlots st) position page =
    find (fun slot => String.eqb (AdSlot.position slot) position)
      (getActiveAdSlots page st) /\
    (getAdSlot (getAdSlots st) position page = None <->
     forall slot, In slot (getActiveAdSlots page st) -> AdSlot.position slot <> position).
Proof.
  intros st page position.
  assert (Hfind : getAdSlot (getAdSlots st) position page =
                  find (fun slot => String.eqb (AdSlot.position slot) position)
                    (getActiveAdSlots page st)).
  { unfold getAdSlot, getActiveAdSlots, getAdSlots.
    induction (JsMap.values (adSlots st)) as [|x l IH]; simpl; [reflexivity|].
    destruct (String.eqb (AdSlot.page x) page && truthy_flag (AdSlot.isActive x)) eqn:E.
    - simpl. rewrite <- andb_assoc, E, andb_true_r.
      destruct (String.eqb (AdSlot.position x) position); [reflexivity | exact IH].
    - rewrite <- andb_assoc, E, andb_false_r. exact IH. }
  split; [reflexivity|]. split; [reflexivity|]. split; [exact Hfind|].
  rewrite Hfind, find_none_iff.
  split; intros H slot Hin; specialize (H slot Hin); now apply String.eqb_neq.
Qed.

(* ================================================================== *)
(** ** Tool usage and analytics beyond the claims *)

Lemma totalUsage_length usages :
  totalUsage (analytics_of usages) = Z.of_nat (List.length usages).
Proof.
  destruct usages as [|u l]; [reflexivity|].
  unfold analytics_of.
  match goal with
  | |- totalUsage (match ?s with [] => _ | _ :: _ => _ end) = _ => now destruct s
  end.
Qed.

Lemma globalSuccessRate_nonempty u l :
  globalSuccessRate (analytics_of (u :: l)) =
  (JsNumber.toFixed1
     (JsNumber.mul
        (JsNumber.div
           (inject_Z (Z.of_nat (List.length (filter ToolUsage.success (u :: l)))))
           (inject_Z (Z.of_nat (List.length (u :: l)))))
        100) ++ "%")%string.
Proof.
  unfold analytics_of.
  replace (0 <? Z.of_nat (List.length (u :: l))) with true
    by (symmetry; apply Z.ltb_lt; simpl; lia).
  match goal with
  | |- globalSuccessRate (match ?s with [] => _ | _ :: _ => _ end) = _ =>
      now destruct s
  end.
Qed.

(** [mostPopular] and [popularUsage] read the head of [toolStats]. *)
Lemma popular_is_head usages :
  match toolStats (analytics_of usages) with
  | top :: _ =>
      mostPopular (analytics_of usages) = name top /\
      popularUsage (analytics_of usages) = usageCount top
  | [] =>
      mostPopular (analytics_of usages) = "No data"%string /\
      popularUsage (analytics_of usages) = 0
  end.
Proof.
  destruct usages as [|u l]; [now split|].
  unfold analytics_of.
  match goal with
  | |- context [match ?s with [] => _ | _ :: _ => _ end] => destruct s; now split
  end.
Qed.

Lemma toolStats_perm usages :
  Permutation (toolStats (analytics_of usages))
    (map (fun X => stat_of_acc (group_acc usages X)) (first_tools usages)).
Proof.
  rewrite toolStats_sorted_map. exact (JsArrayFacts.sort_perm usageCount _).
Qed.

(** Every entry of [toolStats] is the entry of a tool that occurs. *)
Lemma toolStats_entry usages s :
  In s (toolStats (analytics_of usages)) ->
  exists X, In X (map ToolUsage.toolName usages) /\
            s = stat_of_acc (group_acc usages X).
Proof.
  intros Hs. apply (Permutation_in _ (toolStats_perm usages)) in Hs.
  apply in_map_iff in Hs as (X & <- & HX).
  exists X. split; [now apply In_first_tools | reflexivity].
Qed.

Lemma total_usageCount_perm l1 l2 :
  Permutation l1 l2 -> total_usageCount l1 = total_usageCount l2.
Proof. induction 1; simpl; lia. Qed.

Lemma group_other_filter X k l :
  X <> k ->
  group X (filter (fun u => negb (String.eqb (ToolUsage.toolName u) k)) l) = group X l.
Proof.
  intros Hne. unfold group. induction l as [|u l IH]; simpl; [reflexivity|].
  destruct (String.eqb_spec (ToolUsage.toolName u) k) as [E|E]; simpl.
  - destruct (String.eqb_spec (ToolUsage.toolName u) X); [congruence | exact IH].
  - now rewrite IH.
Qed.

Lemma filter_split_length {A : Type} (f : A -> bool) (l : list A) :
  (List.length l = List.length (filter f l) +
                   List.length (filter (fun x => negb (f x)) l))%nat.
Proof.
  induction l as [|x l IH]; simpl; [reflexivity|].
  destruct (f x); simpl; lia.
Qed.

Lemma total_usageCount_other_filter k l ks :
  ~ In k ks ->
  total_usageCount (map (fun X => stat_of_acc (group_acc l X)) ks) =
  total_usageCount
    (map (fun X =>
            stat_of_acc
              (group_acc (filter (fun u => negb (String.eqb (ToolUsage.toolName u) k)) l) X))
       ks).
Proof.
  induction ks as [|y ys IHy]; intros Hk; [reflexivity|].
  simpl. unfold group_size.
  rewrite (group_other_filter y k l) by (intros ->; apply Hk; now left).
  rewrite IHy; [reflexivity | intros H; apply Hk; now right].
Qed.

(** The group sizes of a duplicate-free list of names that covers the
    events add up to the number of events. *)
Lemma group_sizes_add_up ks :
  NoDup ks ->
  forall l, (forall u, In u l -> In (ToolUsage.toolName u) ks) ->
            total_usageCount (map (fun X => stat_of_acc (group_acc l X)) ks) =
            Z.of_nat (List.length l).
Proof.
  induction 1 as [|k ks Hk Hnd IH]; intros l Hcover.
  - destruct l as [|u l]; [reflexivity|]. destruct (Hcover u (or_introl eq_refl)).
  - simpl.
    set (l' := filter (fun u => negb (String.eqb (ToolUsage.toolName u) k)) l).
    assert (Hrest : total_usageCount (map (fun X => stat_of_acc (group_acc l X)) ks) =
                    Z.of_nat (List.length l')).
    { rewrite <- (IH l').
      - apply total_usageCount_other_filter, Hk.
      - intros u Hu. apply filter_In in Hu as [Hu Hne].
        apply negb_true_iff, String.eqb_neq in Hne.
        destruct (Hcover u Hu) as [E|Hin]; [congruence | exact Hin]. }
    rewrite Hrest. unfold group_size, group, l'.
    rewrite (filter_split_length (fun u => String.eqb (ToolUsage.toolName u) k) l).
    lia.
Qed.

(** X18.  [totalUsage] is the number of stored events, and the
    [usageCount]s of [toolStats] add up to it: every event is counted for
    exactly one tool. *)
Theorem getAnalytics_counts_every_event_once :
  forall (st : MemStorage),
    totalUsage (getAnalytics st) =
      Z.of_nat (List.length (JsMap.values (toolUsages st))) /\
    total_usageCount (toolStats (getAnalytics st)) = totalUsage (getAnalytics st).
Proof.
  intros st. unfold getAnalytics.
  set (usages := JsMap.values (toolUsages st)).
  split; [apply totalUsage_length|].
  rewrite totalUsage_length, (total_usageCount_perm _ _ (toolStats_perm usages)).
  apply group_sizes_add_up; [apply NoDup_first_tools|].
  intros u Hu. apply In_first_tools, in_map, Hu.
Qed.

(** X19.  On a non-empty collection [mostPopular] is the name of a tool
    that occurs, [popularUsage] is the number of its events, no entry of
    [toolStats] has a larger [usageCount], and
    [1 <= popularUsage <= totalUsage]. *)
Theorem getAnalytics_most_popular_is_maximal :
  forall (st : MemStorage),
    JsMap.values (toolUsages st) <> [] ->
    In (mostPopular (getAnalytics st))
       (map ToolUsage.toolName (JsMap.values (toolUsages st))) /\
    popularUsage (getAnalytics st) =
      group_size (mostPopular (getAnalytics st)) (JsMap.values (toolUsages st)) /\
    (forall s, In s (toolStats (getAnalytics st)) ->
               usageCount s <= popularUsage (getAnalytics st)) /\
    1 <= popularUsage (getAnalytics st) <= totalUsage (getAnalytics st).
Proof.
  intros st Hne. unfold getAnalytics.
  set (usages := JsMap.values (toolUsages st)) in *.
  pose proof (popular_is_head usages) as Hhead.
  pose proof (toolStats_sorted_map usages) as Hts.
  pose proof (JsArrayFacts.sort_desc usageCount
                (map (fun X => stat_of_acc (group_acc usages X)) (first_tools usages)))
    as Hsorted.
  change (JsArray.desc usageCount) with by_usageCount_desc in Hsorted.
  rewrite <- Hts in Hsorted.
  destruct (toolStats (analytics_of usages)) as [|top rest] eqn:E.
  - exfalso. pose proof (toolStats_perm usages) as Hp. rewrite E in Hp.
    apply Permutation_nil, map_eq_nil in Hp.
    destruct usages as [|u l]; [contradiction | discriminate].
  - destruct Hhead as [Hm Hp]. rewrite Hm, Hp.
    assert (Htop : In top (toolStats (analytics_of usages))) by (rewrite E; now left).
    destruct (toolStats_entry usages top Htop) as (X & HX & ->).
    simpl name. simpl usageCount.
    split; [exact HX|]. split; [reflexivity|]. split.
    + intros s [<-|Hs]; [simpl; lia|].
      inversion Hsorted as [|? ? _ Hall]; subst.
      rewrite Forall_forall in Hall. exact (Hall s Hs).
    + rewrite totalUsage_length. split.
      * pose proof (group_size_pos usages X HX). lia.
      * apply filter_length_le_Z.
Qed.

Lemma getAnalytics_most_popular_is_maximal_witness :
  JsMap.values (toolUsages scenario_store) <> [] /\
  In (mostPopular (getAnalytics scenario_store))
     (map ToolUsage.toolName (JsMap.values (toolUsages scenario_store))) /\
  popularUsage (getAnalytics scenario_store) =
    group_size (mostPopular (getAnalytics scenario_store))
      (JsMap.values (toolUsages scenario_store)) /\
  (forall s, In s (toolStats (getAnalytics scenario_store)) ->
             usageCount s <= popularUsage (getAnalytics scenario_store)) /\
  1 <= popularUsage (getAnalytics scenario_store) <= totalUsage (getAnalytics scenario_store).
Proof.
  assert (H : JsMap.values (toolUsages scenario_store) <> []) by (vm_compute; discriminate).
  split; [exact H | exact (getAnalytics_most_popular_is_maximal scenario_store H)].
Defined.

(** X20.  Every per-tool [successRate] lies between 0 and 100; it is 100
    for a tool all of whose events succeeded and 0 for a tool none of whose
    events succeeded.  (Fewer than [2^32] events.) *)
Theorem getAnalytics_successRate_range :
  forall (st : MemStorage) (s : ToolStat),
    Z.of_nat (List.length (JsMap.values (toolUsages st))) < 2 ^ 32 ->
    In s (toolStats (getAnalytics st)) ->
    0 <= successRate s <= 100 /\
    (group_successes (name s) (JsMap.values (toolUsages st)) =
     group_size (name s) (JsMap.values (toolUsages st)) -> successRate s = 100) /\
    (group_successes (name s) (JsMap.values (toolUsages st)) = 0 -> successRate s = 0).
Proof.
  intros st s Hlen Hs. unfold getAnalytics in Hs.
  set (usages := JsMap.values (toolUsages st)) in *.
  destruct (toolStats_entry usages s Hs) as (X & HX & ->).
  pose proof (group_size_pos usages X HX) as HN.
  assert (HNle : group_size X usages <= Z.of_nat (List.length usages))
    by apply filter_length_le_Z.
  assert (HS : 0 <= group_successes X usages <= group_size X usages).
  { unfold group_successes, group_size. split; [lia | apply filter_length_le_Z]. }
  unfold stat_of_acc, group_acc; simpl.
  replace (0 <? group_size X usages) with true by (symmetry; apply Z.ltb_lt; exact HN).
  destruct (round_percentage (group_successes X usages) (group_size X usages)
              HS HN ltac:(lia)) as [Hnear _].
  set (r := JsNumber.Math_round _) in *.
  set (N := group_size X usages) in *. set (S := group_successes X usages) in *.
  repeat split; nia.
Qed.

Lemma getAnalytics_successRate_range_witness :
  let s := mkStat "pdf-to-word" "pdf" 4 75 75 in
  Z.of_nat (List.length (JsMap.values (toolUsages scenario_store))) < 2 ^ 32 /\
  In s (toolStats (getAnalytics scenario_store)) /\
  0 <= successRate s <= 100 /\
  (group_successes (name s) (JsMap.values (toolUsages scenario_store)) =
   group_size (name s) (JsMap.values (toolUsages scenario_store)) -> successRate s = 100) /\
  (group_successes (name s) (JsMap.values (toolUsages scenario_store)) = 0 ->
   successRate s = 0).
Proof.
  intros s.
  assert (H1 : Z.of_nat (List.length (JsMap.values (toolUsages scenario_store))) < 2 ^ 32)
    by (vm_compute; reflexivity).
  assert (H2 : In s (toolStats (getAnalytics scenario_store))) by (vm_compute; now left).
  split; [exact H1|]. split; [exact H2|].
  exact (getAnalytics_successRate_range scenario_store s H1 H2).
Defined.

Lemma sum_times_between (M : Z) (l : list ToolUsage.t) :
  (forall u, In u l -> 0 <= time_of u <= M) ->
  0 <= sum_times l <= M * Z.of_nat (List.length l).
Proof.
  induction l as [|u l IH]; intros H; [simpl; lia|].
  assert (Hu := H u (or_introl eq_refl)).
  assert (Hl : 0 <= sum_times l <= M * Z.of_nat (List.length l))
    by (apply IH; intros v Hv; apply H; now right).
  cbn [sum_times List.length]. rewrite Nat2Z.inj_succ. nia.
Qed.

(** X21.  When every processing time lies between 0 and [M], every
    [avgProcessingTime] lies between 0 and [M] too.  (Fewer than [2^32]
    events whose processing times sum to less than [2^52].) *)
Theorem getAnalytics_avgProcessingTime_range :
  forall (st : MemStorage) (M : Z) (s : ToolStat),
    Z.of_nat (List.length (JsMap.values (toolUsages st))) < 2 ^ 32 ->
    sum_abs_times (JsMap.values (toolUsages st)) < 2 ^ 52 ->
    (forall u, In u (JsMap.values (toolUsages st)) -> 0 <= time_of u <= M) ->
    In s (toolStats (getAnalytics st)) ->
    0 <= avgProcessingTime s <= M.
Proof.
  intros st M s Hlen Hsum Hrange Hs. unfold getAnalytics in Hs.
  set (usages := JsMap.values (toolUsages st)) in *.
  destruct (toolStats_entry usages s Hs) as (X & HX & ->).
  pose proof (group_size_pos usages X HX) as HN.
  assert (HNle : group_size X usages <= Z.of_nat (List.length usages))
    by apply filter_length_le_Z.
  assert (Hg : sum_abs_times (group X usages) < 2 ^ 52).
  { eapply Z.le_lt_trans; [apply sum_abs_times_filter | exact Hsum]. }
  unfold stat_of_acc, group_acc; simpl.
  replace (0 <? group_size X usages) with true by (symmetry; apply Z.ltb_lt; exact HN).
  rewrite total_time_exact by lia.
  rewrite round_div_integers;
    [| lia | lia | eapply Z.le_lt_trans; [apply sum_times_bound | exact Hg]].
  assert (HT : 0 <= sum_times (filter has_time (group X usages)) <=
               M * Z.of_nat (List.length (filter has_time (group X usages)))).
  { apply sum_times_between. intros u Hu.
    apply filter_In in Hu as [Hu _]. apply filter_In in Hu as [Hu _].
    now apply Hrange. }
  assert (Hcount : Z.of_nat (List.length (filter has_time (group X usages))) <=
                   group_size X usages) by apply filter_length_le_Z.
  assert (HM : 0 <= M).
  { destruct (group_nonempty X usages (proj2 (In_first_tools usages X) HX))
      as (u & g & Eg).
    assert (Hu : In u usages).
    { assert (In u (group X usages)) by (rewrite Eg; now left).
      unfold group in H. now apply filter_In in H. }
    specialize (Hrange u Hu). lia. }
  unfold round_quotient.
  set (T := sum_times _) in *. set (N := group_size X usages) in *.
  split.
  - apply Z.div_pos; lia.
  - apply Z.lt_succ_r, Z.div_lt_upper_bound; nia.
Qed.

Lemma getAnalytics_avgProcessingTime_range_witness :
  let s := mkStat "pdf-to-word" "pdf" 4 75 75 in
  Z.of_nat (List.length (JsMap.values (toolUsages scenario_store))) < 2 ^ 32 /\
  sum_abs_times (JsMap.values (toolUsages scenario_store)) < 2 ^ 52 /\
  (forall u, In u (JsMap.values (toolUsages scenario_store)) -> 0 <= time_of u <= 200) /\
  In s (toolStats (getAnalytics scenario_store)) /\
  0 <= avgProcessingTime s <= 200.
Proof.
  intros s.
  assert (H1 : Z.of_nat (List.length (JsMap.values (toolUsages scenario_store))) < 2 ^ 32)
    by (vm_compute; reflexivity).
  assert (H2 : sum_abs_times (JsMap.values (toolUsages scenario_store)) < 2 ^ 52)
    by (vm_compute; reflexivity).
  assert (H3 : forall u, In u (JsMap.values (toolUsages scenario_store)) ->
                         0 <= time_of u <= 200).
  { intros u Hu. vm_compute in Hu.
    repeat (destruct Hu as [<-|Hu]; [vm_compute; split; discriminate|]).
    destruct Hu. }
  assert (H4 : In s (toolStats (getAnalytics scenario_store))) by (vm_compute; now left).
  split; [exact H1|]. split; [exact H2|]. split; [exact H3|]. split; [exact H4|].
  exact (getAnalytics_avgProcessingTime_range scenario_store 200 s H1 H2 H3 H4).
Defined.

Lemma filter_all {A : Type} (f : A -> bool) (l : list A) :
  (forall x, In x l -> f x = true) -> filter f l = l.
Proof.
  induction l as [|x l IH]; intros H; simpl; [reflexivity|].
  rewrite (H x (or_introl eq_refl)), IH; [reflexivity|].
  intros y Hy. apply H. now right.
Qed.

Lemma filter_none {A : Type} (f : A -> bool) (l : list A) :
  (forall x, In x l -> f x = false) -> filter f l = [].
Proof.
  induction l as [|x l IH]; intros H; simpl; [reflexivity|].
  rewrite (H x (or_introl eq_refl)). apply IH.
  intros y Hy. apply H. now right.
Qed.

(** X22.  The overall [successRate] of a non-empty collection is
    ["100.0%"] when every event succeeded and ["0.0%"] when none did; the
    latter is not the ["0%"] of the empty collection. *)
Theorem getAnalytics_overall_successRate_extremes :
  forall (st : MemStorage),
    JsMap.values (toolUsages st) <> [] ->
    ((forall u, In u (JsMap.values (toolUsages st)) -> ToolUsage.success u = true) ->
     globalSuccessRate (getAnalytics st) = "100.0%"%string) /\
    ((forall u, In u (JsMap.values (toolUsages st)) -> ToolUsage.success u = false) ->
     globalSuccessRate (getAnalytics st) = "0.0%"%string).
Proof.
  intros st Hne. unfold getAnalytics.
  destruct (JsMap.values (toolUsages st)) as [|u l] eqn:E; [contradiction|].
  rewrite globalSuccessRate_nonempty.
  set (n := Z.of_nat (List.length (u :: l))).
  assert (Hn : 0 < n) by (unfold n; simpl; lia).
  pose proof (inject_Z_pos n Hn) as Hq.
  split; intros Hall.
  - rewrite (filter_all _ _ Hall). fold n.
    unfold JsNumber.mul, JsNumber.div.
    rewrite (fl_integer (inject_Z n / inject_Z n) 1); [|field; lra|lia].
    rewrite (fl_integer (inject_Z 1 * 100) 100); [reflexivity|reflexivity|lia].
  - rewrite (filter_none _ _ Hall). fold n.
    unfold JsNumber.mul, JsNumber.div.
    rewrite (fl_integer (inject_Z (Z.of_nat (List.length (@nil ToolUsage.t))) / inject_Z n) 0);
      [|simpl; field; lra|lia].
    rewrite (fl_integer (inject_Z 0 * 100) 0); [reflexivity|reflexivity|lia].
Qed.

Lemma getAnalytics_overall_successRate_extremes_witness :
  let st := record_all [usage_input "resize" false None; usage_input "crop" false None] in
  JsMap.values (toolUsages st) <> [] /\
  ((forall u, In u (JsMap.values (toolUsages st)) -> ToolUsage.success u = true) ->
   globalSuccessRate (getAnalytics st) = "100.0%"%string) /\
  ((forall u, In u (JsMap.values (toolUsages st)) -> ToolUsage.success u = false) ->
   globalSuccessRate (getAnalytics st) = "0.0%"%string).
Proof.
  intros st.
  assert (H : JsMap.values (toolUsages st) <> []) by (vm_compute; discriminate).
  split; [exact H | exact (getAnalytics_overall_successRate_extremes st H)].
Defined.

(** X23.  Recording an event under a fresh identifier appends it to the
    log with the time of the call as its timestamp; the listing then holds
    it, [totalUsage] is one more than before, and [toolStats] has an entry
    for its tool whose [usageCount] is one more than the tool had. *)
Theorem createToolUsage_fresh_id :
  forall (st : MemStorage) (id : string) (now : Z) (usage : ToolUsage.insert),
    JsMap.get id (toolUsages st) = None ->
    let (event, st') := createToolUsage id now usage st in
    JsMap.values (toolUsages st') = JsMap.values (toolUsages st) ++ [event] /\
    ToolUsage.id event = id /\
    ToolUsage.timestamp event = now /\
    In event (getToolUsage None st') /\
    totalUsage (getAnalytics st') = totalUsage (getAnalytics st) + 1 /\
    exists s,
      In s (toolStats (getAnalytics st')) /\
      name s = ToolUsage.i_toolName usage /\
      usageCount s =
      group_size (ToolUsage.i_toolName usage) (JsMap.values (toolUsages st)) + 1.
Proof.
  intros st id now usage H. unfold createToolUsage.
  set (event := ToolUsage.mk id _ _ _ _ now _ _ _).
  assert (Hv : JsMap.values (toolUsages (set_toolUsages st (JsMap.set id event (toolUsages st)))) =
               JsMap.values (toolUsages st) ++ [event])
    by (simpl; now apply JsMapLaws.values_set_fresh).
  split; [exact Hv|]. split; [reflexivity|]. split; [reflexivity|].
  split; [|split].
  - unfold getToolUsage. change by_timestamp_desc with (JsArray.desc ToolUsage.timestamp).
    apply JsArrayFacts.sort_In. rewrite Hv. apply in_app_iff. right. now left.
  - unfold getAnalytics. rewrite !totalUsage_length, Hv, length_app. simpl. lia.
  - unfold getAnalytics. rewrite Hv.
    exists (stat_of_acc (group_acc (JsMap.values (toolUsages st) ++ [event])
                           (ToolUsage.i_toolName usage))).
    split; [|split; [reflexivity|]].
    + apply stat_in_toolStats. rewrite map_app. apply in_app_iff. right. now left.
    + simpl. unfold group_size. rewrite group_snoc. simpl ToolUsage.toolName.
      rewrite String.eqb_refl, length_app. simpl. lia.
Qed.

Lemma createToolUsage_fresh_id_witness :
  let usage := usage_input "merge-pdf" true (Some 50) in
  JsMap.get "new" (toolUsages scenario_store) = None /\
  let (event, st') := createToolUsage "new" 99 usage scenario_store in
  JsMap.values (toolUsages st') = JsMap.values (toolUsages scenario_store) ++ [event] /\
  ToolUsage.id event = "new"%string /\
  ToolUsage.timestamp event = 99 /\
  In event (getToolUsage None st') /\
  totalUsage (getAnalytics st') = totalUsage (getAnalytics scenario_store) + 1 /\
  exists s,
    In s (toolStats (getAnalytics st')) /\
    name s = ToolUsage.i_toolName usage /\
    usageCount s =
    group_size (ToolUsage.i_toolName usage) (JsMap.values (toolUsages scenario_store)) + 1.
Proof.
  intros usage. split; [reflexivity|].
  exact (createToolUsage_fresh_id scenario_store "new" 99 usage eq_refl).
Defined.

(** X24.  Filtering only narrows the listing: what [getToolUsage] returns
    under a filter object it also returns without one, and without one it
    returns every stored event.  A filter whose [dateFrom] lies after its
    [dateTo] returns nothing, and a filter object with no field returns
    what no filter returns. *)
Theorem getToolUsage_filters_narrow :
  forall (st : MemStorage) (fs : ToolUsage.filters),
    (forall u, In u (getToolUsage (Some fs) st) -> In u (getToolUsage None st)) /\
    (forall u, In u (getToolUsage None st) <-> In u (JsMap.values (toolUsages st))) /\
    List.length (getToolUsage None st) = List.length (JsMap.values (toolUsages st)) /\
    (forall a b, ToolUsage.f_dateFrom fs = Some a -> ToolUsage.f_dateTo fs = Some b ->
                 b < a -> getToolUsage (Some fs) st = []) /\
    getToolUsage (Some (ToolUsage.mkFilters None None None None)) st =
    getToolUsage None st.
Proof.
  intros st fs.
  assert (Hall : forall u, In u (getToolUsage None st) <->
                           In u (JsMap.values (toolUsages st))).
  { intros u. unfold getToolUsage.
    change by_timestamp_desc with (JsArray.desc ToolUsage.timestamp).
    apply JsArrayFacts.sort_In. }
  split; [|split; [exact Hall|split; [|split]]].
  - intros u Hu. apply Hall. now apply getToolUsage_In in Hu.
  - apply Permutation_length. exact (JsArrayFacts.sort_perm ToolUsage.timestamp _).
  - intros a b Ha Hb Hlt.
    destruct (getToolUsage (Some fs) st) as [|u l] eqn:E; [reflexivity|].
    assert (Hu : In u (getToolUsage (Some fs) st)) by (rewrite E; now left).
    apply getToolUsage_In in Hu as [_ (_ & _ & Hfrom & Hto)].
    specialize (Hfrom a Ha). specialize (Hto b Hb). lia.
  - reflexivity.
Qed.

(* ================================================================== *)
(** ** The SEO checks *)

Module SEOFacts.
Import SEO.

Lemma truthy_length v : is_some_truthy v = true <-> exists s, v = Some s /\ s <> ""%string.
Proof.
  unfold is_some_truthy, truthy_string. destruct v as [s|].
  - rewrite negb_true_iff, String.eqb_neq. split.
    + intros H. now exists s.
    + now intros (s' & [= <-] & H).
  - split; [discriminate | now intros (s & H & _)].
Qed.

Lemma check_length_nil v low high missing short long :
  (0 < low)%nat ->
  check_length v low high missing short long = [] <->
  exists s, v = Some s /\ (low <= String.length s <= high)%nat.
Proof.
  intros Hlow. unfold check_length.
  destruct (is_some_truthy v) eqn:E.
  - apply truthy_length in E as (s & -> & Hs).
    destruct (Nat.ltb_spec (String.length s) low);
      [|destruct (Nat.ltb_spec high (String.length s))].
    + split; [discriminate | intros (s' & [= <-] & H'); lia].
    + split; [discriminate | intros (s' & [= <-] & H'); lia].
    + split; [intros _; exists s; split; [reflexivity | lia] | reflexivity].
  - split; [discriminate|]. intros (s & -> & Hs). exfalso.
    unfold is_some_truthy, truthy_string in E. apply negb_false_iff, String.eqb_eq in E.
    subst s. simpl in Hs. lia.
Qed.

Lemma check_length_error v low high missing short long :
  level missing = error -> level short = warning -> level long = warning ->
  (exists i, In i (check_length v low high missing short long) /\ level i = error) <->
  is_some_truthy v = false.
Proof.
  intros Hm Hs Hl. unfold check_length.
  destruct (is_some_truthy v) eqn:E.
  - split; [|discriminate]. intros (i & Hin & Hi). exfalso.
    destruct v as [s|]; [|destruct Hin].
    destruct (String.length s <? low)%nat;
      [|destruct (high <? String.length s)%nat];
      simpl in Hin; intuition (subst; congruence).
  - split; [reflexivity|]. intros _. exists missing. split; [now left | exact Hm].
Qed.

Lemma recommend_nil v missing : recommend v missing = [] <-> is_some_truthy v = true.
Proof.
  unfold recommend. destruct (is_some_truthy v); split; try reflexivity; discriminate.
Qed.

Lemma recommend_warning v missing i :
  level missing = warning -> In i (recommend v missing) -> level i = warning.
Proof.
  unfold recommend. destruct (is_some_truthy v); [intros _ []|].
  intros H [<-|[]]. exact H.
Qed.

Lemma check_length_short v low high missing short long :
  (List.length (check_length v low high missing short long) <= 1)%nat.
Proof.
  unfold check_length. destruct (is_some_truthy v); [|simpl; lia].
  destruct v as [s|]; [|simpl; lia].
  destruct (String.length s <? low)%nat;
    [|destruct (high <? String.length s)%nat]; simpl; lia.
Qed.

Lemma lastIndexOf_from_spec c s :
  forall i,
    0 <= i ->
    (lastIndexOf_from i c s = -1 /\ ~ In c s) \/
    (exists a b, s = a ++ c :: b /\ ~ In c b /\
                 lastIndexOf_from i c s = i + Z.of_nat (List.length a)).
Proof.
  induction s as [|x s IH]; intros i Hi; [left; simpl; tauto|].
  simpl. destruct (IH (i + 1) ltac:(lia)) as [[Hr Hno]|(a & b & E & Hb & Hr)].
  - rewrite Hr. simpl.
    destruct (Ascii.eqb_spec x c) as [->|Hne].
    + right. exists [], s. simpl. repeat split; [assumption | lia].
    + left. split; [reflexivity | intros [H|H]; [congruence | contradiction]].
  - rewrite Hr.
    replace (0 <=? i + 1 + Z.of_nat (List.length a)) with true
      by (symmetry; apply Z.leb_le; lia).
    right. exists (x :: a), b. simpl List.length. rewrite Nat2Z.inj_succ.
    repeat split; [now rewrite E | assumption | lia].
Qed.

End SEOFacts.

(** X25.  [validateSEO] reports nothing exactly when the title has 30 to 60
    characters, the description 120 to 160, and the three Open Graph fields
    are present and not empty.  It reports an error exactly when the title
    or the description is absent or empty; every other issue is a warning,
    and there are never more than five issues. *)
Theorem validateSEO_report :
  forall (m : SEO.metadata),
    (SEO.validateSEO m = [] <->
     (exists t, SEO.title m = Some t /\ (30 <= String.length t <= 60)%nat) /\
     (exists d, SEO.description m = Some d /\ (120 <= String.length d <= 160)%nat) /\
     is_some_truthy (SEO.ogTitle m) = true /\
     is_some_truthy (SEO.ogDescription m) = true /\
     is_some_truthy (SEO.ogImage m) = true) /\
    ((exists i, In i (SEO.validateSEO m) /\ SEO.level i = SEO.error) <->
     is_some_truthy (SEO.title m) = false \/
     is_some_truthy (SEO.description m) = false) /\
    (List.length (SEO.validateSEO m) <= 5)%nat.
Proof.
  intros m. unfold SEO.validateSEO.
  set (ct := SEO.check_length (SEO.title m) 30 60 _ _ _).
  set (cd := SEO.check_length (SEO.description m) 120 160 _ _ _).
  set (r1 := SEO.recommend (SEO.ogTitle m) _).
  set (r2 := SEO.recommend (SEO.ogDescription m) _).
  set (r3 := SEO.recommend (SEO.ogImage m) _).
  split; [|split].
  - assert (HA : ct = [] <->
                 exists t, SEO.title m = Some t /\ (30 <= String.length t <= 60)%nat)
      by (apply SEOFacts.check_length_nil; lia).
    assert (HB : cd = [] <->
                 exists d, SEO.description m = Some d /\
                           (120 <= String.length d <= 160)%nat)
      by (apply SEOFacts.check_length_nil; lia).
    assert (H1 : r1 = [] <-> is_some_truthy (SEO.ogTitle m) = true)
      by apply SEOFacts.recommend_nil.
    assert (H2 : r2 = [] <-> is_some_truthy (SEO.ogDescription m) = true)
      by apply SEOFacts.recommend_nil.
    assert (H3 : r3 = [] <-> is_some_truthy (SEO.ogImage m) = true)
      by apply SEOFacts.recommend_nil.
    split.
    + intros H.
      apply app_eq_nil in H as [Ea H]. apply app_eq_nil in H as [Eb H].
      apply app_eq_nil in H as [E1 H]. apply app_eq_nil in H as [E2 E3].
      tauto.
    + intros (Ha & Hb & Hc1 & Hc2 & Hc3).
      apply HA in Ha. apply HB in Hb. apply H1 in Hc1. apply H2 in Hc2. apply H3 in Hc3.
      now rewrite Ha, Hb, Hc1, Hc2, Hc3.
  - rewrite <- (SEOFacts.check_length_error (SEO.title m) 30 60
                  (SEO.mkIssue "title" "Title is required" SEO.error)
                  (SEO.mkIssue "title" "Title should be at least 30 characters" SEO.warning)
                  (SEO.mkIssue "title" "Title should be less than 60 characters" SEO.warning)
                  eq_refl eq_refl eq_refl).
    rewrite <- (SEOFacts.check_length_error (SEO.description m) 120 160
                  (SEO.mkIssue "description" "Meta description is required" SEO.error)
                  (SEO.mkIssue "description"
                     "Meta description should be at least 120 characters" SEO.warning)
                  (SEO.mkIssue "description"
                     "Meta description should be less than 160 characters" SEO.warning)
                  eq_refl eq_refl eq_refl).
    fold ct cd.
    split.
    + intros (i & Hin & Hi).
      apply in_app_iff in Hin as [Hin|Hin]; [left; now exists i|].
      apply in_app_iff in Hin as [Hin|Hin]; [right; now exists i|].
      exfalso.
      assert (Hw : SEO.level i = SEO.warning).
      { apply in_app_iff in Hin as [Hin|Hin];
          [eapply SEOFacts.recommend_warning; [|exact Hin]; reflexivity|].
        apply in_app_iff in Hin as [Hin|Hin];
          eapply SEOFacts.recommend_warning; try exact Hin; reflexivity. }
      congruence.
    + intros [(i & Hin & Hi)|(i & Hin & Hi)]; exists i; (split; [|exact Hi]);
        rewrite !in_app_iff; tauto.
  - rewrite !length_app.
    pose proof (SEOFacts.check_length_short (SEO.title m) 30 60
                  (SEO.mkIssue "title" "Title is required" SEO.error)
                  (SEO.mkIssue "title" "Title should be at least 30 characters" SEO.warning)
                  (SEO.mkIssue "title" "Title should be less than 60 characters" SEO.warning)).
    pose proof (SEOFacts.check_length_short (SEO.description m) 120 160
                  (SEO.mkIssue "description" "Meta description is required" SEO.error)
                  (SEO.mkIssue "description"
                     "Meta description should be at least 120 characters" SEO.warning)
                  (SEO.mkIssue "description"
                     "Meta description should be less than 160 characters" SEO.warning)).
    fold ct in H. fold cd in H0.
    assert (List.length r1 <= 1)%nat
      by (unfold r1, SEO.recommend; destruct (is_some_truthy _); simpl; lia).
    assert (List.length r2 <= 1)%nat
      by (unfold r2, SEO.recommend; destruct (is_some_truthy _); simpl; lia).
    assert (List.length r3 <= 1)%nat
      by (unfold r3, SEO.recommend; destruct (is_some_truthy _); simpl; lia).
    lia.
Qed.

(** X26.  [generateMetaDescription] returns a content of at most
    [maxLength] code units unchanged.  A longer content is cut: the result
    is a prefix of the content of at most [maxLength] code units followed by
    ["..."], so it can be up to three code units longer than [maxLength];
    the prefix is either the first [maxLength] code units or ends just
    before a space of the content. *)
Theorem generateMetaDescription_cut :
  forall (content : list ascii) (maxLength : Z),
    (Z.of_nat (List.length content) <= maxLength ->
     SEO.generateMetaDescription content maxLength = content) /\
    (maxLength < Z.of_nat (List.length content) ->
     exists prefix rest,
       SEO.generateMetaDescription content maxLength = prefix ++ SEO.dots /\
       content = prefix ++ rest /\
       Z.of_nat (List.length prefix) <= Z.max 0 maxLength /\
       Z.of_nat (List.length (SEO.generateMetaDescription content maxLength))
         <= Z.max 0 maxLength + 3 /\
       (prefix = SEO.substring0 content maxLength \/
        exists rest', rest = " "%char :: rest')).
Proof.
  intros content maxLength. unfold SEO.generateMetaDescription. split.
  - intros H. apply Z.leb_le in H. now rewrite H.
  - intros H. replace (Z.of_nat (List.length content) <=? maxLength) with false
      by (symmetry; apply Z.leb_gt; exact H).
    set (truncated := SEO.substring0 content maxLength).
    assert (Hsplit : content = truncated ++ skipn (Z.to_nat maxLength) content)
      by (symmetry; apply firstn_skipn).
    assert (Hlen : Z.of_nat (List.length truncated) <= Z.max 0 maxLength).
    { unfold truncated, SEO.substring0. rewrite length_firstn. lia. }
    destruct (0 <? SEO.lastIndexOf " " truncated) eqn:E.
    + apply Z.ltb_lt in E. unfold SEO.lastIndexOf in *.
      destruct (SEOFacts.lastIndexOf_from_spec " "%char truncated 0 ltac:(lia))
        as [[Hr _]|(a & b & Ea & _ & Hr)]; [lia|].
      rewrite Hr. unfold SEO.substring0. simpl Z.add. rewrite !Nat2Z.id.
      assert (Hfirst : firstn (List.length a) truncated = a).
      { rewrite Ea. rewrite firstn_app, Nat.sub_diag, firstn_all. simpl.
        apply app_nil_r. }
      rewrite !Hfirst.
      assert (Hla : Z.of_nat (List.length a) <= Z.max 0 maxLength).
      { rewrite Ea, length_app in Hlen. lia. }
      exists a, (" "%char :: b ++ skipn (Z.to_nat maxLength) content).
      repeat split.
      * rewrite Hsplit at 1. rewrite Ea, <- app_assoc. reflexivity.
      * exact Hla.
      * rewrite length_app, Nat2Z.inj_add.
        change (Z.of_nat (List.length SEO.dots)) with 3. lia.
      * right. now eexists.
    + exists truncated, (skipn (Z.to_nat maxLength) content).
      repeat split.
      * exact Hsplit.
      * exact Hlen.
      * rewrite length_app, Nat2Z.inj_add.
        change (Z.of_nat (List.length SEO.dots)) with 3. lia.
      * now left.
Qed.

(* ================================================================== *)
(** ** The seeded administrator *)

(** X27.  The administrator seeded at start-up can log in with the
    password written in the source: after [initializeAdminUser] on a store
    that has no user with the administrator's email, a login with
    ["admin@toolsuitepro.com"] and ["admin123"] answers with a user named
    ["admin"] of role ["admin"], when the login schema takes the address for
    an email. *)
Theorem seeded_admin_can_log_in :
  forall (B : Bcrypt) (Laws : BcryptLaws B) (V : Zod) (st : MemStorage)
         (adminId salt : string) (now : Z),
    zod_email "admin@toolsuitepro.com" = true ->
    getUserByEmail "admin@toolsuitepro.com" st = None ->
    login (Some (mkLoginBody "admin@toolsuitepro.com" "admin123"))
      (initializeAdminUser adminId salt now st) =
    Json (User.mkResponse adminId "admin" "admin@toolsuitepro.com" "admin" now now).
Proof.
  intros B Laws V st adminId salt now Hmail Hnew.
  pose proof (proj1 (getUserByEmail_None _ _) Hnew) as Hnone.
  unfold login, loginSchema_parse. cbn [lb_email lb_password].
  rewrite Hmail. cbn [String.length Nat.leb andb lb_email lb_password].
  unfold authenticateUser, getUserByEmail, initializeAdminUser.
  cbn [users set_users].
  set (adminUser := User.mk adminId "admin" "admin@toolsuitepro.com"
                      (bcrypt_hash "admin123" salt) "admin" now now).
  pose proof (find_email_set adminId adminUser (users st) Hnone) as Hfind.
  change (User.email adminUser) with "admin@toolsuitepro.com"%string in Hfind.
  rewrite Hfind.
  change (User.password adminUser) with (bcrypt_hash "admin123" salt).
  rewrite bcrypt_compare_key; reflexivity.
Qed.

Lemma seeded_admin_can_log_in_witness :
  zod_email (Zod := toy_zod) "admin@toolsuitepro.com" = true /\
  getUserByEmail "admin@toolsuitepro.com" new_maps = None /\
  login (B := toy_bcrypt) (V := toy_zod)
    (Some (mkLoginBody "admin@toolsuitepro.com" "admin123"))
    (initializeAdminUser (B := toy_bcrypt) "root" "s0" 1 new_maps) =
  Json (User.mkResponse "root" "admin" "admin@toolsuitepro.com" "admin" 1 1).
Proof.
  split; [reflexivity|]. split; [reflexivity|].
  exact (seeded_admin_can_log_in toy_bcrypt toy_bcrypt_laws toy_zod new_maps
           "root" "s0" 1 eq_refl eq_refl).
Defined.

(* ================================================================== *)
(** ** Ties of the listing *)

Section Positions.
Context {A : Type}.

Lemma NoDup_app_disjoint (l1 l2 : list A) (x : A) :
  NoDup (l1 ++ l2) -> In x l1 -> In x l2 -> False.
Proof.
  induction l1 as [|y l1 IH]; simpl; [tauto|].
  intros Hnd [->|Hin] Hx.
  - apply NoDup_cons_iff in Hnd as [Hno _]. apply Hno, in_app_iff. now right.
  - apply NoDup_cons_iff in Hnd as [_ Hnd]. now apply IH.
Qed.

(** In a duplicate-free list an element splits the list in one way only. *)
Lemma NoDup_split_unique (a b c d : list A) (x : A) :
  NoDup (a ++ x :: b) -> a ++ x :: b = c ++ x :: d -> a = c /\ b = d.
Proof.
  revert c. induction a as [|y a IH]; intros [|z c] Hnd E; simpl in *.
  - injection E as <-. now split.
  - injection E as <- ->. exfalso.
    apply NoDup_cons_iff in Hnd as [Hno _]. apply Hno, in_app_iff. right. now left.
  - injection E as -> <-. exfalso.
    apply NoDup_cons_iff in Hnd as [Hno _]. apply Hno, in_app_iff. right. now left.
  - injection E as <- E. apply NoDup_cons_iff in Hnd as [_ Hnd].
    destruct (IH c Hnd E) as [-> ->]. now split.
Qed.

Lemma listed_before_asym (l : list A) (u v : A) :
  NoDup l -> listed_before l u v -> listed_before l v u -> False.
Proof.
  intros Hnd (l1 & l2 & l3 & E1) (m1 & m2 & m3 & E2).
  rewrite E1 in Hnd.
  assert (E : l1 ++ u :: (l2 ++ v :: l3) = (m1 ++ v :: m2) ++ u :: m3)
    by (rewrite <- E1, E2, <- app_assoc; reflexivity).
  destruct (NoDup_split_unique _ _ _ _ _ Hnd E) as [-> _].
  apply (NoDup_app_disjoint _ _ v Hnd).
  - apply in_app_iff. right. now left.
  - right. apply in_app_iff. right. now left.
Qed.

Lemma listed_before_neq (l : list A) (u v : A) :
  NoDup l -> listed_before l u v -> u <> v.
Proof.
  intros Hnd (l1 & l2 & l3 & E) ->. rewrite E in Hnd.
  apply NoDup_remove_2 in Hnd. apply Hnd, in_app_iff. right.
  apply in_app_iff. right. now left.
Qed.

Lemma sorted_by_position (pre l : list A) :
  StronglySorted (listed_before (pre ++ l)) l.
Proof.
  revert pre. induction l as [|x l IH]; intros pre; constructor.
  - replace (pre ++ x :: l) with ((pre ++ [x]) ++ l) by (now rewrite <- app_assoc).
    apply IH.
  - rewrite Forall_forall. intros y Hy.
    apply in_split in Hy as (a & b & ->). now exists pre, a, b.
Qed.

Lemma StronglySorted_split (R : A -> A -> Prop) (a b : list A) (x y : A) :
  StronglySorted R (a ++ x :: b) -> In y b -> R x y.
Proof.
  induction a as [|z a IH]; simpl; intros Hs Hy.
  - inversion Hs as [|? ? _ Hall]; subst. rewrite Forall_forall in Hall. now apply Hall.
  - inversion Hs; subst. now apply IH.
Qed.

(** The stable sort keeps two elements of equal key in the order they had. *)
Lemma sort_keeps_ties (key : A -> Z) (l : list A) (u v : A) :
  NoDup l -> listed_before l u v -> key u = key v ->
  listed_before (JsArray.sort (JsArray.desc key) l) u v.
Proof.
  intros Hnd Hb Hk.
  pose proof (JsArrayFacts.sort_stable key (listed_before l) l (sorted_by_position [] l))
    as Hs.
  pose proof (listed_before_neq l u v Hnd Hb) as Hne.
  assert (Hu : In u (JsArray.sort (JsArray.desc key) l)).
  { apply JsArrayFacts.sort_In. destruct Hb as (l1 & l2 & l3 & ->).
    apply in_app_iff. right. now left. }
  assert (Hv : In v (JsArray.sort (JsArray.desc key) l)).
  { apply JsArrayFacts.sort_In. destruct Hb as (l1 & l2 & l3 & ->).
    apply in_app_iff. right. right. apply in_app_iff. right. now left. }
  apply in_split in Hu as (s1 & s2 & E). rewrite E in Hv, Hs |- *.
  apply in_app_iff in Hv as [Hv|[Hv|Hv]]; [|congruence|].
  - exfalso. apply in_split in Hv as (c & d & ->).
    rewrite <- app_assoc in Hs. simpl in Hs.
    assert (Hvu : JsArray.stable_order key (listed_before l) v u).
    { apply (StronglySorted_split _ c (d ++ u :: s2)); [exact Hs|].
      apply in_app_iff. right. now left. }
    destruct Hvu as [Hlt|[_ Hvu]]; [lia|].
    exact (listed_before_asym l u v Hnd Hb Hvu).
  - apply in_split in Hv as (c & d & ->). now exists s1, c, d.
Qed.

Lemma listed_before_filter (f : A -> bool) (l : list A) (u v : A) :
  listed_before l u v -> f u = true -> f v = true ->
  listed_before (filter f l) u v.
Proof.
  intros (l1 & l2 & l3 & ->) Hu Hv.
  exists (filter f l1), (filter f l2), (filter f l3).
  rewrite filter_app. simpl. rewrite Hu, filter_app. simpl. now rewrite Hv.
Qed.

End Positions.

(** X28.  Events with the same timestamp are listed in the order in which
    they were stored: if [u] is stored before [v], both have the same
    timestamp and both are returned, then [u] comes before [v] in the
    result, with or without a filter.  (The stored events are pairwise
    different, as records with different identifiers are.) *)
Theorem getToolUsage_ties_keep_insertion_order :
  forall (st : MemStorage) (filters : option ToolUsage.filters) (u v : ToolUsage.t),
    NoDup (JsMap.values (toolUsages st)) ->
    listed_before (JsMap.values (toolUsages st)) u v ->
    ToolUsage.timestamp u = ToolUsage.timestamp v ->
    In u (getToolUsage filters st) ->
    In v (getToolUsage filters st) ->
    listed_before (getToolUsage filters st) u v.
Proof.
  intros st filters u v Hnd Hb Ht Hu Hv.
  destruct filters as [fs|].
  - apply getToolUsage_In in Hu as [_ Hu]. apply getToolUsage_In in Hv as [_ Hv].
    apply passesb_spec in Hu, Hv.
    rewrite getToolUsage_filter.
    change by_timestamp_desc with (JsArray.desc ToolUsage.timestamp).
    apply sort_keeps_ties; [now apply NoDup_filter | | exact Ht].
    now apply listed_before_filter.
  - unfold getToolUsage.
    change by_timestamp_desc with (JsArray.desc ToolUsage.timestamp).
    now apply sort_keeps_ties.
Qed.

Lemma getToolUsage_ties_keep_insertion_order_witness :
  let st := record_all [usage_input "resize" true None; usage_input "crop" true None] in
  let st2 := snd (createToolUsage "late" 0 (usage_input "merge" true None) st) in
  let u := ToolUsage.mk "e0" "resize" "pdf" None None 0 None None true in
  let v := ToolUsage.mk "late" "merge" "pdf" None None 0 None None true in
  NoDup (JsMap.values (toolUsages st2)) /\
  listed_before (JsMap.values (toolUsages st2)) u v /\
  ToolUsage.timestamp u = ToolUsage.timestamp v /\
  In u (getToolUsage None st2) /\
  In v (getToolUsage None st2) /\
  listed_before (getToolUsage None st2) u v.
Proof.
  intros st st2 u v.
  assert (H1 : NoDup (JsMap.values (toolUsages st2))).
  { vm_compute. repeat constructor; simpl; intuition discriminate. }
  assert (H2 : listed_before (JsMap.values (toolUsages st2)) u v).
  { exists [], [ToolUsage.mk "e1" "crop" "pdf" None None 1 None None true], [].
    reflexivity. }
  assert (H3 : ToolUsage.timestamp u = ToolUsage.timestamp v) by reflexivity.
  assert (H4 : In u (getToolUsage None st2)) by (vm_compute; tauto).
  assert (H5 : In v (getToolUsage None st2)) by (vm_compute; tauto).
  split; [exact H1|]. split; [exact H2|]. split; [exact H3|].
  split; [exact H4|]. split; [exact H5|].
  exact (getToolUsage_ties_keep_insertion_order st2 None u v H1 H2 H3 H4 H5).
Defined.
